(** * analytics-exporter: the aggregation engine and its Prometheus collector

    A shallow embedding of
      - [internal/prometheus/prometheus_helper.go]
        ([GetAnalyticsStats], [extractDomainAndPath], [Visit], [AnalyticsStats]),
      - the collector ([NewAnalyticsCollector], [Describe], [Collect]),
      - the [Event] and [Device] messages of [pkg/api/analytics],
    and the properties of the aggregation that the design document states.

    Conventions of the embedding.
      - Go strings are [string]s, read byte by byte.  The two patterns of the
        code only single out the bytes [/], [.] and line feed, none of which
        occurs inside a multi-byte UTF-8 sequence, so matching on bytes and
        matching on runes agree.
      - Go maps [map[string]int] are [gmap string Z]; a missing key reads as
        the zero value.  A map field that may be [nil] is an [option].
      - Go [int] counters are [Z].  Every counter of the aggregation is bumped
        at most once per event or per visit, and a Go slice holds fewer than
        2^63 elements, so no counter of the code wraps around (lemma
        [aggregate_within]).
      - An instant is its number of nanoseconds since the Unix epoch;
        [time.Duration] is a 64-bit count of nanoseconds and [Time.Sub]
        saturates, as in Go.
      - [float64] values are abstracted to NaN, the infinities and exact
        rationals: a finite result stands for the float64 nearest to it.
        Rounding to nearest is monotone and fixes 0 and 1, so the order
        facts proved on the rationals hold of the rounded values too. *)

From Stdlib Require Import ZArith QArith Strings.String Strings.Ascii Sorting.Sorted Lia.
From stdpp Require Import gmap strings list fin_maps sorting pretty.

Open Scope string_scope.
Open Scope list_scope.
Open Scope Z_scope.

(** ** Outcomes of fallible Go code *)

(** A Go function returning [(T, error)] either yields a value or an error;
    a run-time panic (an index out of range) is kept apart from both. *)
Inductive result (A : Type) : Type :=
  | Ok (a : A)
  | Err (msg : string)
  | Panic.
Arguments Ok {A} a.
Arguments Err {A} msg.
Arguments Panic {A}.

#[global] Instance result_ret : MRet result := λ A a, Ok a.
#[global] Instance result_bind : MBind result := λ A B k r,
  match r with
  | Ok a => k a
  | Err m => Err m
  | Panic => Panic
  end.

#[global] Instance result_fmap : FMap result := λ A B f r,
  match r with
  | Ok a => Ok (f a)
  | Err m => Err m
  | Panic => Panic
  end.

Definition is_Ok {A} (r : result A) : Prop := ∃ a, r = Ok a.
Definition is_Err {A} (r : result A) : Prop := ∃ m, r = Err m.

(** ** The pieces of the Go library the aggregation calls *)

Module Go.

(** *** [regexp]: the two patterns of prometheus_helper.go *)

Definition isSlash (c : ascii) : bool := Ascii.eqb c "/".
Definition isNewline (c : ascii) : bool := Ascii.eqb c "010".
Definition isDot (c : ascii) : bool := Ascii.eqb c ".".

(** [[^/]+], greedy: the longest run of bytes other than [/], and what
    follows it.  The run may be empty, which the caller rejects. *)
Fixpoint spanNonSlash (s : string) : string * string :=
  match s with
  | EmptyString => (EmptyString, EmptyString)
  | String c r =>
      if isSlash c then (EmptyString, s)
      else let (d, t) := spanNonSlash r in (String c d, t)
  end.

(** The last group, a greedy dot-star without the [s] flag: everything up
    to the first line feed. *)
Fixpoint dotStar (s : string) : string :=
  match s with
  | EmptyString => EmptyString
  | String c r => if isNewline c then EmptyString else String c (dotStar r)
  end.

Fixpoint dropString (n : nat) (s : string) : string :=
  match n, s with
  | O, _ => s
  | S n, String _ r => dropString n r
  | S _, EmptyString => EmptyString
  end.

(** [https?://] at the head of [s]: the rest of [s] when it is there. *)
Definition stripScheme (s : string) : option string :=
  if String.prefix "https://" s then Some (dropString 8 s)
  else if String.prefix "http://" s then Some (dropString 7 s)
  else None.

(** The two capturing groups at the head of [s]: a non-empty host, then
    the rest of the line. *)
Definition matchHostPath (s : string) : option (string * string) :=
  match spanNonSlash s with
  | (EmptyString, _) => None
  | (d, t) => Some (d, dotStar t)
  end.

(** The whole pattern, an optional [https?://] before the two capturing
    groups, anchored at the head of [s].  The optional group is greedy: the match that takes the scheme is preferred, and the
    one that skips it is tried only when the first fails. *)
Definition matchHere (s : string) : option (string * string) :=
  match stripScheme s with
  | Some body =>
      match matchHostPath body with
      | Some r => Some r
      | None => matchHostPath s
      end
  | None => matchHostPath s
  end.

(** [regex.FindStringSubmatch(link)]: the pattern is not anchored, so the
    leftmost position with a match wins.  [Some (m1, m2)] stands for the
    slice [[m0, m1, m2]] of length 3, [None] for the nil slice. *)
Fixpoint FindStringSubmatch (s : string) : option (string * string) :=
  match matchHere s with
  | Some r => Some r
  | None =>
      match s with
      | EmptyString => None
      | String _ r => FindStringSubmatch r
      end
  end.

(** [regexp.MustCompile(`\.html$`).ReplaceAllString(s, "")]: [$] is the end
    of the text, so the only possible match is a final [.html]; the scan
    copies bytes until what remains is exactly that. *)
Fixpoint removeHtmlSuffix (s : string) : string :=
  if String.eqb s ".html" then EmptyString
  else match s with
       | EmptyString => EmptyString
       | String c r => String c (removeHtmlSuffix r)
       end.

(** *** [strings.Split(s, ".")] *)
Fixpoint splitDots (s : string) : list string :=
  match s with
  | EmptyString => [EmptyString]
  | String c r =>
      if isDot c then EmptyString :: splitDots r
      else match splitDots r with
           | h :: t => String c h :: t
           | [] => [String c EmptyString]
           end
  end.

(** *** [time] *)

Definition minDuration : Z := - 2 ^ 63.
Definition maxDuration : Z := 2 ^ 63 - 1.
Definition Minute : Z := 60 * 1000000000.
Definition Hour : Z := 60 * Minute.

(** The zero [time.Time], January 1 of year 1, as an instant of the clock
    the embedding uses: nanoseconds from the Unix epoch. *)
Definition zeroTime : Z := - 62135596800 * 1000000000.

(** [t.Sub(u)]: the difference, or the extreme duration when it does not
    fit 64 bits. *)
Definition Sub (t u : Z) : Z :=
  let d := t - u in
  if d <? minDuration then minDuration
  else if maxDuration <? d then maxDuration
  else d.

(** [d.Abs()]: the absolute value; the minimum duration becomes the
    maximum one. *)
Definition Abs (d : Z) : Z :=
  if d =? minDuration then maxDuration else Z.abs d.

(** [time.Since(t)], with the wall clock reading [now] made explicit. *)
Definition Since (now t : Z) : Z := Sub now t.

(** *** [float64], abstracted *)

Inductive float64 : Type :=
  | NaN
  | PosInf
  | NegInf
  | Finite (q : Q).

(** [float64(n)] for an integer [n]. *)
Definition ofInt (n : Z) : float64 := Finite (inject_Z n).

(** [x / y] in IEEE arithmetic, on the values a conversion from an integer
    yields: the quotient, an infinity of the sign of [x] when only [y] is
    zero, and NaN for 0/0. *)
Definition fdiv (x y : float64) : float64 :=
  match x, y with
  | Finite a, Finite b =>
      if Qeq_bool b 0 then
        (match Qcompare a 0 with
         | Eq => NaN
         | Gt => PosInf
         | Lt => NegInf
         end)
      else Finite (Qred (a / b))
  | _, _ => NaN
  end.

Definition isFinite (x : float64) : Prop :=
  match x with Finite _ => True | _ => False end.

Definition isNaN (x : float64) : Prop :=
  match x with NaN => True | _ => False end.

(** [0 <= x <= 1] for a float64; false of NaN and of the infinities. *)
Definition inUnitInterval (x : float64) : Prop :=
  match x with
  | Finite q => (0 <= q)%Q ∧ (q <= 1)%Q
  | _ => False
  end.

End Go.

(** *** [sort.Slice] *)

Module GoSort.

(** [sort.Slice(xs, less)] leaves [xs] a permutation of itself in which no
    element is [less] than one before it.  Go does not promise to keep
    elements that compare equal in their original order; the insertion
    sort below is one admissible outcome.  Nothing proved below about the
    aggregation depends on which one is chosen: the lemmas on the loop
    hold for every order of the events. *)
Section Slice.
Context {A : Type} (less : A → A → bool).

Fixpoint insert (x : A) (l : list A) : list A :=
  match l with
  | [] => [x]
  | y :: r => if less y x then y :: insert x r else x :: y :: r
  end.

Definition Slice (l : list A) : list A := foldr insert [] l.
End Slice.

End GoSort.

(** ** [pkg/api/analytics]: the messages of the event store *)

Module analytics.

(** [oneof Device] of message [Device]. *)
Inductive isDevice_Device : Type :=
  | Device_Tablet (Tablet : bool)
  | Device_Mobile (Mobile : bool)
  | Device_Desktop (Desktop : bool)
  | Device_Bot (Bot : bool).

(** Message [Device]; the oneof may be unset. *)
Record Device : Type := mkDevice { Device_oneof : option isDevice_Device }.

(** [google.protobuf.Timestamp]. *)
Record Timestamp : Type := mkTimestamp { Seconds : Z; Nanos : Z }.

(** Message [Event].  [Type] is spelled [Type_]; the two message-typed
    fields are pointers and may be nil. *)
Record Event : Type := mkEvent {
  ID : string;
  Type_ : string;
  URL : string;
  Domain : string;
  Referrer : string;
  Browser : string;
  OS : string;
  Device_ : option Device;
  HashedVisit : string;
  Meta : gmap string string;
  Props : gmap string string;
  Timestamp_ : option Timestamp
}.

(** Message [Events]. *)
Record Events : Type := mkEvents { Events_ : list Event }.

(** Modelled from the spec: the Go code generated from the message
    definitions (the getters of [Event], [Events] and [Device]) is not among
    the sources, only the message definitions are.  The getters below follow
    the generated code of protoc-gen-go: each accepts a nil receiver and
    yields the zero value for a field that is not set, so that, as the design
    document has it, a device that is not set counts as unknown. *)
Definition GetEvents (x : option Events) : list Event :=
  match x with Some es => Events_ es | None => [] end.

(** Modelled from the spec: the generated getter of the oneof, nil for a nil
    message. *)
Definition GetDevice (d : option Device) : option isDevice_Device :=
  match d with Some m => Device_oneof m | None => None end.

(** Modelled from the spec: the generated getters of the four variants, each
    false unless the oneof holds that variant. *)
Definition GetTablet (d : option Device) : bool :=
  match GetDevice d with Some (Device_Tablet b) => b | _ => false end.
Definition GetMobile (d : option Device) : bool :=
  match GetDevice d with Some (Device_Mobile b) => b | _ => false end.
Definition GetDesktop (d : option Device) : bool :=
  match GetDevice d with Some (Device_Desktop b) => b | _ => false end.
Definition GetBot (d : option Device) : bool :=
  match GetDevice d with Some (Device_Bot b) => b | _ => false end.

(** [ts.AsTime()]: the instant [time.Unix(seconds, nanos)], in nanoseconds;
    a nil timestamp reads as the epoch. *)
Definition AsTime (ts : option Timestamp) : Z :=
  match ts with
  | Some t => Seconds t * 1000000000 + Nanos t
  | None => 0
  end.

End analytics.

(** ** [internal/database]: the store interface *)

Module database.
Import analytics.

(** Interface [Database]; only [List] is used by the aggregation. *)
Record Database : Type := mkDatabase {
  List : string → result (option Events);
  Insert : Event → option string
}.

End database.

(** ** [internal/prometheus]: the aggregation *)

Module prometheus.
Import Go analytics database.

(** [VisitDuration]: a visit ends after thirty minutes without a page view. *)
Definition VisitDuration : Z := Minute * 30.

Record Visit : Type := mkVisit {
  EntryPage : string;
  ExitPage : string;
  PagesVisited : Z;
  LastPageViewTimestamp : Z
}.

Record AnalyticsStats : Type := mkAnalyticsStats {
  UniqueVisitors : Z;
  TotalVisits : Z;
  TotalPageViews : Z;
  CurrentVisitors : Z;
  BounceRate : float64;
  PagesRate : option (gmap string Z);
  SourcesRate : option (gmap string Z);
  DevicesRate : option (gmap string Z);
  OSsRate : option (gmap string Z);
  BrowsersRate : option (gmap string Z);
  EntryPagesRate : option (gmap string Z);
  ExitPagesRate : option (gmap string Z)
}.

(** [m[k]++] on a [map[string]int]. *)
Definition incr (k : string) (m : gmap string Z) : gmap string Z :=
  <[k := default 0 (m !! k) + 1]> m.

(** [extractDomainAndPath]. *)
Definition extractDomainAndPath (link : string) : result (string * string) :=
  match FindStringSubmatch link with
  | None => Err ("unable to extract domain and path from the link: " +:+ link)
  | Some (domain, path) =>
      Ok (domain, if String.eqb path "" then "/" else path)
  end.

(** The variables the loop over the events updates. *)
Record Counters : Type := mkCounters {
  pageViewsCount : Z;
  pages : gmap string Z;
  sources : gmap string Z;
  devices : gmap string Z;
  oss : gmap string Z;
  browsers : gmap string Z;
  visitsMap : gmap string (list Visit)
}.

Definition initCounters : Counters :=
  mkCounters 0 ∅ ∅ ∅ ∅ ∅ ∅.

(** The [Visit] literal of lines 90 and 100. *)
Definition newVisit (urlPath : string) (ts : Z) : Visit :=
  mkVisit urlPath urlPath 1 ts.

(** The three assignments through [lastVisit] of lines 107-109. *)
Definition extendVisit (lastVisit : Visit) (urlPath : string) (ts : Z) : Visit :=
  mkVisit (EntryPage lastVisit) urlPath (PagesVisited lastVisit + 1) ts.

(** Lines 88-111.  [lastVisit] is a pointer into the slice held by the map,
    so writing through it replaces the last element of that slice.
    Indexing an empty slice with [len(v)-1] panics. *)
Definition recordVisit (vm : gmap string (list Visit))
    (hashedVisit urlPath : string) (ts : Z) : result (gmap string (list Visit)) :=
  match vm !! hashedVisit with
  | None => Ok (<[hashedVisit := [newVisit urlPath ts]]> vm)
  | Some v =>
      match last v with
      | None => Panic
      | Some lastVisit =>
          if VisitDuration <? Sub ts (LastPageViewTimestamp lastVisit) then
            Ok (<[hashedVisit := v ++ [newVisit urlPath ts]]> vm)
          else
            Ok (<[hashedVisit :=
                   <[(List.length v - 1)%nat := extendVisit lastVisit urlPath ts]> v]> vm)
      end
  end.

(** Lines 123-129: the label under which a referrer host is counted. *)
Definition referrerLabel (fullReferrerDomain : string) : string :=
  let referrerDomains := splitDots fullReferrerDomain in
  if (1 <? List.length referrerDomains)%nat then
    let reversed := reverse referrerDomains in
    default "" (reversed !! 1%nat) +:+ "." +:+ default "" (reversed !! 0%nat)
  else fullReferrerDomain.

(** Lines 115-136. *)
Definition countSource (srcs : gmap string Z)
    (fullUrlDomain referrer : string) : result (gmap string Z) :=
  if String.eqb referrer "" then Ok (incr "Direct/None" srcs)
  else
    '(fullReferrerDomain, _) ← extractDomainAndPath referrer;
    let referrerDomain := referrerLabel fullReferrerDomain in
    if negb (String.eqb fullUrlDomain fullReferrerDomain)
    then Ok (incr referrerDomain srcs)
    else Ok srcs.

(** Lines 138-149: the first case of the switch that holds. *)
Definition deviceBucket (d : option Device) : string :=
  if GetDesktop d then "Desktop"
  else if GetMobile d then "Mobile"
  else if GetTablet d then "Tablet"
  else if GetBot d then "Bot"
  else "Unknown".

(** Lines 151-161. *)
Definition orUnknown (s : string) : string :=
  if negb (String.eqb s "") then s else "Unknown".

(** The body of the loop of lines 69-162, in the order of the code: an
    error of the URL comes before the visit is recorded, an error of the
    referrer after. *)
Definition processEvent (c : Counters) (e : Event) : result Counters :=
  let pageViewsCount :=
    if String.eqb (Type_ e) "pageview" then pageViewsCount c + 1
    else pageViewsCount c in
  '(fullUrlDomain, urlPath) ← extractDomainAndPath (URL e);
  let urlPath := removeHtmlSuffix urlPath in
  let pages := incr urlPath (pages c) in
  visitsMap ← recordVisit (visitsMap c) (HashedVisit e) urlPath
                (AsTime (Timestamp_ e));
  sources ← countSource (sources c) fullUrlDomain (Referrer e);
  let devices := incr (deviceBucket (Device_ e)) (devices c) in
  let oss := incr (orUnknown (OS e)) (oss c) in
  let browsers := incr (orUnknown (Browser e)) (browsers c) in
  Ok (mkCounters pageViewsCount pages sources devices oss browsers visitsMap).

(** The loop: the first failure ends it. *)
Fixpoint processEvents (c : Counters) (es : list Event) : result Counters :=
  match es with
  | [] => Ok c
  | e :: es' => c' ← processEvent c e; processEvents c' es'
  end.

(** The variables of the pass over the visits, lines 163-181. *)
Record VisitTotals : Type := mkVisitTotals {
  entryPages : gmap string Z;
  exitPages : gmap string Z;
  totalVisits : Z;
  onePageVisits : Z;
  currentVisitors : Z
}.

Definition initVisitTotals : VisitTotals := mkVisitTotals ∅ ∅ 0 0 0.

(** Body of the inner loop; [now] is the clock reading of [time.Since]. *)
Definition countVisit (now : Z) (t : VisitTotals) (visit : Visit) : VisitTotals :=
  mkVisitTotals
    (incr (EntryPage visit) (entryPages t))
    (incr (ExitPage visit) (exitPages t))
    (totalVisits t + 1)
    (if PagesVisited visit =? 1 then onePageVisits t + 1 else onePageVisits t)
    (if Abs (Since now (LastPageViewTimestamp visit)) <? 5 * Minute
     then currentVisitors t + 1 else currentVisitors t).

(** Both loops.  Go ranges over the map in an unspecified order; every
    update commutes with every other, so any order gives these totals
    (lemma [countVisits_any_order]). *)
Definition countVisits (now : Z) (vm : gmap string (list Visit)) : VisitTotals :=
  map_fold (λ _ visits t, foldl (countVisit now) t visits) initVisitTotals vm.

(** [sort.Slice] by [Before] of the timestamps, lines 62-67. *)
Definition eventBefore (a b : Event) : bool :=
  AsTime (Timestamp_ a) <? AsTime (Timestamp_ b).

Definition sortEvents (es : list Event) : list Event :=
  GoSort.Slice eventBefore es.

(** Lines 183-197. *)
Definition makeStats (c : Counters) (t : VisitTotals) : AnalyticsStats :=
  {| UniqueVisitors := Z.of_nat (size (visitsMap c));
     TotalVisits := totalVisits t;
     TotalPageViews := pageViewsCount c;
     CurrentVisitors := currentVisitors t;
     BounceRate := fdiv (ofInt (onePageVisits t)) (ofInt (pageViewsCount c));
     PagesRate := Some (pages c);
     SourcesRate := Some (sources c);
     DevicesRate := Some (devices c);
     OSsRate := Some (oss c);
     BrowsersRate := Some (browsers c);
     EntryPagesRate := Some (entryPages t);
     ExitPagesRate := Some (exitPages t) |}.

(** The aggregation proper: everything after the store has answered. *)
Definition aggregate (now : Z) (events : list Event) : result AnalyticsStats :=
  c ← processEvents initCounters (sortEvents events);
  Ok (makeStats c (countVisits now (visitsMap c))).

(** [GetAnalyticsStats]; a nil [db] is [None]. *)
Definition GetAnalyticsStats (now : Z) (db : option Database) (domain : string)
    : result AnalyticsStats :=
  match db with
  | None => Err "database is nil"
  | Some d =>
      events ← List d domain;
      aggregate now (GetEvents events)
  end.

(** *** The collector *)

(** [prometheus.ValueType] and the parts of [prometheus.Desc] and of a
    constant metric that the collector determines. *)
Inductive ValueType : Type := CounterValue | GaugeValue | UntypedValue.

Record Desc : Type := mkDesc {
  fqName : string;
  help : string;
  variableLabels : list string;
  constLabels : gmap string string
}.

Definition NewDesc (fqName help : string) (variableLabels : list string)
    (constLabels : gmap string string) : Desc :=
  mkDesc fqName help variableLabels constLabels.

Record Metric : Type := mkMetric {
  desc : Desc;
  valueType : ValueType;
  value : float64;
  labelValues : list string
}.

(** [prometheus.MustNewConstMetric]: panics on a nil descriptor and when
    the label values do not match the variable labels in number.  Any
    float64 is accepted as a value, NaN included.  The client library also
    rejects descriptors whose names or labels are not well formed; the names
    of the collector are constants that pass, and the constant labels are
    taken to pass too. *)
Definition MustNewConstMetric (d : option Desc) (vt : ValueType) (v : float64)
    (lvs : list string) : result Metric :=
  match d with
  | None => Panic
  | Some d =>
      if (List.length lvs =? List.length (variableLabels d))%nat
      then Ok (mkMetric d vt v lvs)
      else Panic
  end.

(** [AnalyticsCollector], without its logger and its mutex. *)
Record AnalyticsCollector : Type := mkAnalyticsCollector {
  metrics : gmap string Desc;
  database : option Database;
  domain : string
}.

(** The twelve entries of the map literal, in the order of the source. *)
Definition metricTable (constLabels : gmap string string) : list (string * Desc) :=
  [ ("unique_visitors_total",
     NewDesc "unique_visitors_total" "Total number of unique visitors" [] constLabels);
    ("visits_total",
     NewDesc "visits_total" "Total number of visitors" [] constLabels);
    ("total_page_views",
     NewDesc "page_views" "Total number of page views" [] constLabels);
    ("current_visitors",
     NewDesc "current_visitors" "Current visitors" [] constLabels);
    ("bounce_rate",
     NewDesc "bounce_rate" "Bounce rate in %" [] constLabels);
    ("page_rate",
     NewDesc "page_rate" "Rating of page" ["page"] constLabels);
    ("source_rate",
     NewDesc "source_rate" "Rating of source" ["source"] constLabels);
    ("os_rate",
     NewDesc "os_rate" "Rating of OS" ["os"] constLabels);
    ("browser_rate",
     NewDesc "browser_rate" "Rating of browser" ["browser"] constLabels);
    ("device_rate",
     NewDesc "device_rate" "Rating of device" ["device"] constLabels);
    ("entry_pages_rate",
     NewDesc "entry_pages_rate" "Rating of entry pages" ["page"] constLabels);
    ("exit_pages_rate",
     NewDesc "exit_pages_rate" "Rating of exit pages" ["page"] constLabels) ].

Definition NewAnalyticsCollector (constLabels : gmap string string)
    (db : option Database) (domain : string) : AnalyticsCollector :=
  {| metrics := list_to_map (metricTable constLabels);
     database := db;
     domain := domain |}.

(** [Describe]: every descriptor of the map is sent once.  The order of a
    Go [range] over a map is unspecified; the list below is in the order
    of [map_to_list], and only its content is meaningful. *)
Definition Describe (c : AnalyticsCollector) : list Desc :=
  (map_to_list (metrics c)).*2.

(** One labelled sample per entry of a categorical map, lines 69-123 of the
    collector; a nil map sends nothing. *)
Fixpoint rateMetrics (d : option Desc) (entries : list (string * Z))
    : result (list Metric) :=
  match entries with
  | [] => Ok []
  | (label, rate) :: rest =>
      m ← MustNewConstMetric d GaugeValue (ofInt rate) [label];
      ms ← rateMetrics d rest;
      Ok (m :: ms)
  end.

Definition collectRate (c : AnalyticsCollector) (name : string)
    (rates : option (gmap string Z)) : result (list Metric) :=
  match rates with
  | None => Ok []
  | Some m => rateMetrics (metrics c !! name) (map_to_list m)
  end.

(** The samples sent once the snapshot is there, lines 58-123. *)
Definition emit (c : AnalyticsCollector) (stats : AnalyticsStats)
    : result (list Metric) :=
  m1 ← MustNewConstMetric (metrics c !! "unique_visitors_total")
         CounterValue (ofInt (UniqueVisitors stats)) [];
  m2 ← MustNewConstMetric (metrics c !! "visits_total")
         CounterValue (ofInt (TotalVisits stats)) [];
  m3 ← MustNewConstMetric (metrics c !! "total_page_views")
         CounterValue (ofInt (TotalPageViews stats)) [];
  m4 ← MustNewConstMetric (metrics c !! "current_visitors")
         CounterValue (ofInt (CurrentVisitors stats)) [];
  m5 ← MustNewConstMetric (metrics c !! "bounce_rate")
         GaugeValue (BounceRate stats) [];
  r1 ← collectRate c "page_rate" (PagesRate stats);
  r2 ← collectRate c "source_rate" (SourcesRate stats);
  r3 ← collectRate c "device_rate" (DevicesRate stats);
  r4 ← collectRate c "os_rate" (OSsRate stats);
  r5 ← collectRate c "browser_rate" (BrowsersRate stats);
  r6 ← collectRate c "entry_pages_rate" (EntryPagesRate stats);
  r7 ← collectRate c "exit_pages_rate" (ExitPagesRate stats);
  Ok ([m1; m2; m3; m4; m5] ++ r1 ++ r2 ++ r3 ++ r4 ++ r5 ++ r6 ++ r7).

(** [Collect]: the samples sent on the channel.  [Err] is the call of
    [logger.Fatal], which ends the process before anything is sent. *)
Definition Collect (now : Z) (c : AnalyticsCollector) : result (list Metric) :=
  stats ← GetAnalyticsStats now (database c) (domain c);
  emit c stats.

End prometheus.

(** ** [internal/database]: the in-memory store *)

Module inmem.
Import Go analytics database.

(** The store keeps its records in a go-memdb table, [events], with two
    string-field indexes: [id], unique, and [domain], not unique; neither
    allows a missing value.  go-memdb is not part of the repository; what
    follows is the behaviour of its [StringFieldIndex] and of [Txn.Insert]
    and [Txn.Get] on such a table. *)

Definition NUL : ascii := "000".

(** [StringFieldIndex.FromObject]: an empty field has no index value; any
    other field is indexed under its bytes and a terminating NUL. *)
Definition fromObject (field : string) : option string :=
  if String.eqb field "" then None else Some (field +:+ String NUL "").

(** [StringFieldIndex.FromArgs]: the argument and a terminating NUL. *)
Definition fromArgs (arg : string) : string := arg +:+ String NUL "".

(** The key of a record in the [domain] index: the index value of its
    domain followed by its primary key, as for every index that is not
    unique. *)
Definition domainIndexKey (idVal : string) (e : Event) : option string :=
  (λ v, v +:+ idVal) <$> fromObject (Domain e).

(** [bytes.HasPrefix], by which the radix tree seeks. *)
Fixpoint hasPrefix (p s : string) : bool :=
  match p, s with
  | EmptyString, _ => true
  | String a p', String b s' => Ascii.eqb a b && hasPrefix p' s'
  | String _ _, EmptyString => false
  end.

(** [inMem]: the records of the table under their primary keys. *)
Record inMem : Type := mkInMem { records : gmap string Event }.

(** [newInMem]: the schema is valid, so the store is created, empty. *)
Definition newInMem : result inMem := Ok (mkInMem ∅).

(** [inMem.Insert]: [Txn.Insert] and the commit.  A record without a
    primary key or without a domain is refused and the transaction is
    aborted; a record whose primary key is taken replaces the one there. *)
Definition Insert (d : inMem) (msg : Event) : result inMem :=
  match fromObject (ID msg) with
  | None => Err "object missing primary index"
  | Some idVal =>
      match fromObject (Domain msg) with
      | None => Err "missing value for index 'domain'"
      | Some _ => Ok (mkInMem (<[idVal := msg]> (records d)))
      end
  end.

(** Whether [Txn.Get] on the [domain] index with argument [domain] reaches a
    record: the iterator seeks the prefix [fromArgs domain] among the keys
    of the index. *)
Definition reached (domain : string) (kv : string * Event) : bool :=
  match domainIndexKey kv.1 kv.2 with
  | Some key => hasPrefix (fromArgs domain) key
  | None => false
  end.

(** [inMem.List]: the records the iterator reaches, in a fresh slice;
    it never fails.  The iterator goes by the order of the index keys; here
    the records come in the order of [map_to_list], and only the content of
    the slice is meaningful. *)
Definition List (d : inMem) (domain : string) : result (option Events) :=
  Ok (Some (mkEvents
    (snd <$> List.filter (reached domain) (map_to_list (records d))))).

(** The store behind the interface [Database], as a scrape sees it. *)
Definition asDatabase (d : inMem) : Database :=
  mkDatabase (List d)
    (λ msg, match Insert d msg with Err m => Some m | _ => None end).

(** Inserting events one after the other; the first failure ends it, as in
    the mock-data loop of [run]. *)
Fixpoint insertAll (d : inMem) (es : list Event) : result inMem :=
  match es with
  | [] => Ok d
  | e :: es' => d' ← Insert d e; insertAll d' es'
  end.

End inmem.

(** ** [internal/analytics]: the ingestion service *)

(** [encoding/hex]. *)
Module hex.

Definition hextable : string := "0123456789abcdef".

Definition digit (i : N) : ascii :=
  default "0"%char (String.get (N.to_nat i) hextable).

(** [hex.EncodeToString]: two digits for every byte, the high one first. *)
Fixpoint EncodeToString (src : string) : string :=
  match src with
  | EmptyString => EmptyString
  | String c rest =>
      String (digit (N.shiftr (N_of_ascii c) 4))
        (String (digit (N.land (N_of_ascii c) 15)) (EncodeToString rest))
  end.

End hex.

(** What the service reads of a parsed user agent
    ([github.com/mileusna/useragent]). *)
Module useragent.

Record UserAgent : Type := mkUserAgent {
  Name : string;
  OS : string;
  Mobile : bool;
  Tablet : bool;
  Desktop : bool;
  Bot : bool
}.

End useragent.

Module server.
Import Go analytics inmem.

Definition DailySaltLifetime : Z := Hour * 24.
Definition DailySaltBytesAmount : nat := 32.

(** The server and the two package variables.  [h] is the SHA-256 state of
    the server, kept as the bytes written to it since its last reset; [db]
    is the in-memory store, the one implementation of the interface.  The
    handler is embedded for calls that are served one after the other. *)
Record analyticsServer : Type := mkServer {
  h : string;
  db : inMem;
  DailySalt : option string;
  DailySaltTimestamp : Z
}.

(** What one call takes from outside the program: the metadata of the
    incoming context, the clock reading of [time.Since] (line 44), what
    [io.ReadFull] leaves in the salt buffer and the error it returns
    (line 46), the clock reading of line 50, the string of the new UUID, or
    [None] when [uuid.New] panics (line 55), and the timestamp of
    [timestamppb.Now] (line 70). *)
Record Call : Type := mkCall {
  md : gmap string (list string);
  clock : Z;
  saltBuffer : string;
  saltErr : option string;
  stamp : Z;
  newID : option string;
  pbNow : Timestamp
}.

(** [md[key][0]]: a missing key reads as a nil slice, and the index
    expression panics on an empty slice. *)
Definition first (m : gmap string (list string)) (key : string)
    : result string :=
  match m !! key with
  | Some (v :: _) => Ok v
  | _ => Panic
  end.

(** The condition of line 44. *)
Definition expired (s : analyticsServer) (c : Call) : bool :=
  match DailySalt s with
  | None => true
  | Some _ => DailySaltLifetime <? Since (clock c) (DailySaltTimestamp s)
  end.

(** Lines 44-52.  The buffer replaces the salt before it is filled; the
    timestamp is set only after a complete read. *)
Definition rotate (s : analyticsServer) (c : Call)
    : analyticsServer * result unit :=
  if expired s c then
    let s1 := mkServer (h s) (db s) (Some (saltBuffer c)) (DailySaltTimestamp s) in
    match saltErr c with
    | Some e => (s1, Err ("error while creating the daily salt: " +:+ e))
    | None =>
        (mkServer (h s) (db s) (Some (saltBuffer c)) (stamp c), Ok tt)
    end
  else (s, Ok tt).

(** Lines 75-101: the first flag set, in the order mobile, tablet, desktop,
    bot, decides; with none set the message stays empty. *)
Definition device (ua : useragent.UserAgent) : Device :=
  if useragent.Mobile ua then mkDevice (Some (Device_Mobile true))
  else if useragent.Tablet ua then mkDevice (Some (Device_Tablet true))
  else if useragent.Desktop ua then mkDevice (Some (Device_Desktop true))
  else if useragent.Bot ua then mkDevice (Some (Device_Bot true))
  else mkDevice None.

Definition write (s : analyticsServer) (bytes : string) : analyticsServer :=
  mkServer (h s +:+ bytes) (db s) (DailySalt s) (DailySaltTimestamp s).

Definition reset (s : analyticsServer) (d : inMem) : analyticsServer :=
  mkServer "" d (DailySalt s) (DailySaltTimestamp s).

Section CreateEvent.

(** The functions of libraries the handler applies: the SHA-256 digest of
    the bytes written, [useragent.Parse], and the text of an event in an
    error message. *)
Variable Sum256 : string → string.
Variable Parse : string → useragent.UserAgent.
Variable format : Event → string.

(** [CreateEvent]: the state the call leaves and what it returns.  The
    lines it prints are left out.  The reset of the hash is deferred at
    line 65 only, so a panic of lines 60 and 61 leaves the bytes written. *)
Definition CreateEvent (s : analyticsServer) (c : Call) (r : option Event)
    : analyticsServer * result unit :=
  match r with
  | None => (s, Err "rpc error: code = InvalidArgument desc = request is nil")
  | Some r =>
      if String.eqb (Domain r) "" then
        (s, Err "rpc error: code = InvalidArgument desc = domain is missing")
      else
        match rotate s c with
        | (s1, Ok _) =>
            match newID c with
            | None => (s1, Panic)
            | Some id =>
                let s2 := write (write s1 (default "" (DailySalt s1))) (Domain r) in
                match first (md c) "x-forwarded-for" with
                | Ok ip =>
                    let s3 := write s2 ip in
                    match first (md c) "grpcgateway-user-agent" with
                    | Ok agent =>
                        let s4 := write s3 agent in
                        let visit := hex.EncodeToString (Sum256 (h s4)) in
                        let ua := Parse agent in
                        let e :=
                          mkEvent id (Type_ r) (URL r) (Domain r) (Referrer r)
                            (useragent.Name ua) (useragent.OS ua)
                            (Some (device ua)) visit (Meta r) (Props r)
                            (Some (pbNow c)) in
                        match Insert (db s4) e with
                        | Ok d => (reset s4 d, Ok tt)
                        | Err _ =>
                            (reset s4 (db s4),
                             Err ("rpc error: code = Internal desc = "
                                  +:+ "cannot create event " +:+ Domain r
                                  +:+ ": " +:+ format e))
                        | Panic => (s4, Panic)
                        end
                    | _ => (s3, Panic)
                    end
                | _ => (s2, Panic)
                end
            end
        | (s1, Err e) => (s1, Err e)
        | (s1, Panic) => (s1, Panic)
        end
  end.

End CreateEvent.

(** [New]: the server it registers, with a new hash and with the package
    variables as they are when the program starts, no salt and the zero
    time.  [g] tells whether the gRPC server is there; a nil database is
    [None]. *)
Definition New (g : bool) (d : option inMem) : result analyticsServer :=
  if negb g then Err "grpc.Server instance is nil"
  else match d with
       | None => Err "database.Database instance is nil"
       | Some d => Ok (mkServer "" d None zeroTime)
       end.

End server.

(** ** [main]: the mock data *)

Module main.
Import Go analytics.

Definition Domain : string := "web".
Definition EventType : string := "pageview".
Definition URL : string := "mockData.example.com".

Definition OSs : list string :=
  [ "Windows"; "Windows Phone"; "Android"; "macOS"; "iOS"; "Linux";
    "FreeBSD"; "ChromeOS"; "BlackBerry" ].

Definition Browsers : list string :=
  [ "Opera"; "Opera Mini"; "Opera Touch"; "Chrome"; "Headless Chrome";
    "Firefox"; "Internet Explorer"; "Safari"; "Edge"; "Vivaldi" ].

Definition Referrers : list string :=
  [ ""; "https://www.google.com"; "https://ua.linkedin.com";
    "https://www.bing.com"; "https://yahoo.com" ].

Definition Paths : list string := [ "/"; "/foo"; "/bar"; "/foo/bar"; "/bar/foo" ].

Definition Devices : list analytics.Device :=
  [ mkDevice (Some (Device_Mobile true)); mkDevice (Some (Device_Tablet true));
    mkDevice (Some (Device_Desktop true)); mkDevice (Some (Device_Bot true)) ].

(** The local type [visitor] of [GetMockData]. *)
Record visitor : Type := mkVisitor {
  IP : string;
  Browser : string;
  OS : string;
  Device : analytics.Device
}.

(** What the loops of [GetMockData] update: the number of values drawn from
    the random source so far, the bytes written to the package hash [H]
    since its last reset, and the slice [mockData]. *)
Record mock : Type := mkMock {
  draws : nat;
  H : string;
  mockData : list Event
}.

(** [l[i]], which panics out of range. *)
Definition index {A} (l : list A) (i : nat) : result A :=
  match l !! i with
  | Some x => Ok x
  | None => Panic
  end.

(** [strconv.Itoa] of a number that is not negative. *)
Definition Itoa (n : nat) : string := pretty n.

(** [timestamppb.New]: the seconds and the nanoseconds of an instant. *)
Definition timestamppbNew (t : Z) : Timestamp :=
  mkTimestamp (t / 1000000000) (t mod 1000000000).

Section GetMockData.

(** The values of the random source draw by draw, the string of the UUID
    made for the event of an index, the SHA-256 digest, and the text of a
    device message. *)
Variable rnd : nat → nat.
Variable uuid : nat → string.
Variable Sum256 : string → string.
Variable text : analytics.Device → string.

(** [rand.Intn(n)] as draw number [k], for the positive bounds the program
    uses: a value below [n]. *)
Definition Intn (n k : nat) : nat * nat := ((rnd k mod n)%nat, S k).

(** Lines 282-286. *)
Definition pickReferrer (k : nat) : result (string * nat) :=
  let '(coin, k) := Intn 2 k in
  if (coin =? 1)%nat then Ok (URL, k)
  else
    let '(i, k) := Intn (List.length Referrers) k in
    referrer ← index Referrers i;
    Ok (referrer, k).

(** Lines 278-302, the body of the inner loop; [timeShift] is in minutes. *)
Definition pageView (v : visitor) (initialTime : Z) (st : mock * Z)
    : result (mock * Z) :=
  let '(m, timeShift) := st in
  let h1 := H m +:+ (IP v +:+ Browser v +:+ text (Device v)) in
  let visitHashValue := Sum256 h1 in
  '(referrer, k) ← pickReferrer (draws m);
  let id := uuid (List.length (mockData m)) in
  let '(i, k) := Intn (List.length Paths) k in
  path ← index Paths i;
  let e :=
    mkEvent id EventType (URL +:+ path) Domain referrer (Browser v) (OS v)
      (Some (Device v)) (hex.EncodeToString visitHashValue) ∅ ∅
      (Some (timestamppbNew (initialTime + Minute * timeShift))) in
  let '(d, k) := Intn 40 k in
  Ok (mkMock k "" (mockData m ++ [e]), timeShift + Z.of_nat d).

Fixpoint pageViews (n : nat) (v : visitor) (initialTime : Z) (st : mock * Z)
    : result (mock * Z) :=
  match n with
  | O => Ok st
  | S n' => st' ← pageView v initialTime st; pageViews n' v initialTime st'
  end.

(** Lines 267-303, the body of the outer loop. *)
Definition visit (initialTime : Z) (m : mock) : result mock :=
  let '(a, k) := Intn 255 (draws m) in
  let '(b, k) := Intn (List.length Browsers) k in
  browser ← index Browsers b;
  let '(o, k) := Intn (List.length OSs) k in
  os ← index OSs o;
  let '(d, k) := Intn (List.length Devices) k in
  device ← index Devices d;
  let v := mkVisitor ("132.14.53." +:+ Itoa (a + 1)) browser os device in
  let '(pageViewsAmount, k) := Intn 5 k in
  '(m', _) ← pageViews (pageViewsAmount + 1) v initialTime
               (mkMock k (H m) (mockData m), 0);
  Ok m'.

Fixpoint visits (n : nat) (initialTime : Z) (m : mock) : result mock :=
  match n with
  | O => Ok m
  | S n' => m' ← visit initialTime m; visits n' initialTime m'
  end.

(** [GetMockData], from draw [k] on and with [h] written to [H]: the state
    it leaves, with the events it returns. *)
Definition GetMockData (initialTime : Z) (k : nat) (h : string) : result mock :=
  let '(totalVisitors, k) := Intn 10 k in
  visits (totalVisitors + 1) initialTime (mkMock k h []).

End GetMockData.

End main.

(** ** The vocabulary of the design document *)

Module Spec.
Import Go analytics database prometheus.

(** The sum of the values of a categorical map. *)
Definition mapSum (m : gmap string Z) : Z :=
  map_fold (λ _ v acc, v + acc) 0 m.

(** The same for a map field of the snapshot; a nil map has no values. *)
Definition rateSum (m : option (gmap string Z)) : Z :=
  match m with Some m => mapSum m | None => 0 end.

(** The count a map holds for a key, zero for a missing key. *)
Definition countOf (m : gmap string Z) (k : string) : Z :=
  default 0 (m !! k).

Definition isPageview (e : Event) : bool := String.eqb (Type_ e) "pageview".

(** The number of events whose category is not ["pageview"]. *)
Definition otherEvents (es : list Event) : Z :=
  Z.of_nat (List.length (List.filter (λ e, negb (isPageview e)) es)).

(** The number of sessions across all fingerprints. *)
Definition sessionCount (vm : gmap string (list Visit)) : Z :=
  mapSum ((λ v : list Visit, Z.of_nat (List.length v)) <$> vm).

Definition isBounce (v : Visit) : bool := PagesVisited v =? 1.

(** The number of sessions of exactly one page view. *)
Definition bounceCount (vm : gmap string (list Visit)) : Z :=
  mapSum ((λ v : list Visit, Z.of_nat (List.length (List.filter isBounce v))) <$> vm).

(** No fingerprint of a visits map has an empty list of sessions. *)
Definition visitsOk (vm : gmap string (list Visit)) : Prop :=
  ∀ fp v, vm !! fp = Some v → v ≠ [].

(** Every count a map holds lies between 0 and [n]. *)
Definition mapWithin (n : Z) (m : gmap string Z) : Prop :=
  ∀ k, 0 ≤ countOf m k ≤ n.

(** Every integer the loop over the events holds lies between 0 and [n]. *)
Definition countersWithin (n : Z) (c : Counters) : Prop :=
  0 ≤ pageViewsCount c ≤ n
  ∧ mapWithin n (pages c) ∧ mapWithin n (sources c)
  ∧ mapWithin n (devices c) ∧ mapWithin n (oss c) ∧ mapWithin n (browsers c)
  ∧ ∀ fp v x, visitsMap c !! fp = Some v → x ∈ v → 0 ≤ PagesVisited x ≤ n.

(** The same for the pass over the visits. *)
Definition totalsWithin (n : Z) (t : VisitTotals) : Prop :=
  mapWithin n (entryPages t) ∧ mapWithin n (exitPages t)
  ∧ 0 ≤ totalVisits t ≤ n ∧ 0 ≤ onePageVisits t ≤ n
  ∧ 0 ≤ currentVisitors t ≤ n.

(** The sessions the Session Reconstructor leaves for an event sequence:
    the visits map at the end of the loop. *)
Definition reconstructSessions (events : list Event)
    : result (gmap string (list Visit)) :=
  c ← processEvents initCounters (sortEvents events); Ok (visitsMap c).

(** The last two dot-separated labels of a host, joined by a dot again;
    a host of a single label is its own short label. *)
Definition joinDots (labels : list string) : string :=
  match labels with
  | [] => ""
  | l :: ls => foldl (λ acc x, acc +:+ "." +:+ x) l ls
  end.

Definition lastTwoLabels (host : string) : string :=
  let labels := splitDots host in
  joinDots (drop (List.length labels - 2)%nat labels).

(** An event whose URL, or whose referrer when it has one, does not
    decompose into a host and a path. *)
Definition malformed (e : Event) : Prop :=
  is_Err (extractDomainAndPath (URL e))
  ∨ (Referrer e ≠ "" ∧ is_Err (extractDomainAndPath (Referrer e))).

(** A string is made of slashes only (the empty string is). *)
Fixpoint onlySlashes (s : string) : bool :=
  match s with
  | EmptyString => true
  | String c r => isSlash c && onlySlashes r
  end.

Fixpoint noSlash (s : string) : bool :=
  match s with
  | EmptyString => true
  | String c r => negb (isSlash c) && noSlash r
  end.

Fixpoint noNewline (s : string) : bool :=
  match s with
  | EmptyString => true
  | String c r => negb (isNewline c) && noNewline r
  end.

(** A path segment of a URL: absent, or starting at a slash, within one
    line. *)
Definition isPathSegment (p : string) : bool :=
  match p with
  | EmptyString => true
  | String c _ => isSlash c && noNewline p
  end.

(** A host: not empty, without a slash, and not itself a scheme name. *)
Definition isHost (h : string) : bool :=
  negb (String.eqb h "") && noSlash h
  && negb (String.eqb h "http:") && negb (String.eqb h "https:").

(** The descriptors of a list that take no variable label, and those that
    take some. *)
Definition unlabelled (ds : list Desc) : list Desc :=
  List.filter (λ d, match variableLabels d with [] => true | _ => false end) ds.
Definition labelled (ds : list Desc) : list Desc :=
  List.filter (λ d, match variableLabels d with [] => false | _ => true end) ds.

(** The descriptor of the map literal under a key. *)
Definition descOf (constLabels : gmap string string) (key : string) : option Desc :=
  snd <$> List.find (λ kd, String.eqb (fst kd) key) (metricTable constLabels).

(** The samples of a categorical map: one gauge per entry, labelled by the
    key of the entry. *)
Definition rateSamples (d : option Desc) (rates : option (gmap string Z))
    : list Metric :=
  match d, rates with
  | Some d, Some m =>
      (λ kv, mkMetric d GaugeValue (ofInt (snd kv)) [fst kv]) <$> map_to_list m
  | _, _ => []
  end.

(** The samples of a scrape sent for the descriptor of a given name. *)
Definition samplesOf (name : string) (ms : list Metric) : list Metric :=
  List.filter (λ m, String.eqb (fqName (desc m)) name) ms.



(** A string without a NUL byte. *)
Fixpoint noNul (s : string) : bool :=
  match s with
  | EmptyString => true
  | String c r => negb (Ascii.eqb c inmem.NUL) && noNul r
  end.

(** The events [List] returns for a domain, and all records of a store. *)
Definition listed (d : inmem.inMem) (domain : string) : list Event :=
  match inmem.List d domain with
  | Ok events => GetEvents events
  | _ => []
  end.

Definition stored (d : inmem.inMem) : list Event :=
  (map_to_list (inmem.records d)).*2.

(** Every record of a store sits under the index value of its own ID and
    has a domain; the stores made by [newInMem] and [Insert] are such. *)
Definition wellKeyed (d : inmem.inMem) : Prop :=
  ∀ k e, inmem.records d !! k = Some e →
    inmem.fromObject (ID e) = Some k ∧ Domain e ≠ "".

(** The record a store holds under an ID. *)
Definition recordOf (d : inmem.inMem) (id : string) : option Event :=
  inmem.records d !! inmem.fromArgs id.

(** The fingerprint of a visit as the ingestion service means it: the hex
    digits of the digest of salt, domain, address and user agent, one after
    the other. *)
Definition visitHash (Sum256 : string → string)
    (salt domain ip agent : string) : string :=
  hex.EncodeToString (Sum256 (salt +:+ domain +:+ ip +:+ agent)).

(** Calls served one after the other; [None] when one of them panics, which
    ends the process. *)
Fixpoint serve (Sum256 : string → string)
    (Parse : string → useragent.UserAgent) (format : Event → string)
    (s : server.analyticsServer) (calls : list (server.Call * option Event))
    : option server.analyticsServer :=
  match calls with
  | [] => Some s
  | (c, r) :: rest =>
      match server.CreateEvent Sum256 Parse format s c r with
      | (_, Panic) => None
      | (s', _) => serve Sum256 Parse format s' rest
      end
  end.

(** The clock readings of the calls do not go back, and start at [lo]. *)
Fixpoint clocksFrom (lo : Z) (calls : list (server.Call * option Event))
    : Prop :=
  match calls with
  | [] => True
  | (c, _) :: rest => lo ≤ server.clock c ∧ clocksFrom (server.clock c) rest
  end.

(** The salt of a server is one of [good], or it is so old that every call
    from [lo] on replaces it. *)
Definition saltReady (good : string → Prop) (lo : Z)
    (s : server.analyticsServer) : Prop :=
  (∃ salt, server.DailySalt s = Some salt ∧ good salt)
  ∨ (∀ t, lo ≤ t →
       server.DailySaltLifetime < Go.Since t (server.DailySaltTimestamp s)).

(** An event as the mock generator makes them for a start time. *)
Definition mockEvent (initialTime : Z) (e : Event) : Prop :=
  Domain e = "web" ∧ Type_ e = "pageview"
  ∧ (∃ path, path ∈ main.Paths ∧ URL e = main.URL +:+ path)
  ∧ (Referrer e = main.URL ∨ Referrer e ∈ main.Referrers)
  ∧ Device_ e ∈ (Some <$> main.Devices)
  ∧ initialTime ≤ AsTime (Timestamp_ e).

(** The labels under which the referrers of the mock data are counted. *)
Definition mockSources : list string :=
  [ "Direct/None"; "google.com"; "linkedin.com"; "bing.com"; "yahoo.com" ].

(** The bucket of the exporter for the flags of a user agent. *)
Definition bucketOf (ua : useragent.UserAgent) : string :=
  if useragent.Mobile ua then "Mobile"
  else if useragent.Tablet ua then "Tablet"
  else if useragent.Desktop ua then "Desktop"
  else if useragent.Bot ua then "Bot"
  else "Unknown".

(** The distinct fingerprints of a sequence of events. *)
Definition fingerprints (es : list Event) : gset string :=
  list_to_set (HashedVisit <$> es).

(** Whether the loop counts an event under a source: its referrer is empty,
    or the host of its referrer is not the host of its URL. *)
Definition countsAsSource (e : Event) : bool :=
  if String.eqb (Referrer e) "" then true
  else match extractDomainAndPath (URL e), extractDomainAndPath (Referrer e) with
       | Ok (urlHost, _), Ok (refHost, _) => negb (String.eqb urlHost refHost)
       | _, _ => false
       end.

(** The page views of a list of sessions, and of all sessions. *)
Definition pagesOfVisits (v : list Visit) : Z :=
  foldr (λ x acc, PagesVisited x + acc) 0 v.

Definition pageViewTotal (vm : gmap string (list Visit)) : Z :=
  mapSum (pagesOfVisits <$> vm).

(** A session last seen less than five minutes from [now], before or after. *)
Definition isCurrent (now : Z) (v : Visit) : bool :=
  Z.abs (now - LastPageViewTimestamp v) <? 5 * Minute.

Definition currentCount (now : Z) (vm : gmap string (list Visit)) : Z :=
  mapSum ((λ v : list Visit,
             Z.of_nat (List.length (List.filter (isCurrent now) v))) <$> vm).

(** The number of steps of a sequence of instants that exceed the session
    timeout. *)
Fixpoint largeGaps (ts : list Z) : nat :=
  match ts with
  | [] => 0
  | t1 :: rest =>
      match rest with
      | [] => 0
      | t2 :: _ =>
          ((if (VisitDuration <? t2 - t1)%Z then 1 else 0) + largeGaps rest)%nat
      end
  end.

(** The count a map field of the snapshot holds for a key, and its keys. *)
Definition rateCount (m : option (gmap string Z)) (k : string) : Z :=
  countOf (default ∅ m) k.

Definition rateKeys (m : option (gmap string Z)) : gset string :=
  dom (default ∅ m).

(** The number of events of a sequence that a test singles out. *)
Definition countEvents (p : Event → bool) (es : list Event) : Z :=
  Z.of_nat (List.length (List.filter p es)).

(** The instant of an event. *)
Definition eventTime (e : Event) : Z := AsTime (Timestamp_ e).

Definition startsWithSlash (s : string) : bool :=
  match s with
  | String c _ => isSlash c
  | EmptyString => false
  end.

(** Every key of a map starts with a slash. *)
Definition slashKeys (m : gmap string Z) : Prop :=
  ∀ k, k ∈ dom m → startsWithSlash k = true.

(** Every session of a visits map enters and exits on a page whose key
    starts with a slash. *)
Definition slashVisits (vm : gmap string (list Visit)) : Prop :=
  ∀ fp v x, vm !! fp = Some v → x ∈ v →
    startsWithSlash (EntryPage x) = true ∧ startsWithSlash (ExitPage x) = true.

(** The key under which the loop counts the page of an event, and the key
    under which it counts its source, if any.  (For an event the loop cannot
    process the page key is immaterial.) *)
Definition pageKey (e : Event) : string :=
  match extractDomainAndPath (URL e) with
  | Ok (_, path) => removeHtmlSuffix path
  | _ => ""
  end.

Definition sourceKey (e : Event) : option string :=
  if String.eqb (Referrer e) "" then Some "Direct/None"
  else match extractDomainAndPath (URL e), extractDomainAndPath (Referrer e) with
       | Ok (urlHost, _), Ok (refHost, _) =>
           if String.eqb urlHost refHost then None
           else Some (referrerLabel refHost)
       | _, _ => None
       end.

End Spec.

(** ** Sample inputs *)

Module Samples.
Import Go analytics database prometheus.

Definition desktop : option Device := Some (mkDevice (Some (Device_Desktop true))).

(** An event as the ingestion service stores it. *)
Definition event (type url referrer hashedVisit : string) (seconds : Z) : Event :=
  mkEvent "id" type url "web" referrer "Chrome" "Linux" desktop hashedVisit
          ∅ ∅ (Some (mkTimestamp seconds 0)).

(** A store that answers every [List] with the same events. *)
Definition store (es : list Event) : option Database :=
  Some (mkDatabase (λ _, Ok (Some (mkEvents es))) (λ _, None)).

(** The scenario of the design document: three page views of one visitor
    at t, t+5m and t+40m, as the store may return them. *)
Definition threeViews : list Event :=
  [ event "pageview" "https://example.com/bar" "" "F1" 2400;
    event "pageview" "https://example.com/" "" "F1" 0;
    event "pageview" "https://example.com/foo.html"
          "https://news.ycombinator.com/item" "F1" 300 ].

(** One event of another category. *)
Definition oneClick : list Event :=
  [ event "click" "https://example.com/" "" "F1" 0 ].

(** A page view of one visitor and a click of another. *)
Definition viewAndClick : list Event :=
  [ event "pageview" "https://example.com/" "" "F1" 0;
    event "click" "https://example.com/" "" "F2" 60 ].

(** An event whose URL has no host. *)
Definition brokenUrl : list Event :=
  [ event "pageview" "https://example.com/" "" "F1" 0;
    event "pageview" "//" "" "F2" 60 ].

Definition labels : gmap string string := {[ "domain" := "web" ]}.

(** Page views of two sites, each under its own ID. *)
Definition viewOf (id domain hashedVisit : string) (seconds : Z) : Event :=
  mkEvent id "pageview" "https://example.com/" domain "" "Chrome" "Linux"
          desktop hashedVisit ∅ ∅ (Some (mkTimestamp seconds 0)).

Definition twoSites : list Event :=
  [ viewOf "a" "web" "F1" 0; viewOf "b" "shop" "F2" 60;
    viewOf "c" "web" "F3" 120 ].

(** Stand-ins for the library functions of the ingestion service: a digest
    that keeps its input, a parser that takes every agent for a desktop
    browser, and an empty text for an event. *)
Definition digest (bytes : string) : string := bytes.

Definition parse (agent : string) : useragent.UserAgent :=
  useragent.mkUserAgent "Chrome" "Linux" false false true false.

Definition text (e : Event) : string := "".

(** A request for a page view, and a call with both headers. *)
Definition request (domain : string) : Event :=
  mkEvent "" "pageview" "https://example.com/" domain "" "" "" None ""
          ∅ ∅ None.

Definition call (id ip agent salt : string) (saltErr : option string)
    (clock : Z) : server.Call :=
  server.mkCall
    {[ "x-forwarded-for" := [ip]; "grpcgateway-user-agent" := [agent] ]}
    clock salt saltErr clock (Some id) (mkTimestamp 1700000000 0).

(** Three calls: the first fails to read a salt, the second reads one, and
    the third, a minute later, is the same visitor. *)
Definition calls : list (server.Call * option Event) :=
  [ (call "u1" "10.0.0.1" "Mozilla" "half" (Some "EOF") 1700000000000000000,
     Some (request "web"));
    (call "u2" "10.0.0.1" "Mozilla" "salt" None 1700000001000000000,
     Some (request "web"));
    (call "u3" "10.0.0.1" "Mozilla" "next" None 1700000061000000000,
     Some (request "web")) ].

End Samples.

(** ** Proofs *)

Import Go analytics database prometheus Spec.

(** *** Sums of map values *)

Section MapSum.
Implicit Types (m : gmap string Z) (k : string).

Lemma mapSum_empty : mapSum ∅ = 0.
Proof. unfold mapSum. by rewrite map_fold_empty. Qed.

Lemma mapSum_insert_fresh m k x :
  m !! k = None → mapSum (<[k := x]> m) = x + mapSum m.
Proof.
  intros Hk. unfold mapSum.
  rewrite map_fold_insert_L; [done | intros; lia | done].
Qed.

Lemma mapSum_insert m k x :
  mapSum (<[k := x]> m) = mapSum m - countOf m k + x.
Proof.
  unfold countOf. destruct (m !! k) as [v|] eqn:Hk; simpl.
  - rewrite <- (insert_delete_eq m k x).
    rewrite mapSum_insert_fresh by apply lookup_delete_eq.
    rewrite <- (insert_id m k v Hk) at 2.
    rewrite <- (insert_delete_eq m k v).
    rewrite mapSum_insert_fresh by apply lookup_delete_eq. lia.
  - rewrite mapSum_insert_fresh by done. lia.
Qed.

Lemma mapSum_incr m k : mapSum (incr k m) = mapSum m + 1.
Proof. unfold incr. rewrite mapSum_insert. unfold countOf. lia. Qed.

Lemma countOf_incr m k j :
  countOf (incr k m) j = countOf m j + (if decide (k = j) then 1 else 0).
Proof.
  unfold countOf, incr. case_decide as Hkj.
  - subst. by rewrite lookup_insert_eq.
  - rewrite lookup_insert_ne by done. lia.
Qed.
End MapSum.

(** *** One turn of the loop *)

Section Step.

(** A successful step, read back. *)
Lemma processEvent_Ok c e c' :
  processEvent c e = Ok c' →
  ∃ host path vm srcs,
    extractDomainAndPath (URL e) = Ok (host, path)
    ∧ recordVisit (visitsMap c) (HashedVisit e) (removeHtmlSuffix path)
        (AsTime (Timestamp_ e)) = Ok vm
    ∧ countSource (sources c) host (Referrer e) = Ok srcs
    ∧ c' = mkCounters
             (if isPageview e then pageViewsCount c + 1 else pageViewsCount c)
             (incr (removeHtmlSuffix path) (pages c))
             srcs
             (incr (deviceBucket (Device_ e)) (devices c))
             (incr (orUnknown (OS e)) (oss c))
             (incr (orUnknown (Browser e)) (browsers c))
             vm.
Proof.
  unfold processEvent. intros H.
  destruct (extractDomainAndPath (URL e)) as [[host path]| |];
    simpl in H; try discriminate.
  destruct (recordVisit _ _ _ _) as [vm| |] eqn:Hvm; simpl in H; try discriminate.
  destruct (countSource _ _ _) as [srcs| |] eqn:Hsrc; simpl in H; try discriminate.
  injection H as <-. by exists host, path, vm, srcs.
Qed.
End Step.

(** *** The sort *)

Section Sort.
Context {A : Type} (less : A → A → bool).

Lemma insert_Permutation x l : GoSort.insert less x l ≡ₚ x :: l.
Proof.
  induction l as [|y r IH]; simpl; [done|].
  destruct (less y x); [|done].
  rewrite IH. apply Permutation_swap.
Qed.

Lemma Slice_Permutation l : GoSort.Slice less l ≡ₚ l.
Proof.
  induction l as [|x l IH]; simpl; [done|].
  rewrite insert_Permutation. by rewrite IH.
Qed.
End Sort.

Lemma sortEvents_Permutation es : sortEvents es ≡ₚ es.
Proof. apply Slice_Permutation. Qed.

Lemma sortEvents_length es : List.length (sortEvents es) = List.length es.
Proof. apply Permutation_length, sortEvents_Permutation. Qed.

Lemma filter_length_Permutation {A} (f : A → bool) (l l' : list A) :
  l ≡ₚ l' → List.length (List.filter f l) = List.length (List.filter f l').
Proof.
  induction 1 as [|x l l' _ IH|x y l|l l' l'' _ IH1 _ IH2]; simpl.
  - done.
  - destruct (f x); simpl; congruence.
  - destruct (f x), (f y); simpl; congruence.
  - congruence.
Qed.

Lemma otherEvents_sortEvents es : otherEvents (sortEvents es) = otherEvents es.
Proof.
  unfold otherEvents. f_equal.
  apply filter_length_Permutation, sortEvents_Permutation.
Qed.

Lemma otherEvents_cons e es :
  otherEvents (e :: es) = (if isPageview e then 0 else 1) + otherEvents es.
Proof.
  unfold otherEvents. simpl. destruct (isPageview e); simpl; lia.
Qed.

Lemma otherEvents_all_pageviews es :
  Forall (λ e, isPageview e = true) es → otherEvents es = 0.
Proof.
  induction 1 as [|e es He _ IH]; [done|].
  rewrite otherEvents_cons, He, IH. done.
Qed.

(** The events come out of the sort ordered by their timestamps. *)
Lemma insert_Sorted (x : Event) l :
  Sorted (λ a b, AsTime (Timestamp_ a) ≤ AsTime (Timestamp_ b)) l →
  Sorted (λ a b, AsTime (Timestamp_ a) ≤ AsTime (Timestamp_ b))
         (GoSort.insert eventBefore x l).
Proof.
  induction 1 as [|y r Hr IH Hy]; simpl.
  - by repeat constructor.
  - unfold eventBefore at 1. destruct (Z.ltb_spec (AsTime (Timestamp_ y)) (AsTime (Timestamp_ x))).
    + constructor; [done|].
      destruct r as [|z r]; simpl in *.
      * constructor. lia.
      * unfold eventBefore at 1.
        destruct (Z.ltb_spec (AsTime (Timestamp_ z)) (AsTime (Timestamp_ x)));
          constructor; [by inversion Hy | lia].
    + constructor; [by constructor | by constructor].
Qed.

Lemma sortEvents_Sorted es :
  Sorted (λ a b, AsTime (Timestamp_ a) ≤ AsTime (Timestamp_ b)) (sortEvents es).
Proof.
  induction es as [|x es IH]; [constructor|].
  apply insert_Sorted, IH.
Qed.

(** *** The loop over the events *)

Lemma processEvents_cons c e es :
  processEvents c (e :: es) = (c' ← processEvent c e; processEvents c' es).
Proof. done. Qed.

Lemma processEvents_cons_Ok c e es c2 :
  processEvents c (e :: es) = Ok c2 →
  ∃ c1, processEvent c e = Ok c1 ∧ processEvents c1 es = Ok c2.
Proof.
  rewrite processEvents_cons. destruct (processEvent c e) as [c1| |]; simpl; try done.
  intros H. by exists c1.
Qed.

Lemma processEvents_app_Ok c es1 es2 c2 :
  processEvents c (es1 ++ es2) = Ok c2 →
  ∃ c1, processEvents c es1 = Ok c1 ∧ processEvents c1 es2 = Ok c2.
Proof.
  revert c. induction es1 as [|e es1 IH]; intros c; simpl.
  - intros H. by exists c.
  - destruct (processEvent c e) as [c1| |]; simpl; try done. apply IH.
Qed.

(** Every event adds one to the page, device, OS and browser maps, and the
    page views are the events of category [pageview]. *)
Lemma processEvents_sums c es c' :
  processEvents c es = Ok c' →
  mapSum (pages c') = mapSum (pages c) + Z.of_nat (List.length es)
  ∧ mapSum (devices c') = mapSum (devices c) + Z.of_nat (List.length es)
  ∧ mapSum (oss c') = mapSum (oss c) + Z.of_nat (List.length es)
  ∧ mapSum (browsers c') = mapSum (browsers c) + Z.of_nat (List.length es)
  ∧ pageViewsCount c' + otherEvents es
    = pageViewsCount c + Z.of_nat (List.length es).
Proof.
  revert c. induction es as [|e es IH]; intros c H.
  - injection H as <-. unfold otherEvents. simpl. lia.
  - apply processEvents_cons_Ok in H as (c1 & H1 & H2).
    apply IH in H2 as (Hp & Hd & Ho & Hb & Hv).
    apply processEvent_Ok in H1 as (host & path & vm & srcs & _ & _ & _ & ->).
    simpl in *. rewrite !mapSum_incr in *. rewrite otherEvents_cons.
    destruct (isPageview e); lia.
Qed.

(** *** Time *)

Lemma VisitDuration_minutes : VisitDuration = 30 * 60 * 1000000000.
Proof. reflexivity. Qed.

(** Saturation does not change the comparison with the session timeout. *)
Lemma Sub_exceeds t u :
  (VisitDuration <? Sub t u) = true ↔ VisitDuration < t - u.
Proof.
  unfold Sub, minDuration, maxDuration. rewrite VisitDuration_minutes.
  rewrite Z.ltb_lt.
  destruct (Z.ltb_spec (t - u) (- 2 ^ 63)); [lia|].
  destruct (Z.ltb_spec (2 ^ 63 - 1) (t - u)); lia.
Qed.

Lemma Sub_within t u :
  (VisitDuration <? Sub t u) = false ↔ t - u ≤ VisitDuration.
Proof.
  rewrite <- Z.nlt_ge, <- Sub_exceeds. by destruct (VisitDuration <? Sub t u).
Qed.

(** *** Recording a visit *)

Section RecordVisit.
Implicit Types (vm : gmap string (list Visit)) (v : list Visit).

Lemma set_last v lv x :
  <[(List.length (v ++ [lv]) - 1)%nat := x]> (v ++ [lv]) = v ++ [x].
Proof.
  rewrite length_app. simpl.
  replace (List.length v + 1 - 1)%nat with (List.length v + 0)%nat by lia.
  by rewrite insert_app_r.
Qed.

Lemma recordVisit_new vm fp page ts :
  vm !! fp = None →
  recordVisit vm fp page ts = Ok (<[fp := [newVisit page ts]]> vm).
Proof. intros H. unfold recordVisit. by rewrite H. Qed.

Lemma recordVisit_split vm fp page ts v lv :
  vm !! fp = Some (v ++ [lv]) →
  VisitDuration < ts - LastPageViewTimestamp lv →
  recordVisit vm fp page ts = Ok (<[fp := v ++ [lv; newVisit page ts]]> vm).
Proof.
  intros H Hgap. unfold recordVisit. rewrite H, last_snoc.
  apply Sub_exceeds in Hgap. rewrite Hgap.
  by rewrite <- app_assoc.
Qed.

Lemma recordVisit_extend vm fp page ts v lv :
  vm !! fp = Some (v ++ [lv]) →
  ts - LastPageViewTimestamp lv ≤ VisitDuration →
  recordVisit vm fp page ts = Ok (<[fp := v ++ [extendVisit lv page ts]]> vm).
Proof.
  intros H Hgap. unfold recordVisit. rewrite H, last_snoc.
  apply Sub_within in Hgap. rewrite Hgap.
  by rewrite set_last.
Qed.

(** Whatever the case, the fingerprint ends with a visit last seen at the
    event, and no other fingerprint is touched. *)
Lemma recordVisit_Ok vm fp page ts vm' :
  recordVisit vm fp page ts = Ok vm' →
  ∃ v lv, vm' = <[fp := v ++ [lv]]> vm
          ∧ LastPageViewTimestamp lv = ts ∧ ExitPage lv = page
          ∧ (List.length (v ++ [lv]) ≤ S (List.length (default [] (vm !! fp))))%nat.
Proof.
  unfold recordVisit. destruct (vm !! fp) as [v|] eqn:Hv.
  - destruct (last v) as [lv|] eqn:Hlast; [|done].
    apply last_Some in Hlast as [v0 ->].
    destruct (VisitDuration <? _); intros [= <-].
    + exists (v0 ++ [lv]), (newVisit page ts). simpl.
      rewrite !length_app. simpl. repeat split; lia.
    + exists v0, (extendVisit lv page ts). rewrite set_last. simpl.
      rewrite !length_app. simpl. repeat split; lia.
  - intros [= <-]. exists [], (newVisit page ts). simpl. repeat split; lia.
Qed.

Lemma visitsOk_empty : visitsOk ∅.
Proof. intros fp v. by rewrite lookup_empty. Qed.

Lemma recordVisit_visitsOk vm fp page ts vm' :
  visitsOk vm → recordVisit vm fp page ts = Ok vm' → visitsOk vm'.
Proof.
  intros Hok H. apply recordVisit_Ok in H as (v & lv & -> & _).
  intros fp' v'. destruct (decide (fp = fp')) as [<-|Hne].
  - rewrite lookup_insert_eq. intros [= <-]. by destruct v.
  - rewrite lookup_insert_ne by done. apply Hok.
Qed.

Lemma recordVisit_no_panic vm fp page ts :
  visitsOk vm → recordVisit vm fp page ts ≠ Panic.
Proof.
  intros Hok. unfold recordVisit. destruct (vm !! fp) as [v|] eqn:Hv; [|done].
  destruct (last v) eqn:Hlast.
  - by destruct (VisitDuration <? _).
  - apply last_None in Hlast. by apply Hok in Hv.
Qed.

Lemma recordVisit_is_Ok vm fp page ts :
  visitsOk vm → is_Ok (recordVisit vm fp page ts).
Proof.
  intros Hok. pose proof (recordVisit_no_panic vm fp page ts Hok) as Hp.
  unfold recordVisit in *. destruct (vm !! fp) as [v|]; [|by eexists].
  destruct (last v); [|done]. destruct (VisitDuration <? _); by eexists.
Qed.

Lemma sessionCount_empty : sessionCount ∅ = 0.
Proof. unfold sessionCount. by rewrite fmap_empty, mapSum_empty. Qed.

Lemma sessionCount_insert vm fp v :
  sessionCount (<[fp := v]> vm)
  = sessionCount vm - Z.of_nat (List.length (default [] (vm !! fp)))
    + Z.of_nat (List.length v).
Proof.
  unfold sessionCount. rewrite fmap_insert, mapSum_insert.
  unfold countOf. rewrite lookup_fmap. by destruct (vm !! fp).
Qed.

Lemma bounceCount_insert vm fp v :
  bounceCount (<[fp := v]> vm)
  = bounceCount vm
    - Z.of_nat (List.length (List.filter isBounce (default [] (vm !! fp))))
    + Z.of_nat (List.length (List.filter isBounce v)).
Proof.
  unfold bounceCount. rewrite fmap_insert, mapSum_insert.
  unfold countOf. rewrite lookup_fmap. by destruct (vm !! fp).
Qed.

(** An event opens at most one session. *)
Lemma recordVisit_sessionCount vm fp page ts vm' :
  recordVisit vm fp page ts = Ok vm' →
  sessionCount vm' ≤ sessionCount vm + 1.
Proof.
  intros H. apply recordVisit_Ok in H as (v & lv & -> & _ & _ & Hlen).
  rewrite sessionCount_insert. lia.
Qed.
End RecordVisit.

(** *** The pass over the visits *)

Lemma foldl_countVisit now v t :
  let t' := foldl (countVisit now) t v in
  totalVisits t' = totalVisits t + Z.of_nat (List.length v)
  ∧ onePageVisits t'
    = onePageVisits t + Z.of_nat (List.length (List.filter isBounce v))
  ∧ mapSum (entryPages t') = mapSum (entryPages t) + Z.of_nat (List.length v)
  ∧ mapSum (exitPages t') = mapSum (exitPages t) + Z.of_nat (List.length v).
Proof.
  revert t. induction v as [|x v IH]; intros t; simpl.
  - lia.
  - destruct (IH (countVisit now t x)) as (H1 & H2 & H3 & H4).
    rewrite H1, H2, H3, H4. simpl. rewrite !mapSum_incr.
    unfold isBounce at 2. destruct (PagesVisited x =? 1); simpl; lia.
Qed.

Lemma filter_length_le {A} (f : A → bool) (l : list A) :
  (List.length (List.filter f l) ≤ List.length l)%nat.
Proof. induction l as [|x l IH]; simpl; [lia|]. destruct (f x); simpl; lia. Qed.

(** The totals of the pass count the sessions of the visits map. *)
Lemma countVisits_totals now vm :
  let t := countVisits now vm in
  totalVisits t = sessionCount vm
  ∧ onePageVisits t = bounceCount vm
  ∧ mapSum (entryPages t) = sessionCount vm
  ∧ mapSum (exitPages t) = sessionCount vm
  ∧ 0 ≤ onePageVisits t ≤ totalVisits t.
Proof.
  unfold countVisits.
  apply (map_fold_weak_ind (λ t m,
    totalVisits t = sessionCount m
    ∧ onePageVisits t = bounceCount m
    ∧ mapSum (entryPages t) = sessionCount m
    ∧ mapSum (exitPages t) = sessionCount m
    ∧ 0 ≤ onePageVisits t ≤ totalVisits t)).
  - unfold bounceCount. simpl.
    rewrite sessionCount_empty, fmap_empty, !mapSum_empty. lia.
  - intros fp v m t Hfp (H1 & H2 & H3 & H4 & H5).
    destruct (foldl_countVisit now v t) as (G1 & G2 & G3 & G4).
    rewrite G1, G2, G3, G4, sessionCount_insert, bounceCount_insert, Hfp.
    pose proof (filter_length_le isBounce v). simpl. lia.
Qed.

(** *** The order of the range over the visits map *)

Lemma incr_comm a b (m : gmap string Z) : incr a (incr b m) = incr b (incr a m).
Proof.
  destruct (decide (a = b)) as [->|Hab]; [done|].
  unfold incr. rewrite !lookup_insert_ne by done.
  by apply insert_insert_ne.
Qed.

Lemma countVisit_comm now t a b :
  countVisit now (countVisit now t a) b = countVisit now (countVisit now t b) a.
Proof.
  unfold countVisit. simpl.
  f_equal; try apply incr_comm; repeat case_match; lia.
Qed.

Lemma foldl_countVisit_Permutation now l1 l2 t :
  l1 ≡ₚ l2 → foldl (countVisit now) t l1 = foldl (countVisit now) t l2.
Proof.
  intros H. revert t.
  induction H as [|x l l' _ IH|x y l|l l' l'' _ IH1 _ IH2]; intros t; simpl.
  - done.
  - apply IH.
  - by rewrite countVisit_comm.
  - by rewrite IH1, IH2.
Qed.

Lemma foldl_visits_concat now (entries : list (string * list Visit)) t :
  foldl (λ t kv, foldl (countVisit now) t kv.2) t entries
  = foldl (countVisit now) t (concat entries.*2).
Proof.
  revert t. induction entries as [|[k v] entries IH]; intros t; simpl; [done|].
  by rewrite foldl_app, IH.
Qed.

Lemma map_fold_visits now (l : list (string * list Visit)) t :
  foldr (uncurry (λ (_ : string) visits t, foldl (countVisit now) t visits)) t l
  = foldl (λ t kv, foldl (countVisit now) t kv.2) t (reverse l).
Proof.
  induction l as [|[k v] l IH]; [done|].
  simpl. by rewrite reverse_cons, foldl_snoc, <- IH.
Qed.

(** Go ranges over the visits map in an order of its own; whichever it is,
    the two nested loops leave the totals of [countVisits]. *)
Lemma countVisits_any_order now vm (order : list (string * list Visit)) :
  order ≡ₚ map_to_list vm →
  foldl (λ t kv, foldl (countVisit now) t kv.2) initVisitTotals order
  = countVisits now vm.
Proof.
  intros Horder. unfold countVisits. rewrite map_fold_foldr.
  rewrite map_fold_visits.
  rewrite !foldl_visits_concat.
  apply foldl_countVisit_Permutation.
  by rewrite Horder, reverse_Permutation.
Qed.

(** *** Invariants of the loop *)

Lemma extractDomainAndPath_no_panic s : extractDomainAndPath s ≠ Panic.
Proof.
  unfold extractDomainAndPath. by destruct (FindStringSubmatch s) as [[??]|].
Qed.

Lemma countSource_no_panic srcs host referrer :
  countSource srcs host referrer ≠ Panic.
Proof.
  unfold countSource. destruct (String.eqb referrer ""); [done|].
  pose proof (extractDomainAndPath_no_panic referrer).
  destruct (extractDomainAndPath referrer) as [[rh rp]| |]; simpl; try done.
  by destruct (negb _).
Qed.

Lemma processEvent_no_panic c e :
  visitsOk (visitsMap c) → processEvent c e ≠ Panic.
Proof.
  intros Hok. unfold processEvent.
  pose proof (extractDomainAndPath_no_panic (URL e)).
  destruct (extractDomainAndPath (URL e)) as [[host path]| |]; simpl; try done.
  pose proof (recordVisit_no_panic (visitsMap c) (HashedVisit e)
                (removeHtmlSuffix path) (AsTime (Timestamp_ e)) Hok).
  destruct (recordVisit _ _ _ _) as [vm| |]; simpl; try done.
  pose proof (countSource_no_panic (sources c) host (Referrer e)).
  by destruct (countSource _ _ _) as [srcs| |].
Qed.

Lemma processEvent_visits c e c' :
  processEvent c e = Ok c' →
  (visitsOk (visitsMap c) → visitsOk (visitsMap c'))
  ∧ sessionCount (visitsMap c') ≤ sessionCount (visitsMap c) + 1.
Proof.
  intros H. apply processEvent_Ok in H as (host & path & vm & srcs & _ & Hvm & _ & ->).
  simpl. split.
  - intros Hok. by eapply recordVisit_visitsOk.
  - by eapply recordVisit_sessionCount.
Qed.

Lemma processEvents_visits c es c' :
  processEvents c es = Ok c' →
  (visitsOk (visitsMap c) → visitsOk (visitsMap c'))
  ∧ sessionCount (visitsMap c')
    ≤ sessionCount (visitsMap c) + Z.of_nat (List.length es).
Proof.
  revert c. induction es as [|e es IH]; intros c H.
  - injection H as <-. simpl. split; [done|lia].
  - apply processEvents_cons_Ok in H as (c1 & H1 & H2).
    apply processEvent_visits in H1 as [Hok1 Hn1].
    apply IH in H2 as [Hok2 Hn2]. split; [tauto|]. simpl List.length. lia.
Qed.

Lemma processEvents_no_panic c es :
  visitsOk (visitsMap c) → processEvents c es ≠ Panic.
Proof.
  revert c. induction es as [|e es IH]; intros c Hok; [done|].
  rewrite processEvents_cons.
  pose proof (processEvent_no_panic c e Hok).
  destruct (processEvent c e) as [c1| |] eqn:H1; simpl; try done.
  apply IH. by apply (processEvent_visits _ _ _ H1).
Qed.

(** The aggregation never panics: it returns a snapshot or an error. *)
Lemma aggregate_no_panic now es : aggregate now es ≠ Panic.
Proof.
  unfold aggregate.
  pose proof (processEvents_no_panic initCounters (sortEvents es) visitsOk_empty).
  by destruct (processEvents _ _).
Qed.

Lemma aggregate_Ok now es st :
  aggregate now es = Ok st →
  ∃ c, processEvents initCounters (sortEvents es) = Ok c
       ∧ st = makeStats c (countVisits now (visitsMap c)).
Proof.
  unfold aggregate. destruct (processEvents _ _) as [c| |]; simpl; try done.
  intros [= <-]. by exists c.
Qed.

Lemma GetAnalyticsStats_Ok now d domain st :
  GetAnalyticsStats now (Some d) domain = Ok st →
  ∃ events, List d domain = Ok events ∧ aggregate now (GetEvents events) = Ok st.
Proof.
  simpl. destruct (List d domain) as [events| |]; simpl; try done.
  intros H. by exists events.
Qed.

(** *** The counters stay small *)

(** The embedding keeps the counters of the code in [Z].  They never leave
    the range from 0 to the number of events, which in Go is the length of
    a slice and so below 2^63: no counter of the code can wrap around. *)

Lemma mapWithin_empty n : 0 ≤ n → mapWithin n ∅.
Proof. intros Hn k. unfold countOf. rewrite lookup_empty. simpl. lia. Qed.

Lemma mapWithin_incr n m k : mapWithin n m → mapWithin (n + 1) (incr k m).
Proof.
  intros Hm j. rewrite countOf_incr. specialize (Hm j). case_decide; lia.
Qed.

Lemma mapWithin_mono n n' m : n ≤ n' → mapWithin n m → mapWithin n' m.
Proof. intros Hn Hm j. specialize (Hm j). lia. Qed.

Lemma recordVisit_elems vm fp page ts vm' fp' v' x :
  recordVisit vm fp page ts = Ok vm' → vm' !! fp' = Some v' → x ∈ v' →
  (∃ v, vm !! fp' = Some v ∧ x ∈ v)
  ∨ x = newVisit page ts
  ∨ (∃ v lv, vm !! fp = Some v ∧ lv ∈ v ∧ x = extendVisit lv page ts).
Proof.
  unfold recordVisit. destruct (vm !! fp) as [v|] eqn:Hv.
  - destruct (last v) as [lv|] eqn:Hlast; [|done].
    apply last_Some in Hlast as [v0 ->].
    destruct (VisitDuration <? _); intros [= <-].
    + destruct (decide (fp = fp')) as [<-|Hne].
      * rewrite lookup_insert_eq. intros [= <-] [Hx|Hx]%elem_of_app.
        -- left. eauto.
        -- apply list_elem_of_singleton in Hx. eauto.
      * rewrite lookup_insert_ne by done. eauto.
    + rewrite set_last. destruct (decide (fp = fp')) as [<-|Hne].
      * rewrite lookup_insert_eq. intros [= <-] [Hx|Hx]%elem_of_app.
        -- left. exists (v0 ++ [lv]). split; [done|]. apply elem_of_app. eauto.
        -- apply list_elem_of_singleton in Hx. right. right.
           exists (v0 ++ [lv]), lv. split; [done|]. split; [|done].
           apply elem_of_app. right. by apply list_elem_of_singleton.
      * rewrite lookup_insert_ne by done. eauto.
  - intros [= <-]. destruct (decide (fp = fp')) as [<-|Hne].
    + rewrite lookup_insert_eq. intros [= <-] Hx.
      apply list_elem_of_singleton in Hx. eauto.
    + rewrite lookup_insert_ne by done. eauto.
Qed.

Lemma processEvent_within n c e c' :
  countersWithin n c → processEvent c e = Ok c' → countersWithin (n + 1) c'.
Proof.
  intros (Hpv & Hp & Hs & Hd & Ho & Hb & Hv) H.
  apply processEvent_Ok in H as (host & path & vm & srcs & _ & Hvm & Hsrc & ->).
  unfold countersWithin. simpl. split_and!.
  - destruct (isPageview e); lia.
  - destruct (isPageview e); lia.
  - apply mapWithin_incr, Hp.
  - unfold countSource in Hsrc.
    destruct (String.eqb (Referrer e) "").
    + injection Hsrc as <-. by apply mapWithin_incr.
    + destruct (extractDomainAndPath (Referrer e)) as [[rh rp]| |];
        simpl in Hsrc; try done.
      destruct (negb _); injection Hsrc as <-.
      * by apply mapWithin_incr.
      * eapply mapWithin_mono; [|done]. lia.
  - apply mapWithin_incr, Hd.
  - apply mapWithin_incr, Ho.
  - apply mapWithin_incr, Hb.
  - intros fp v x Hfp Hx.
    destruct (recordVisit_elems _ _ _ _ _ _ _ _ Hvm Hfp Hx)
      as [(v0 & Hv0 & Hx0)|[->|(v0 & lv & Hv0 & Hlv & ->)]]; simpl.
    + specialize (Hv _ _ _ Hv0 Hx0). lia.
    + lia.
    + specialize (Hv _ _ _ Hv0 Hlv). lia.
Qed.

Lemma countersWithin_init : countersWithin 0 initCounters.
Proof.
  unfold countersWithin. simpl.
  split_and!; try lia; try by apply mapWithin_empty.
  intros fp v x Hfp. by rewrite lookup_empty in Hfp.
Qed.

Lemma processEvents_within n c es c' :
  countersWithin n c → processEvents c es = Ok c' →
  countersWithin (n + Z.of_nat (List.length es)) c'.
Proof.
  revert n c. induction es as [|e es IH]; intros n c Hc H.
  - injection H as <-. simpl. by rewrite Z.add_0_r.
  - apply processEvents_cons_Ok in H as (c1 & H1 & H2).
    pose proof (processEvent_within _ _ _ _ Hc H1) as Hc1.
    pose proof (IH _ _ Hc1 H2) as Hc'.
    simpl List.length. by replace (n + Z.of_nat (S (List.length es)))
      with (n + 1 + Z.of_nat (List.length es)) by lia.
Qed.

Lemma foldl_countVisit_within now v t n :
  totalsWithin n t →
  totalsWithin (n + Z.of_nat (List.length v)) (foldl (countVisit now) t v).
Proof.
  revert t n. induction v as [|x v IH]; intros t n Ht.
  - simpl. by rewrite Z.add_0_r.
  - simpl foldl. replace (n + Z.of_nat (List.length (x :: v)))
      with (n + 1 + Z.of_nat (List.length v)) by (simpl List.length; lia).
    apply IH. destruct Ht as (He & Hx & Ht & Ho & Hc).
    unfold totalsWithin, countVisit. simpl.
    split_and!; try (by apply mapWithin_incr); try lia.
    all: repeat case_match; lia.
Qed.

Lemma sessionCount_nonneg vm : 0 ≤ sessionCount vm.
Proof.
  induction vm as [|fp v vm Hfp IH] using map_ind.
  - by rewrite sessionCount_empty.
  - rewrite sessionCount_insert, Hfp. simpl. lia.
Qed.

Lemma countVisits_within now vm :
  totalsWithin (sessionCount vm) (countVisits now vm).
Proof.
  unfold countVisits.
  apply (map_fold_weak_ind (λ t m, totalsWithin (sessionCount m) t)).
  - rewrite sessionCount_empty. unfold totalsWithin. simpl.
    split_and!; try lia; by apply mapWithin_empty.
  - intros fp v m t Hfp Ht. rewrite sessionCount_insert, Hfp. simpl.
    rewrite Z.sub_0_r. by apply foldl_countVisit_within.
Qed.

(** Every integer of a snapshot's making lies between 0 and the number of
    events. *)
Lemma aggregate_within now es c :
  processEvents initCounters (sortEvents es) = Ok c →
  let n := Z.of_nat (List.length es) in
  countersWithin n c ∧ totalsWithin n (countVisits now (visitsMap c)).
Proof.
  intros Hc n. subst n.
  pose proof (processEvents_within 0 _ _ _ countersWithin_init Hc) as Hw.
  rewrite sortEvents_length, Z.add_0_l in Hw. split; [done|].
  pose proof (processEvents_visits _ _ _ Hc) as [_ Hn].
  simpl in Hn. rewrite sessionCount_empty, sortEvents_length in Hn.
  pose proof (countVisits_within now (visitsMap c)) as (He & Hx & Ht & Ho & Hcv).
  pose proof (sessionCount_nonneg (visitsMap c)).
  unfold totalsWithin. split_and!; try lia.
  all: eapply mapWithin_mono; [|done]; lia.
Qed.

(** *** Sums of the categorical maps *)

Lemma aggregate_sums now es st :
  aggregate now es = Ok st →
  rateSum (PagesRate st) = Z.of_nat (List.length es)
  ∧ rateSum (DevicesRate st) = Z.of_nat (List.length es)
  ∧ rateSum (OSsRate st) = Z.of_nat (List.length es)
  ∧ rateSum (BrowsersRate st) = Z.of_nat (List.length es)
  ∧ TotalPageViews st + otherEvents es = Z.of_nat (List.length es).
Proof.
  intros H. apply aggregate_Ok in H as (c & Hc & ->).
  apply processEvents_sums in Hc as (Hp & Hd & Ho & Hb & Hv).
  rewrite otherEvents_sortEvents, sortEvents_length in *.
  simpl in *. rewrite mapSum_empty in *. lia.
Qed.

(** C1, as the code has it.  When the aggregation succeeds, the values of the
    page map, of the device map, of the OS map and of the browser map each
    sum to the total page-view count plus the number of returned events
    whose category is not "pageview"; they sum to the total page-view count
    itself when every returned event is a page view. *)
Theorem per_event_maps_sum now d domain events st :
  List d domain = Ok events →
  GetAnalyticsStats now (Some d) domain = Ok st →
  let others := otherEvents (GetEvents events) in
  rateSum (PagesRate st) = TotalPageViews st + others
  ∧ rateSum (DevicesRate st) = TotalPageViews st + others
  ∧ rateSum (OSsRate st) = TotalPageViews st + others
  ∧ rateSum (BrowsersRate st) = TotalPageViews st + others
  ∧ (Forall (λ e, Type_ e = "pageview") (GetEvents events) → others = 0).
Proof.
  intros Hl H. apply GetAnalyticsStats_Ok in H as (events' & Hl' & H).
  rewrite Hl in Hl'. injection Hl' as <-.
  apply aggregate_sums in H as (Hp & Hd & Ho & Hb & Hv).
  simpl. repeat split; try lia.
  intros Hall. apply otherEvents_all_pageviews.
  eapply Forall_impl; [exact Hall|]. intros e He. unfold isPageview.
  rewrite He. reflexivity.
Qed.

Lemma per_event_maps_sum_witness :
  ∃ st, GetAnalyticsStats 0 (Samples.store Samples.viewAndClick) "web" = Ok st
        ∧ rateSum (PagesRate st) = TotalPageViews st + 1
        ∧ rateSum (DevicesRate st) = TotalPageViews st + 1.
Proof.
  eexists. split; [vm_compute; reflexivity|].
  pose proof (per_event_maps_sum 0
    (mkDatabase (λ _, Ok (Some (mkEvents Samples.viewAndClick))) (λ _, None))
    "web" (Some (mkEvents Samples.viewAndClick)) _ eq_refl
    ltac:(vm_compute; reflexivity)) as (Hp & Hd & _).
  split; [exact Hp | exact Hd].
Defined.

(** C1 as stated fails: one stored event of category "click" leaves each of
    the four maps with sum 1 while the total page-view count is 0. *)
Lemma per_event_maps_sum_counterexample :
  ∃ st, GetAnalyticsStats 0 (Samples.store Samples.oneClick) "web" = Ok st
        ∧ TotalPageViews st = 0
        ∧ rateSum (PagesRate st) = 1
        ∧ rateSum (DevicesRate st) = 1
        ∧ rateSum (OSsRate st) = 1
        ∧ rateSum (BrowsersRate st) = 1.
Proof. eexists. split; [vm_compute; reflexivity|]. by vm_compute. Qed.

(** C10.  Whatever its category, an event that is processed adds exactly one
    to one key of the page map, to its device bucket, to its OS bucket and
    to its browser bucket; a nil device, an unset oneof, an empty OS and an
    empty browser fall into "Unknown"; and so the values of each of the four
    maps sum to the number of stored events. *)
Theorem every_event_counts now d domain events st :
  List d domain = Ok events →
  GetAnalyticsStats now (Some d) domain = Ok st →
  let n := Z.of_nat (List.length (GetEvents events)) in
  (rateSum (PagesRate st) = n ∧ rateSum (DevicesRate st) = n
   ∧ rateSum (OSsRate st) = n ∧ rateSum (BrowsersRate st) = n)
  ∧ (∀ c e c', processEvent c e = Ok c' →
       (∃ page, pages c' = incr page (pages c))
       ∧ devices c' = incr (deviceBucket (Device_ e)) (devices c)
       ∧ oss c' = incr (orUnknown (OS e)) (oss c)
       ∧ browsers c' = incr (orUnknown (Browser e)) (browsers c))
  ∧ (∀ m k j, countOf (incr k m) j = countOf m j + (if decide (k = j) then 1 else 0))
  ∧ deviceBucket None = "Unknown"
  ∧ deviceBucket (Some (mkDevice None)) = "Unknown"
  ∧ orUnknown "" = "Unknown".
Proof.
  intros Hl H. apply GetAnalyticsStats_Ok in H as (events' & Hl' & H).
  rewrite Hl in Hl'. injection Hl' as <-.
  apply aggregate_sums in H as (Hp & Hd & Ho & Hb & _).
  repeat split; try done.
  - apply processEvent_Ok in H as (host & path & vm & srcs & _ & _ & _ & ->).
    by eexists.
  - by apply processEvent_Ok in H as (host & path & vm & srcs & _ & _ & _ & ->).
  - by apply processEvent_Ok in H as (host & path & vm & srcs & _ & _ & _ & ->).
  - by apply processEvent_Ok in H as (host & path & vm & srcs & _ & _ & _ & ->).
  - apply countOf_incr.
Qed.

Lemma every_event_counts_witness :
  ∃ st, GetAnalyticsStats 0 (Samples.store Samples.viewAndClick) "web" = Ok st
        ∧ rateSum (PagesRate st) = 2 ∧ rateSum (DevicesRate st) = 2
        ∧ rateSum (OSsRate st) = 2 ∧ rateSum (BrowsersRate st) = 2.
Proof.
  eexists. split; [vm_compute; reflexivity|].
  exact (proj1 (every_event_counts 0
    (mkDatabase (λ _, Ok (Some (mkEvents Samples.viewAndClick))) (λ _, None))
    "web" (Some (mkEvents Samples.viewAndClick)) _ eq_refl
    ltac:(vm_compute; reflexivity))).
Defined.

(** *** Sessions and the bounce rate *)

Lemma reconstructSessions_Ok es c :
  processEvents initCounters (sortEvents es) = Ok c →
  reconstructSessions es = Ok (visitsMap c).
Proof. intros H. unfold reconstructSessions. by rewrite H. Qed.

(** C9.  The values of the entry-page map and those of the exit-page map
    both sum to the total-visits count, which is the number of sessions the
    loop has reconstructed over all fingerprints. *)
Theorem entry_exit_sums now d domain events st :
  List d domain = Ok events →
  GetAnalyticsStats now (Some d) domain = Ok st →
  ∃ vm, reconstructSessions (GetEvents events) = Ok vm
        ∧ rateSum (EntryPagesRate st) = rateSum (ExitPagesRate st)
        ∧ rateSum (ExitPagesRate st) = TotalVisits st
        ∧ TotalVisits st = sessionCount vm.
Proof.
  intros Hl H. apply GetAnalyticsStats_Ok in H as (events' & Hl' & H).
  rewrite Hl in Hl'. injection Hl' as <-.
  apply aggregate_Ok in H as (c & Hc & ->).
  exists (visitsMap c). split; [by apply reconstructSessions_Ok|].
  destruct (countVisits_totals now (visitsMap c)) as (H1 & _ & H3 & H4 & _).
  simpl. rewrite H1, H3, H4. done.
Qed.

Lemma entry_exit_sums_witness :
  ∃ st vm, GetAnalyticsStats 0 (Samples.store Samples.threeViews) "web" = Ok st
        ∧ reconstructSessions Samples.threeViews = Ok vm
        ∧ rateSum (EntryPagesRate st) = rateSum (ExitPagesRate st)
        ∧ rateSum (ExitPagesRate st) = TotalVisits st
        ∧ TotalVisits st = sessionCount vm.
Proof.
  eexists.
  destruct (entry_exit_sums 0
    (mkDatabase (λ _, Ok (Some (mkEvents Samples.threeViews))) (λ _, None))
    "web" (Some (mkEvents Samples.threeViews)) _ eq_refl
    ltac:(vm_compute; reflexivity)) as (vm & H).
  exists vm. split; [vm_compute; reflexivity | exact H].
Defined.

Section Division.
Open Scope Q_scope.

Lemma fdiv_positive (a b : Z) :
  (0 ≤ a)%Z → (0 < b)%Z →
  ∃ q, fdiv (ofInt a) (ofInt b) = Finite q ∧ 0 <= q ∧ ((a ≤ b)%Z → q <= 1).
Proof.
  intros Ha Hb. unfold fdiv, ofInt.
  assert (Hb' : inject_Z 0 < inject_Z b) by (by rewrite <- Zlt_Qlt).
  assert (Ha' : inject_Z 0 <= inject_Z a) by (by rewrite <- Zle_Qle).
  destruct (Qeq_bool (inject_Z b) 0) eqn:Hz.
  { apply Qeq_bool_eq in Hz. rewrite Hz in Hb'. by apply Qlt_irrefl in Hb'. }
  eexists. split; [reflexivity|]. rewrite Qred_correct. split.
  - apply Qle_shift_div_l; [done|]. rewrite Qmult_0_l.
    exact Ha'.
  - intros Hab. apply Qle_shift_div_r; [done|]. rewrite Qmult_1_l.
    by rewrite <- Zle_Qle.
Qed.

Lemma fdiv_by_zero (a : Z) :
  (0 ≤ a)%Z →
  fdiv (ofInt a) (ofInt 0)
  = if decide (a = 0%Z) then NaN else PosInf.
Proof.
  intros Ha. unfold fdiv, ofInt. simpl.
  case_decide as H0; [by subst|].
  by destruct a as [|p|p].
Qed.
End Division.

Arguments fdiv : simpl never.
Arguments ofInt : simpl never.

Lemma otherEvents_le es : 0 ≤ otherEvents es ≤ Z.of_nat (List.length es).
Proof.
  unfold otherEvents.
  pose proof (filter_length_le (λ e, negb (isPageview e)) es). lia.
Qed.

(** C2, as the code has it.  The bounce rate is the quotient of the number of
    one-page sessions by the total page-view count.  With a positive page-view
    count it is finite and not negative, and it lies in [0,1] when every
    returned event is a page view.  With a page-view count of zero the
    quotient is NaN when there is no one-page session and +Inf otherwise, and
    it is returned in the snapshot as it is. *)
Theorem bounce_rate_value now d domain events st :
  List d domain = Ok events →
  GetAnalyticsStats now (Some d) domain = Ok st →
  ∃ vm, reconstructSessions (GetEvents events) = Ok vm
    ∧ BounceRate st = fdiv (ofInt (bounceCount vm)) (ofInt (TotalPageViews st))
    ∧ (0 < TotalPageViews st → ∃ q, BounceRate st = Finite q ∧ (0 <= q)%Q)
    ∧ (0 < TotalPageViews st →
       Forall (λ e, Type_ e = "pageview") (GetEvents events) →
       inUnitInterval (BounceRate st))
    ∧ (TotalPageViews st = 0 →
       BounceRate st = if decide (bounceCount vm = 0) then NaN else PosInf).
Proof.
  intros Hl H. apply GetAnalyticsStats_Ok in H as (events' & Hl' & H).
  rewrite Hl in Hl'. injection Hl' as <-.
  pose proof (aggregate_sums _ _ _ H) as (_ & _ & _ & _ & Hpv).
  apply aggregate_Ok in H as (c & Hc & ->).
  exists (visitsMap c). split; [by apply reconstructSessions_Ok|].
  destruct (countVisits_totals now (visitsMap c)) as (H1 & H2 & _ & _ & H5).
  pose proof (processEvents_visits _ _ _ Hc) as [_ Hn].
  simpl in Hn. rewrite sessionCount_empty, sortEvents_length in Hn.
  simpl in *. rewrite H2 in *. repeat split.
  - intros Hpos.
    destruct (fdiv_positive (bounceCount (visitsMap c)) (pageViewsCount c))
      as (q & -> & Hq & _); [lia|lia|]. by exists q.
  - intros Hpos Hall.
    assert (otherEvents (GetEvents events) = 0) as H0.
    { apply otherEvents_all_pageviews. eapply Forall_impl; [exact Hall|].
      intros e He. unfold isPageview. by rewrite He. }
    destruct (fdiv_positive (bounceCount (visitsMap c)) (pageViewsCount c))
      as (q & -> & Hq & Hq1); [lia|lia|].
    simpl. split; [done|]. apply Hq1. lia.
  - intros ->. apply fdiv_by_zero. lia.
Qed.

Lemma bounce_rate_value_witness :
  ∃ st, GetAnalyticsStats 0 (Samples.store Samples.threeViews) "web" = Ok st
        ∧ inUnitInterval (BounceRate st).
Proof.
  eexists. split; [vm_compute; reflexivity|].
  destruct (bounce_rate_value 0
    (mkDatabase (λ _, Ok (Some (mkEvents Samples.threeViews))) (λ _, None))
    "web" (Some (mkEvents Samples.threeViews)) _ eq_refl
    ltac:(vm_compute; reflexivity)) as (vm & _ & _ & _ & Hunit & _).
  apply Hunit.
  - vm_compute. reflexivity.
  - repeat constructor.
Defined.

(** C2 as stated fails: with one page view of one visitor and one click of
    another, the page-view count is 1 and the bounce rate is 2. *)
Lemma bounce_rate_counterexample :
  ∃ st, GetAnalyticsStats 0 (Samples.store Samples.viewAndClick) "web" = Ok st
        ∧ 0 < TotalPageViews st
        ∧ BounceRate st = Finite 2
        ∧ ¬ inUnitInterval (BounceRate st).
Proof.
  eexists. split; [vm_compute; reflexivity|]. simpl.
  split; [done|]. split; [done|]. intros [_ H]. by vm_compute in H.
Qed.

(** *** The session window *)

Lemma processEvent_other c e c' fp :
  processEvent c e = Ok c' → HashedVisit e ≠ fp →
  visitsMap c' !! fp = visitsMap c !! fp.
Proof.
  intros H Hne.
  apply processEvent_Ok in H as (host & path & vm & srcs & _ & Hvm & _ & ->).
  apply recordVisit_Ok in Hvm as (v & lv & -> & _). simpl.
  by rewrite lookup_insert_ne.
Qed.

Lemma processEvents_other c es c' fp :
  processEvents c es = Ok c' → Forall (λ e, HashedVisit e ≠ fp) es →
  visitsMap c' !! fp = visitsMap c !! fp.
Proof.
  revert c. induction es as [|e es IH]; intros c H Hall.
  - by injection H as <-.
  - apply processEvents_cons_Ok in H as (c1 & H1 & H2).
    inversion Hall as [|?? He Hes]; subst.
    rewrite (IH _ H2 Hes). by eapply processEvent_other.
Qed.

(** C3.  Take two consecutive events [e1], [e2] of one fingerprint, the
    events [mid] of other fingerprints that the sorted sequence may hold
    between them, and the last session [last] of the fingerprint once [e1]
    is folded, which was last seen at [e1].  If [e2] comes at most thirty
    minutes after [e1], only that session changes: its exit page becomes the
    page of [e2], its page count grows by one, its last-seen time becomes
    the time of [e2].  If [e2] comes later than that, the sessions are left
    as they are and a new session is appended.  So the number of sessions of
    the fingerprint stays the same exactly when the gap is within the
    timeout. *)
Theorem session_window c e1 mid e2 c1 c2 :
  HashedVisit e2 = HashedVisit e1 →
  Forall (λ e, HashedVisit e ≠ HashedVisit e1) mid →
  processEvent c e1 = Ok c1 →
  processEvents c1 (mid ++ [e2]) = Ok c2 →
  let fp := HashedVisit e1 in
  let t1 := AsTime (Timestamp_ e1) in
  let t2 := AsTime (Timestamp_ e2) in
  ∃ earlier last host2 path2 sessions2,
    visitsMap c1 !! fp = Some (earlier ++ [last])
    ∧ LastPageViewTimestamp last = t1
    ∧ extractDomainAndPath (URL e2) = Ok (host2, path2)
    ∧ visitsMap c2 !! fp = Some sessions2
    ∧ (t2 - t1 ≤ VisitDuration →
       sessions2 = earlier ++ [extendVisit last (removeHtmlSuffix path2) t2])
    ∧ (VisitDuration < t2 - t1 →
       sessions2 = earlier ++ [last; newVisit (removeHtmlSuffix path2) t2])
    ∧ (List.length sessions2 = List.length (earlier ++ [last])
       ↔ t2 - t1 ≤ VisitDuration)
    ∧ VisitDuration = 30 * 60 * 1000000000
    ∧ (∀ page t, extendVisit last page t
                 = mkVisit (EntryPage last) page (PagesVisited last + 1) t)
    ∧ (∀ page t, newVisit page t = mkVisit page page 1 t).
Proof.
  intros Hfp Hmid H1 H2 fp t1 t2.
  apply processEvent_Ok in H1 as (host1 & path1 & vm1 & srcs1 & _ & Hvm1 & _ & ->).
  apply recordVisit_Ok in Hvm1 as (earlier & last & -> & Hlast & _). simpl.
  apply processEvents_app_Ok in H2 as (cm & Hm & H2).
  pose proof (processEvents_other _ _ _ fp Hm Hmid) as Hsame. simpl in Hsame.
  rewrite lookup_insert_eq in Hsame.
  apply processEvents_cons_Ok in H2 as (c2' & H2 & [= <-]).
  apply processEvent_Ok in H2 as (host2 & path2 & vm2 & srcs2 & Hurl & Hvm2 & _ & ->).
  simpl. rewrite Hfp in Hvm2. fold fp t2 in Hvm2.
  exists earlier, last, host2, path2.
  destruct (Z.le_gt_cases (t2 - t1) VisitDuration) as [Hgap|Hgap].
  - rewrite (recordVisit_extend _ _ _ _ earlier last) in Hvm2
      by (by rewrite ?Hlast).
    injection Hvm2 as <-. eexists. rewrite lookup_insert_eq, lookup_insert_eq.
    repeat split; try done; try lia.
    rewrite !length_app. simpl. lia.
  - rewrite (recordVisit_split _ _ _ _ earlier last) in Hvm2
      by (by rewrite ?Hlast).
    injection Hvm2 as <-. eexists. rewrite lookup_insert_eq, lookup_insert_eq.
    repeat split; try done; try lia.
    rewrite !length_app. simpl. lia.
Qed.

Lemma session_window_witness :
  let e1 := Samples.event "pageview" "https://example.com/" "" "F1" 0 in
  let other := Samples.event "pageview" "https://example.com/" "" "F2" 100 in
  let e2 := Samples.event "pageview" "https://example.com/foo" "" "F1" 300 in
  ∃ c1 c2 sessions2,
    processEvent initCounters e1 = Ok c1
    ∧ processEvents c1 ([other] ++ [e2]) = Ok c2
    ∧ visitsMap c2 !! "F1" = Some sessions2
    ∧ List.length sessions2 = 1%nat.
Proof.
  intros e1 other e2.
  assert (∃ c1, processEvent initCounters e1 = Ok c1) as [c1 H1]
    by (eexists; vm_compute; reflexivity).
  assert (∃ c2, processEvents c1 ([other] ++ [e2]) = Ok c2) as [c2 H2].
  { vm_compute in H1. injection H1 as <-. eexists. vm_compute. reflexivity. }
  destruct (session_window initCounters e1 [other] e2 c1 c2 eq_refl
              ltac:(repeat constructor; by vm_compute) H1 H2)
    as (earlier & last & host2 & path2 & s2 & Hc1 & _ & _ & Hc2 & _ & _ & Hiff & _).
  exists c1, c2, s2. repeat split; try done.
  rewrite (proj2 Hiff) by (by vm_compute).
  assert (List.length <$> visitsMap c1 !! "F1" = Some 1%nat) as Hlen
    by (vm_compute in H1; injection H1 as <-; by vm_compute).
  change (HashedVisit e1) with "F1" in Hc1.
  rewrite Hc1 in Hlen. by injection Hlen.
Defined.

(** *** Referrers *)

Lemma splitDots_nonempty s : splitDots s ≠ [].
Proof.
  destruct s as [|c r]; simpl; [done|].
  destruct (isDot c); [done|]. by destruct (splitDots r).
Qed.

Lemma splitDots_single s x : splitDots s = [x] → x = s.
Proof.
  revert x. induction s as [|c r IH]; intros x; simpl.
  - by intros [= <-].
  - destruct (isDot c).
    + intros [= _ H]. by apply splitDots_nonempty in H.
    + destruct (splitDots r) as [|h t] eqn:Hr;
        [by apply splitDots_nonempty in Hr|].
      intros [= Hx Ht]. subst. by rewrite (IH h).
Qed.

(** The label the code computes is the join of the last two labels. *)
Lemma referrerLabel_lastTwoLabels host : referrerLabel host = lastTwoLabels host.
Proof.
  unfold referrerLabel, lastTwoLabels.
  destruct (reverse (splitDots host)) as [|b [|a rest]] eqn:Hrev;
    apply (f_equal reverse) in Hrev; rewrite reverse_involutive in Hrev.
  - by apply splitDots_nonempty in Hrev.
  - rewrite Hrev. simpl. symmetry. by apply splitDots_single.
  - rewrite Hrev, !reverse_cons, <- !app_assoc. simpl.
    rewrite !length_app. simpl.
    replace (1 <? List.length (reverse rest) + 2)%nat with true
      by (symmetry; apply Nat.ltb_lt; lia).
    replace (List.length (reverse rest) + 2 - 2)%nat
      with (List.length (reverse rest)) by lia.
    by rewrite drop_app_length.
Qed.

Lemma countSource_direct srcs host :
  countSource srcs host "" = Ok (incr "Direct/None" srcs).
Proof. done. Qed.

Lemma countSource_referrer srcs host referrer rh rp :
  referrer ≠ "" → extractDomainAndPath referrer = Ok (rh, rp) →
  countSource srcs host referrer
  = Ok (if decide (rh = host) then srcs else incr (lastTwoLabels rh) srcs).
Proof.
  intros Hne Hrh. unfold countSource.
  destruct (String.eqb_spec referrer ""); [done|].
  rewrite Hrh. simpl. rewrite referrerLabel_lastTwoLabels.
  destruct (String.eqb_spec host rh); case_decide; simpl; congruence.
Qed.

Lemma countSource_Ok srcs host referrer srcs' :
  countSource srcs host referrer = Ok srcs' → referrer ≠ "" →
  ∃ rh rp, extractDomainAndPath referrer = Ok (rh, rp).
Proof.
  unfold countSource. destruct (String.eqb_spec referrer ""); [done|].
  destruct (extractDomainAndPath referrer) as [[rh rp]| |]; simpl; try done.
  intros _ _. by exists rh, rp.
Qed.

(** C5.  For an event the loop processes: with an empty referrer the source
    map changes by one more under "Direct/None" and nowhere else; with a
    referrer whose host is the host of the event's own URL the source map
    does not change; with a referrer of another host it changes by one more
    under the last two dot-separated labels of that host, joined by a dot.
    A referrer https://news.ycombinator.com/item on a URL of host
    example.com counts under "ycombinator.com". *)
Theorem source_classification c e c' :
  processEvent c e = Ok c' →
  ∃ urlHost urlPath,
    extractDomainAndPath (URL e) = Ok (urlHost, urlPath)
    ∧ (Referrer e = "" → sources c' = incr "Direct/None" (sources c))
    ∧ (Referrer e ≠ "" →
       ∃ refHost refPath,
         extractDomainAndPath (Referrer e) = Ok (refHost, refPath)
         ∧ (refHost = urlHost → sources c' = sources c)
         ∧ (refHost ≠ urlHost →
            sources c' = incr (lastTwoLabels refHost) (sources c)))
    ∧ (∀ m k j, countOf (incr k m) j
                = countOf m j + (if decide (k = j) then 1 else 0))
    ∧ lastTwoLabels "news.ycombinator.com" = "ycombinator.com"
    ∧ (sources <$> processEvent initCounters
         (Samples.event "pageview" "https://example.com/"
            "https://news.ycombinator.com/item" "F1" 0 : Event)
       = Ok {[ "ycombinator.com" := 1 ]}).
Proof.
  intros H.
  apply processEvent_Ok in H as (host & path & vm & srcs & Hurl & _ & Hsrc & ->).
  exists host, path. simpl. split; [done|]. split; [|split; [|split; [|split]]].
  - intros Href. rewrite Href, countSource_direct in Hsrc. by injection Hsrc.
  - intros Href.
    destruct (countSource_Ok _ _ _ _ Hsrc Href) as (rh & rp & Hrh).
    exists rh, rp. split; [done|].
    rewrite (countSource_referrer _ _ _ rh rp Href Hrh) in Hsrc.
    injection Hsrc as <-. split; intros ?; by case_decide.
  - apply countOf_incr.
  - reflexivity.
  - by vm_compute.
Qed.

Lemma source_classification_witness :
  let e := Samples.event "pageview" "https://example.com/" "" "F1" 0 in
  ∃ c', processEvent initCounters e = Ok c'
        ∧ sources c' = incr "Direct/None" (sources initCounters).
Proof.
  intros e.
  assert (∃ c', processEvent initCounters e = Ok c') as [c' H]
    by (eexists; vm_compute; reflexivity).
  exists c'. split; [exact H|].
  destruct (source_classification initCounters e c' H)
    as (urlHost & urlPath & _ & Hdirect & _).
  exact (Hdirect eq_refl).
Defined.

(** *** Malformed links *)

(** What it is for a link not to decompose: it has no byte but slashes. *)
Lemma matchHostPath_None s :
  matchHostPath s = None ↔ (s = "" ∨ ∃ r, s = String "/" r).
Proof.
  unfold matchHostPath. destruct s as [|c r]; simpl; [naive_solver|].
  unfold isSlash. destruct (Ascii.eqb_spec c "/") as [->|Hc].
  - naive_solver.
  - destruct (spanNonSlash r). split; [done|]. intros [|[r' [= ]]]; done.
Qed.

Lemma matchHere_None s :
  matchHere s = None ↔ (s = "" ∨ ∃ r, s = String "/" r).
Proof.
  rewrite <- matchHostPath_None. unfold matchHere.
  destruct (stripScheme s) as [body|] eqn:Hs; [|done].
  destruct (matchHostPath body); [|done].
  split; [done|]. intros H. apply matchHostPath_None in H.
  unfold stripScheme in Hs. by destruct H as [->|[r ->]].
Qed.

Lemma FindStringSubmatch_None s :
  FindStringSubmatch s = None ↔ onlySlashes s = true.
Proof.
  induction s as [|c r IH].
  - by cbn.
  - cbn [FindStringSubmatch onlySlashes].
    destruct (matchHere (String c r)) as [p|] eqn:Hm.
    + split; [done|]. intros [Hc _]%andb_prop.
      unfold isSlash in Hc. apply Ascii.eqb_eq in Hc as ->.
      assert (matchHere (String "/" r) = None) as Hn
        by (apply matchHere_None; eauto).
      congruence.
    + apply matchHere_None in Hm as [|[r' [= -> ->]]]; [done|].
      rewrite IH. by cbn.
Qed.

Lemma extractDomainAndPath_Err s :
  is_Err (extractDomainAndPath s) ↔ onlySlashes s = true.
Proof.
  rewrite <- FindStringSubmatch_None. unfold extractDomainAndPath, is_Err.
  destruct (FindStringSubmatch s) as [[h p]|]; split; try done.
  - by intros [m ?].
  - by eexists.
Qed.

Lemma processEvent_Ok_wellformed c e c' :
  processEvent c e = Ok c' → ¬ malformed e.
Proof.
  intros H.
  apply processEvent_Ok in H as (host & path & vm & srcs & Hurl & _ & Hsrc & _).
  intros [[m Hm]|[Href [m Hm]]]; [congruence|].
  destruct (countSource_Ok _ _ _ _ Hsrc Href) as (rh & rp & Hrh). congruence.
Qed.

Lemma processEvent_Err c e m :
  visitsOk (visitsMap c) → processEvent c e = Err m → malformed e.
Proof.
  intros Hok. unfold processEvent, malformed.
  destruct (extractDomainAndPath (URL e)) as [[host path]|m'|] eqn:Hurl;
    [|intros _; left; by exists m'|done]. simpl.
  destruct (recordVisit_is_Ok (visitsMap c) (HashedVisit e)
              (removeHtmlSuffix path) (AsTime (Timestamp_ e)) Hok) as [vm ->].
  simpl. unfold countSource.
  destruct (String.eqb_spec (Referrer e) "") as [Href|Href]; [done|].
  destruct (extractDomainAndPath (Referrer e)) as [[rh rp]|m'|] eqn:Hr;
    [|intros _; right; split; [done|by exists m']|done]. simpl.
  by destruct (negb _).
Qed.

(** The loop fails exactly when it meets a malformed event. *)
Lemma processEvents_Err c es :
  visitsOk (visitsMap c) →
  is_Err (processEvents c es) ↔ Exists (λ e, malformed e) es.
Proof.
  revert c. induction es as [|e es IH]; intros c Hok.
  - split; [by intros [m ?]|by intros ?%Exists_nil].
  - rewrite processEvents_cons, Exists_cons.
    pose proof (processEvent_no_panic c e Hok).
    destruct (processEvent c e) as [c1|m|] eqn:H1; simpl; [| |done].
    + pose proof (processEvent_Ok_wellformed _ _ _ H1).
      rewrite IH by (by apply (processEvent_visits _ _ _ H1)). tauto.
    + split; [intros _; left|by intros _; exists m].
      by eapply processEvent_Err.
Qed.

Lemma aggregate_Err now es :
  is_Err (aggregate now es) ↔ ∃ e, e ∈ es ∧ malformed e.
Proof.
  unfold aggregate.
  pose proof (processEvents_Err initCounters (sortEvents es) visitsOk_empty) as H.
  rewrite Exists_exists in H.
  assert ((∃ e, e ∈ sortEvents es ∧ malformed e) ↔ (∃ e, e ∈ es ∧ malformed e))
    as Hperm.
  { split; intros (e & He & Hm); exists e; (split; [|done]).
    - by rewrite <- (sortEvents_Permutation es).
    - by rewrite (sortEvents_Permutation es). }
  rewrite <- Hperm, <- H.
  destruct (processEvents _ _) as [c|m|]; simpl; split; try done.
  all: try by intros [m' ?].
  all: intros _; by eexists.
Qed.

(** C7.  If the URL of some returned event, or its referrer when it has one,
    does not decompose, that is, has no byte but slashes, then
    [GetAnalyticsStats] returns an error and no snapshot, whatever the other
    events are, and [Collect] sends no sample. *)
Theorem malformed_event_aborts now d domain events e :
  List d domain = Ok events →
  e ∈ GetEvents events →
  malformed e →
  is_Err (GetAnalyticsStats now (Some d) domain)
  ∧ (∀ st, GetAnalyticsStats now (Some d) domain ≠ Ok st)
  ∧ (∀ constLabels,
       is_Err (Collect now (NewAnalyticsCollector constLabels (Some d) domain)))
  ∧ (∀ link, is_Err (extractDomainAndPath link) ↔ onlySlashes link = true).
Proof.
  intros Hl He Hbad.
  assert (is_Err (GetAnalyticsStats now (Some d) domain)) as [m Hm].
  { simpl. rewrite Hl. simpl. apply aggregate_Err. eauto. }
  split; [by exists m|]. split; [intros st; congruence|]. split.
  - intros constLabels. exists m. unfold Collect. simpl in *. by rewrite Hm.
  - apply extractDomainAndPath_Err.
Qed.

Lemma malformed_event_aborts_witness :
  is_Err (GetAnalyticsStats 0 (Samples.store Samples.brokenUrl) "web").
Proof.
  refine (proj1 (malformed_event_aborts 0
    (mkDatabase (λ _, Ok (Some (mkEvents Samples.brokenUrl))) (λ _, None))
    "web" (Some (mkEvents Samples.brokenUrl))
    (Samples.event "pageview" "//" "" "F2" 60) eq_refl _ _)).
  - simpl. unfold Samples.brokenUrl. repeat constructor.
  - left. apply extractDomainAndPath_Err. reflexivity.
Defined.

(** *** The normalizer *)

Lemma spanNonSlash_app h p :
  noSlash h = true → isPathSegment p = true → spanNonSlash (h +:+ p) = (h, p).
Proof.
  intros Hh Hp. induction h as [|c h IH]; simpl in *.
  - destruct p as [|c r]; [done|]. simpl in *.
    by apply andb_prop in Hp as [-> _].
  - apply andb_prop in Hh as [Hc Hh]. apply negb_true_iff in Hc.
    by rewrite Hc, IH.
Qed.

Lemma dotStar_id p : noNewline p = true → dotStar p = p.
Proof.
  induction p as [|c p IH]; simpl; [done|].
  intros [Hc Hp]%andb_prop. apply negb_true_iff in Hc.
  by rewrite Hc, IH.
Qed.

Lemma isPathSegment_noNewline p : isPathSegment p = true → noNewline p = true.
Proof. destruct p; [done|]. unfold isPathSegment. by intros [_ ?]%andb_prop. Qed.

Lemma matchHostPath_app h p :
  h ≠ "" → noSlash h = true → isPathSegment p = true →
  matchHostPath (h +:+ p) = Some (h, p).
Proof.
  intros Hne Hh Hp. unfold matchHostPath. rewrite spanNonSlash_app by done.
  rewrite dotStar_id by (by apply isPathSegment_noNewline). by destruct h.
Qed.

Lemma prefix_cons c s1 s2 :
  String.prefix (String c s1) s2 = true →
  ∃ r, s2 = String c r ∧ String.prefix s1 r = true.
Proof.
  destruct s2 as [|a r]; simpl; [done|].
  destruct (ascii_dec c a) as [->|]; [eauto|done].
Qed.

(** A string that starts with a scheme has the scheme name as its first run of
    bytes other than a slash. *)
Lemma stripScheme_Some s body :
  stripScheme s = Some body →
  (spanNonSlash s).1 = "https:" ∨ (spanNonSlash s).1 = "http:".
Proof.
  unfold stripScheme.
  destruct (String.prefix "https://" s) eqn:H1.
  - intros _. left.
    repeat (apply prefix_cons in H1 as (? & -> & H1)). done.
  - destruct (String.prefix "http://" s) eqn:H2; [|done].
    intros _. right.
    repeat (apply prefix_cons in H2 as (? & -> & H2)). done.
Qed.

Lemma isHost_spec h :
  isHost h = true ↔ h ≠ "" ∧ noSlash h = true ∧ h ≠ "http:" ∧ h ≠ "https:".
Proof.
  unfold isHost. rewrite !andb_true_iff, !negb_true_iff, !String.eqb_neq. tauto.
Qed.

Lemma stripScheme_host h p :
  isHost h = true → isPathSegment p = true → stripScheme (h +:+ p) = None.
Proof.
  intros (Hne & Hh & H1 & H2)%isHost_spec Hp.
  destruct (stripScheme (h +:+ p)) as [body|] eqn:Hs; [|done].
  apply stripScheme_Some in Hs. rewrite spanNonSlash_app in Hs by done.
  simpl in Hs. by destruct Hs.
Qed.

Lemma stripScheme_http s : stripScheme ("http://" +:+ s) = Some s.
Proof. by destruct s. Qed.

Lemma stripScheme_https s : stripScheme ("https://" +:+ s) = Some s.
Proof. by destruct s. Qed.

Lemma FindStringSubmatch_here s r :
  matchHere s = Some r → FindStringSubmatch s = Some r.
Proof.
  intros H.
  assert (FindStringSubmatch s
          = match matchHere s with
            | Some r => Some r
            | None => match s with
                      | "" => None
                      | String _ t => FindStringSubmatch t
                      end
            end) as -> by (by destruct s).
  by rewrite H.
Qed.

Lemma FindStringSubmatch_url scheme host path :
  scheme ∈ ["" ; "http://" ; "https://"] →
  isHost host = true → isPathSegment path = true →
  FindStringSubmatch (scheme +:+ host +:+ path) = Some (host, path).
Proof.
  intros Hs Hh Hp. apply FindStringSubmatch_here.
  pose proof Hh as (Hne & Hns & _)%isHost_spec.
  pose proof (matchHostPath_app host path Hne Hns Hp) as Hm.
  unfold matchHere.
  apply elem_of_cons in Hs as [->|Hs]; [|apply elem_of_cons in Hs as [->|Hs];
    [|apply list_elem_of_singleton in Hs as ->]].
  - change ("" +:+ host +:+ path) with (host +:+ path).
    by rewrite stripScheme_host.
  - by rewrite stripScheme_http, Hm.
  - by rewrite stripScheme_https, Hm.
Qed.

Lemma removeHtmlSuffix_unfold s :
  removeHtmlSuffix s
  = if String.eqb s ".html" then ""
    else match s with
         | "" => ""
         | String c r => String c (removeHtmlSuffix r)
         end.
Proof. by destruct s. Qed.

Lemma append_html_length p : String.length (p +:+ ".html") = (String.length p + 5)%nat.
Proof. induction p as [|c p IH]; simpl; [done|]. by rewrite IH. Qed.

Lemma removeHtmlSuffix_strip p : removeHtmlSuffix (p +:+ ".html") = p.
Proof.
  induction p as [|c p IH]; [done|].
  rewrite removeHtmlSuffix_unfold.
  destruct (String.eqb_spec (String c p +:+ ".html") ".html") as [Heq|_].
  - apply (f_equal String.length) in Heq.
    rewrite append_html_length in Heq. simpl in Heq. lia.
  - simpl. by rewrite IH.
Qed.

Lemma removeHtmlSuffix_keep p :
  (∀ q, p ≠ q +:+ ".html") → removeHtmlSuffix p = p.
Proof.
  induction p as [|c p IH]; intros Hp; [done|].
  rewrite removeHtmlSuffix_unfold.
  destruct (String.eqb_spec (String c p) ".html") as [Heq|_].
  - by destruct (Hp "").
  - rewrite IH; [done|]. intros q ->. by destruct (Hp (String c q)).
Qed.

(** C8.  A URL made of an optional [http://] or [https://], a host and an
    optional path decomposes into that host and that path, the path being
    "/" when the URL has none.  The key under which the loop counts the page
    is the path without a final ".html": the URL
    https://example.com/page.html is counted under "/page". *)
Theorem normalizer_contract scheme host path :
  scheme ∈ ["" ; "http://" ; "https://"] →
  isHost host = true →
  isPathSegment path = true →
  extractDomainAndPath (scheme +:+ host +:+ path)
  = Ok (host, if String.eqb path "" then "/" else path)
  ∧ (∀ c e c', processEvent c e = Ok c' →
       ∃ h p, extractDomainAndPath (URL e) = Ok (h, p)
              ∧ pages c' = incr (removeHtmlSuffix p) (pages c))
  ∧ (∀ p, removeHtmlSuffix (p +:+ ".html") = p)
  ∧ (∀ p, (∀ q, p ≠ q +:+ ".html") → removeHtmlSuffix p = p)
  ∧ extractDomainAndPath "https://example.com/page.html"
    = Ok ("example.com", "/page.html")
  ∧ (pages <$> processEvent initCounters
       (Samples.event "pageview" "https://example.com/page.html" "" "F1" 0 : Event)
     = Ok {[ "/page" := 1 ]}).
Proof.
  intros Hs Hh Hp. split; [|split; [|split; [|split; [|split]]]].
  - unfold extractDomainAndPath. by rewrite FindStringSubmatch_url.
  - intros c e c' H.
    apply processEvent_Ok in H as (h & p & vm & srcs & Hurl & _ & _ & ->).
    by exists h, p.
  - apply removeHtmlSuffix_strip.
  - apply removeHtmlSuffix_keep.
  - reflexivity.
  - by vm_compute.
Qed.

Lemma normalizer_contract_witness :
  extractDomainAndPath ("https://" +:+ "example.com" +:+ "")
  = Ok ("example.com", "/")
  ∧ extractDomainAndPath ("" +:+ "mockData.example.com" +:+ "/foo/bar")
    = Ok ("mockData.example.com", "/foo/bar").
Proof.
  split.
  - apply (normalizer_contract "https://" "example.com" "");
      [repeat constructor | reflexivity | reflexivity].
  - apply (normalizer_contract "" "mockData.example.com" "/foo/bar");
      [repeat constructor | reflexivity | reflexivity].
Defined.


(** *** The collector *)

Lemma metrics_lookup constLabels db domain key :
  key ∈ (metricTable constLabels).*1 →
  metrics (NewAnalyticsCollector constLabels db domain) !! key
  = descOf constLabels key.
Proof.
  intros Hkey. cbn in Hkey.
  repeat (apply elem_of_cons in Hkey as [->|Hkey]; [by vm_compute|]).
  by apply elem_of_nil in Hkey.
Qed.

Lemma rateMetrics_Ok d entries :
  List.length (variableLabels d) = 1%nat →
  rateMetrics (Some d) entries
  = Ok ((λ kv, mkMetric d GaugeValue (ofInt (snd kv)) [fst kv]) <$> entries).
Proof.
  intros Hd. induction entries as [|[label rate] rest IH]; [done|].
  cbn [rateMetrics MustNewConstMetric]. rewrite Hd, IH. done.
Qed.

Lemma collectRate_Ok constLabels db domain key d rates :
  key ∈ (metricTable constLabels).*1 →
  descOf constLabels key = Some d →
  List.length (variableLabels d) = 1%nat →
  collectRate (NewAnalyticsCollector constLabels db domain) key rates
  = Ok (rateSamples (Some d) rates).
Proof.
  intros Hkey Hd Hlen. unfold collectRate, rateSamples.
  destruct rates as [m|]; [|done].
  rewrite metrics_lookup, Hd by done. by apply rateMetrics_Ok.
Qed.

(** What a scrape sends for a snapshot: five samples without a label, then
    the samples of the seven maps. *)
Lemma emit_samples constLabels db domain stats :
  let d key := descOf constLabels key in
  let simple key vt v :=
    mkMetric (default (NewDesc "" "" [] ∅) (d key)) vt v [] in
  emit (NewAnalyticsCollector constLabels db domain) stats
  = Ok ([ simple "unique_visitors_total" CounterValue (ofInt (UniqueVisitors stats));
          simple "visits_total" CounterValue (ofInt (TotalVisits stats));
          simple "total_page_views" CounterValue (ofInt (TotalPageViews stats));
          simple "current_visitors" CounterValue (ofInt (CurrentVisitors stats));
          simple "bounce_rate" GaugeValue (BounceRate stats) ]
        ++ rateSamples (d "page_rate") (PagesRate stats)
        ++ rateSamples (d "source_rate") (SourcesRate stats)
        ++ rateSamples (d "device_rate") (DevicesRate stats)
        ++ rateSamples (d "os_rate") (OSsRate stats)
        ++ rateSamples (d "browser_rate") (BrowsersRate stats)
        ++ rateSamples (d "entry_pages_rate") (EntryPagesRate stats)
        ++ rateSamples (d "exit_pages_rate") (ExitPagesRate stats)).
Proof.
  intros d simple. unfold emit.
  rewrite !metrics_lookup by (cbn; set_solver).
  rewrite (collectRate_Ok _ _ _ "page_rate" _ _ ltac:(cbn; set_solver) eq_refl eq_refl).
  rewrite (collectRate_Ok _ _ _ "source_rate" _ _ ltac:(cbn; set_solver) eq_refl eq_refl).
  rewrite (collectRate_Ok _ _ _ "device_rate" _ _ ltac:(cbn; set_solver) eq_refl eq_refl).
  rewrite (collectRate_Ok _ _ _ "os_rate" _ _ ltac:(cbn; set_solver) eq_refl eq_refl).
  rewrite (collectRate_Ok _ _ _ "browser_rate" _ _ ltac:(cbn; set_solver) eq_refl eq_refl).
  rewrite (collectRate_Ok _ _ _ "entry_pages_rate" _ _ ltac:(cbn; set_solver) eq_refl eq_refl).
  rewrite (collectRate_Ok _ _ _ "exit_pages_rate" _ _ ltac:(cbn; set_solver) eq_refl eq_refl).
  reflexivity.
Qed.

Lemma rateSamples_Forall (P : Metric → Prop) d rates :
  (∀ label v, P (mkMetric d GaugeValue (ofInt v) [label])) →
  Forall P (rateSamples (Some d) rates).
Proof.
  intros HP. unfold rateSamples. destruct rates as [m|]; [|constructor].
  apply Forall_fmap, Forall_forall. intros [label v] _. apply HP.
Qed.

Lemma Collect_Ok now c ms :
  Collect now c = Ok ms →
  ∃ stats, GetAnalyticsStats now (database c) (domain c) = Ok stats
           ∧ emit c stats = Ok ms.
Proof.
  unfold Collect. destruct (GetAnalyticsStats _ _ _) as [stats| |]; simpl; try done.
  intros H. by exists stats.
Qed.

(** The names under which [Collect] sends counters. *)
Lemma emit_value_types constLabels db domain stats ms :
  emit (NewAnalyticsCollector constLabels db domain) stats = Ok ms →
  Forall (λ m,
    valueType m
    = if bool_decide (fqName (desc m) ∈
           [ "unique_visitors_total"; "visits_total"; "page_views";
             "current_visitors" ])
      then CounterValue else GaugeValue) ms.
Proof.
  rewrite emit_samples. intros [= <-].
  repeat (apply Forall_cons; split; [by vm_compute|]).
  repeat (apply Forall_app; split); by apply rateSamples_Forall.
Qed.

Lemma Describe_descriptors constLabels db domain :
  Describe (NewAnalyticsCollector constLabels db domain)
  = [ NewDesc "os_rate" "Rating of OS" ["os"] constLabels;
      NewDesc "source_rate" "Rating of source" ["source"] constLabels;
      NewDesc "current_visitors" "Current visitors" [] constLabels;
      NewDesc "unique_visitors_total" "Total number of unique visitors" []
        constLabels;
      NewDesc "entry_pages_rate" "Rating of entry pages" ["page"] constLabels;
      NewDesc "exit_pages_rate" "Rating of exit pages" ["page"] constLabels;
      NewDesc "visits_total" "Total number of visitors" [] constLabels;
      NewDesc "bounce_rate" "Bounce rate in %" [] constLabels;
      NewDesc "browser_rate" "Rating of browser" ["browser"] constLabels;
      NewDesc "page_views" "Total number of page views" [] constLabels;
      NewDesc "device_rate" "Rating of device" ["device"] constLabels;
      NewDesc "page_rate" "Rating of page" ["page"] constLabels ].
Proof. vm_compute. reflexivity. Qed.

(** C6, as the code has it.  [Describe] sends twelve descriptors, under the
    names listed: five take no variable label and seven take one.  [Collect]
    sends the samples of unique visitors, visits, page views and current
    visitors as counters and all others, the bounce rate and the seven
    labelled ones, as gauges; there is no gauge for current visitors.  Every
    descriptor carries the constant labels of the collector, and the twelve
    do not depend on the store or on the property scraped. *)
Theorem describe_descriptors constLabels db domain :
  let ds := Describe (NewAnalyticsCollector constLabels db domain) in
  List.length ds = 12%nat
  ∧ fqName <$> ds ≡ₚ
      [ "unique_visitors_total"; "visits_total"; "page_views";
        "current_visitors"; "bounce_rate";
        "page_rate"; "source_rate"; "os_rate"; "browser_rate"; "device_rate";
        "entry_pages_rate"; "exit_pages_rate" ]
  ∧ fqName <$> unlabelled ds ≡ₚ
      [ "unique_visitors_total"; "visits_total"; "page_views";
        "current_visitors"; "bounce_rate" ]
  ∧ List.length (labelled ds) = 7%nat
  ∧ Forall (λ d, List.length (variableLabels d) = 1%nat) (labelled ds)
  ∧ Forall (λ d, prometheus.constLabels d = constLabels) ds
  ∧ (∀ db' domain',
       Describe (NewAnalyticsCollector constLabels db' domain') = ds)
  ∧ (∀ now ms,
       Collect now (NewAnalyticsCollector constLabels db domain) = Ok ms →
       Forall (λ m,
         valueType m
         = if bool_decide (fqName (desc m) ∈
                [ "unique_visitors_total"; "visits_total"; "page_views";
                  "current_visitors" ])
           then CounterValue else GaugeValue) ms).
Proof.
  intros ds. subst ds.
  split; [by rewrite Describe_descriptors|].
  split; [rewrite Describe_descriptors; apply (bool_decide_unpack _); by vm_compute|].
  split; [rewrite Describe_descriptors; apply (bool_decide_unpack _); by vm_compute|].
  split; [by rewrite Describe_descriptors|].
  split.
  { rewrite Describe_descriptors. cbn [labelled List.filter variableLabels NewDesc].
    repeat (apply Forall_cons; split; [reflexivity|]). apply Forall_nil_2. }
  split.
  { rewrite Describe_descriptors.
    repeat (apply Forall_cons; split; [reflexivity|]). apply Forall_nil_2. }
  split.
  { intros db' domain'. by rewrite !Describe_descriptors. }
  intros now ms H. apply Collect_Ok in H as (stats & _ & H).
  by eapply emit_value_types.
Qed.

(** C6 as stated fails.  Four counters, a bounce-rate gauge and a gauge for
    current visitors would be six descriptors without a variable label; the
    collector has five, and the sample of current visitors is sent as a
    counter. *)
Lemma describe_descriptors_counterexample :
  let c := NewAnalyticsCollector Samples.labels (Samples.store []) "web" in
  List.length (Describe c) = 12%nat
  ∧ List.length (labelled (Describe c)) = 7%nat
  ∧ List.length (unlabelled (Describe c)) ≠ (4 + 1 + 1)%nat
  ∧ ∃ ms m, Collect 0 c = Ok ms
            ∧ samplesOf "current_visitors" ms = [m]
            ∧ valueType m ≠ GaugeValue.
Proof.
  intros c. split; [by vm_compute|]. split; [by vm_compute|].
  split; [by vm_compute|].
  eexists _, _. split; [vm_compute; reflexivity|]. by vm_compute.
Qed.

(** The snapshot of a property without events, and the samples of its scrape. *)
Lemma aggregate_nil now :
  aggregate now []
  = Ok (mkAnalyticsStats 0 0 0 0 NaN
          (Some ∅) (Some ∅) (Some ∅) (Some ∅) (Some ∅) (Some ∅) (Some ∅)).
Proof. reflexivity. Qed.

(** C4, as the code has it.  With no stored event the snapshot has every
    count at zero and its seven maps present and empty, and its bounce rate
    is the NaN of 0/0.  [Collect] then sends the five samples without a
    label and nothing else; the bounce-rate sample is among them, a gauge of
    value NaN. *)
Theorem empty_property_snapshot now d domain events constLabels :
  List d domain = Ok events →
  GetEvents events = [] →
  GetAnalyticsStats now (Some d) domain
  = Ok (mkAnalyticsStats 0 0 0 0 NaN
          (Some ∅) (Some ∅) (Some ∅) (Some ∅) (Some ∅) (Some ∅) (Some ∅))
  ∧ fdiv (ofInt 0) (ofInt 0) = NaN
  ∧ Collect now (NewAnalyticsCollector constLabels (Some d) domain)
    = Ok [ mkMetric (NewDesc "unique_visitors_total"
                       "Total number of unique visitors" [] constLabels)
                    CounterValue (ofInt 0) [];
           mkMetric (NewDesc "visits_total" "Total number of visitors" []
                       constLabels)
                    CounterValue (ofInt 0) [];
           mkMetric (NewDesc "page_views" "Total number of page views" []
                       constLabels)
                    CounterValue (ofInt 0) [];
           mkMetric (NewDesc "current_visitors" "Current visitors" []
                       constLabels)
                    CounterValue (ofInt 0) [];
           mkMetric (NewDesc "bounce_rate" "Bounce rate in %" [] constLabels)
                    GaugeValue NaN [] ].
Proof.
  intros Hl Hnil.
  assert (GetAnalyticsStats now (Some d) domain
          = Ok (mkAnalyticsStats 0 0 0 0 NaN
                  (Some ∅) (Some ∅) (Some ∅) (Some ∅) (Some ∅) (Some ∅) (Some ∅)))
    as Hstats.
  { simpl. rewrite Hl. simpl. rewrite Hnil. apply aggregate_nil. }
  split; [done|]. split; [done|].
  unfold Collect.
  cbn [prometheus.database prometheus.domain NewAnalyticsCollector].
  rewrite Hstats. cbn [mbind result_bind]. rewrite emit_samples. reflexivity.
Qed.

Lemma empty_property_snapshot_witness :
  BounceRate <$> GetAnalyticsStats 0 (Samples.store []) "web" = Ok NaN
  ∧ List.length <$> Collect 0
      (NewAnalyticsCollector Samples.labels (Samples.store []) "web")
    = Ok 5%nat.
Proof.
  destruct (empty_property_snapshot 0
    (mkDatabase (λ _, Ok (Some (mkEvents []))) (λ _, None))
    "web" (Some (mkEvents [])) Samples.labels eq_refl eq_refl)
    as (Hstats & _ & Hcollect).
  unfold Samples.store. rewrite Hstats, Hcollect. done.
Defined.

(** C4 as stated fails: scraping a property without events sends the
    bounce-rate sample, and its value is NaN. *)
Lemma empty_property_counterexample :
  ∃ ms m,
    Collect 0 (NewAnalyticsCollector Samples.labels (Samples.store []) "web")
    = Ok ms
    ∧ samplesOf "bounce_rate" ms = [m]
    ∧ value m = NaN.
Proof. eexists _, _. split; [vm_compute; reflexivity|]. by vm_compute. Qed.

(** *** The scenario of the design document *)

(** Three page views of one visitor at t, t+5m and t+40m, returned out of
    order: two sessions, split at the gap of 35 minutes. *)
Example three_views_scenario :
  (λ st, (UniqueVisitors st, TotalVisits st, TotalPageViews st,
          map_to_list <$> EntryPagesRate st, map_to_list <$> ExitPagesRate st))
    <$> GetAnalyticsStats 0 (Samples.store Samples.threeViews) "web"
  = Ok (1, 2, 3, Some [("/bar", 1); ("/", 1)], Some [("/foo", 1); ("/bar", 1)]).
Proof. vm_compute. reflexivity. Qed.

(** ** Further properties of the aggregation *)

(** *** Visitors, visits and events *)

Lemma processEvent_dom c e c' :
  processEvent c e = Ok c' →
  dom (visitsMap c') = {[ HashedVisit e ]} ∪ dom (visitsMap c).
Proof.
  intros H.
  apply processEvent_Ok in H as (host & path & vm & srcs & _ & Hvm & _ & ->).
  apply recordVisit_Ok in Hvm as (v & lv & -> & _). simpl.
  apply dom_insert_L.
Qed.

Lemma processEvents_dom c es c' :
  processEvents c es = Ok c' →
  dom (visitsMap c') = fingerprints es ∪ dom (visitsMap c).
Proof.
  revert c. induction es as [|e es IH]; intros c H.
  - injection H as <-. unfold fingerprints. set_solver.
  - apply processEvents_cons_Ok in H as (c1 & H1 & H2).
    rewrite (IH _ H2), (processEvent_dom _ _ _ H1).
    unfold fingerprints. simpl. set_solver.
Qed.

Lemma fingerprints_sortEvents es : fingerprints (sortEvents es) = fingerprints es.
Proof. unfold fingerprints. by rewrite (sortEvents_Permutation es). Qed.

Lemma size_le_sessionCount vm :
  visitsOk vm → Z.of_nat (size vm) ≤ sessionCount vm.
Proof.
  induction vm as [|fp v vm Hfp IH] using map_ind; intros Hok.
  - rewrite map_size_empty, sessionCount_empty. done.
  - rewrite map_size_insert_None, sessionCount_insert, Hfp by done. simpl.
    assert (v ≠ []) as Hv by (apply (Hok fp); apply lookup_insert_eq).
    assert (visitsOk vm) as Hok'.
    { intros fp' v' Hv'. apply (Hok fp').
      rewrite lookup_insert_ne; [done|]. intros ->. congruence. }
    specialize (IH Hok'). destruct v; [done|]. simpl List.length. lia.
Qed.

Lemma Abs_Since_lt now t :
  (Abs (Since now t) <? 5 * Minute) = (Z.abs (now - t) <? 5 * Minute).
Proof.
  unfold Abs, Since, Sub, minDuration, maxDuration, Minute.
  destruct (Z.ltb_spec (now - t) (- 2 ^ 63)).
  - rewrite Z.eqb_refl. symmetry. apply Z.ltb_ge. lia.
  - destruct (Z.ltb_spec (2 ^ 63 - 1) (now - t)).
    + replace (2 ^ 63 - 1 =? - 2 ^ 63) with false by done.
      symmetry. rewrite Z.ltb_ge. lia.
    + destruct (Z.eqb_spec (now - t) (- 2 ^ 63)) as [->|]; [|done].
      symmetry. by apply Z.ltb_ge.
Qed.

Lemma foldl_countVisit_current now v t :
  currentVisitors (foldl (countVisit now) t v)
  = currentVisitors t + Z.of_nat (List.length (List.filter (isCurrent now) v)).
Proof.
  revert t. induction v as [|x v IH]; intros t; simpl; [lia|].
  rewrite IH. simpl. rewrite Abs_Since_lt. unfold isCurrent at 2.
  destruct (Z.abs _ <? _); simpl; lia.
Qed.

Lemma countVisits_current now vm :
  let t := countVisits now vm in
  currentVisitors t = currentCount now vm
  ∧ 0 ≤ currentVisitors t ≤ totalVisits t.
Proof.
  unfold countVisits.
  apply (map_fold_weak_ind (λ t m,
    currentVisitors t = currentCount now m
    ∧ 0 ≤ currentVisitors t ≤ totalVisits t)).
  - unfold currentCount. simpl. rewrite fmap_empty, mapSum_empty. lia.
  - intros fp v m t Hfp (H1 & H2).
    destruct (foldl_countVisit now v t) as (G1 & _).
    rewrite foldl_countVisit_current, G1. unfold currentCount.
    rewrite fmap_insert, mapSum_insert. unfold countOf.
    rewrite lookup_fmap, Hfp. simpl.
    pose proof (filter_length_le (isCurrent now) v).
    unfold currentCount in H1. lia.
Qed.

(** X1.  The unique-visitor count of a snapshot is the number of distinct
    fingerprints among the events the store returned, in whatever order it
    returned them. *)
Theorem unique_visitors_are_fingerprints now d domain events st :
  List d domain = Ok events →
  GetAnalyticsStats now (Some d) domain = Ok st →
  UniqueVisitors st = Z.of_nat (size (fingerprints (GetEvents events))).
Proof.
  intros Hl H. apply GetAnalyticsStats_Ok in H as (events' & Hl' & H).
  rewrite Hl in Hl'. injection Hl' as <-.
  apply aggregate_Ok in H as (c & Hc & ->). simpl.
  apply processEvents_dom in Hc. simpl in Hc.
  rewrite dom_empty_L, fingerprints_sortEvents in Hc.
  rewrite <- (size_dom (D:=gset string)), Hc. f_equal. f_equal. set_solver.
Qed.

Lemma unique_visitors_are_fingerprints_witness :
  ∃ st, GetAnalyticsStats 0 (Samples.store Samples.viewAndClick) "web" = Ok st
        ∧ UniqueVisitors st
          = Z.of_nat (size (fingerprints Samples.viewAndClick)).
Proof.
  eexists. split; [vm_compute; reflexivity|].
  exact (unique_visitors_are_fingerprints 0
    (mkDatabase (λ _, Ok (Some (mkEvents Samples.viewAndClick))) (λ _, None))
    "web" (Some (mkEvents Samples.viewAndClick)) _ eq_refl
    ltac:(vm_compute; reflexivity)).
Defined.

(** X2.  In every snapshot the current visitors are at most the visits, the
    unique visitors are at most the visits, and the visits are at most the
    events returned by the store; none of the three is negative. *)
Theorem snapshot_count_order now d domain events st :
  List d domain = Ok events →
  GetAnalyticsStats now (Some d) domain = Ok st →
  0 ≤ CurrentVisitors st ≤ TotalVisits st
  ∧ 0 ≤ UniqueVisitors st ≤ TotalVisits st
  ∧ TotalVisits st ≤ Z.of_nat (List.length (GetEvents events)).
Proof.
  intros Hl H. apply GetAnalyticsStats_Ok in H as (events' & Hl' & H).
  rewrite Hl in Hl'. injection Hl' as <-.
  apply aggregate_Ok in H as (c & Hc & ->). simpl.
  pose proof (processEvents_visits _ _ _ Hc) as [Hok Hn].
  simpl in Hn. rewrite sessionCount_empty, sortEvents_length in Hn.
  specialize (Hok visitsOk_empty).
  destruct (countVisits_totals now (visitsMap c)) as (H1 & _).
  destruct (countVisits_current now (visitsMap c)) as (_ & H2).
  pose proof (size_le_sessionCount _ Hok). lia.
Qed.

Lemma snapshot_count_order_witness :
  ∃ st, GetAnalyticsStats 0 (Samples.store Samples.threeViews) "web" = Ok st
        ∧ 0 ≤ UniqueVisitors st ≤ TotalVisits st
        ∧ TotalVisits st ≤ 3.
Proof.
  eexists. split; [vm_compute; reflexivity|].
  exact (proj2 (snapshot_count_order 0
    (mkDatabase (λ _, Ok (Some (mkEvents Samples.threeViews))) (λ _, None))
    "web" (Some (mkEvents Samples.threeViews)) _ eq_refl
    ltac:(vm_compute; reflexivity))).
Defined.

(** *** Sources *)

Lemma countSource_sum srcs e host path srcs' :
  extractDomainAndPath (URL e) = Ok (host, path) →
  countSource srcs host (Referrer e) = Ok srcs' →
  mapSum srcs' = mapSum srcs + (if countsAsSource e then 1 else 0).
Proof.
  intros Hurl. unfold countSource, countsAsSource. rewrite Hurl.
  destruct (String.eqb (Referrer e) "").
  - intros [= <-]. apply mapSum_incr.
  - destruct (extractDomainAndPath (Referrer e)) as [[rh rp]| |]; simpl; try done.
    destruct (negb (String.eqb host rh)); intros [= <-].
    + apply mapSum_incr.
    + lia.
Qed.

Lemma processEvents_sources c es c' :
  processEvents c es = Ok c' →
  mapSum (sources c')
  = mapSum (sources c) + Z.of_nat (List.length (List.filter countsAsSource es)).
Proof.
  revert c. induction es as [|e es IH]; intros c H.
  - injection H as <-. simpl. lia.
  - apply processEvents_cons_Ok in H as (c1 & H1 & H2).
    rewrite (IH _ H2).
    apply processEvent_Ok in H1 as (host & path & vm & srcs & Hurl & _ & Hsrc & ->).
    simpl. rewrite (countSource_sum _ _ _ _ _ Hurl Hsrc).
    destruct (countsAsSource e); simpl List.length; lia.
Qed.

(** X3.  The values of the source map sum to the number of returned events
    that have an empty referrer or a referrer whose host is not the host of
    their own URL; so they sum to at most the number of events. *)
Theorem source_map_sum now d domain events st :
  List d domain = Ok events →
  GetAnalyticsStats now (Some d) domain = Ok st →
  rateSum (SourcesRate st)
  = Z.of_nat (List.length (List.filter countsAsSource (GetEvents events)))
  ∧ rateSum (SourcesRate st) ≤ Z.of_nat (List.length (GetEvents events)).
Proof.
  intros Hl H. apply GetAnalyticsStats_Ok in H as (events' & Hl' & H).
  rewrite Hl in Hl'. injection Hl' as <-.
  apply aggregate_Ok in H as (c & Hc & ->). simpl.
  apply processEvents_sources in Hc. simpl in Hc. rewrite mapSum_empty in Hc.
  rewrite (filter_length_Permutation countsAsSource _ _ (sortEvents_Permutation _))
    in Hc.
  pose proof (filter_length_le countsAsSource (GetEvents events)). lia.
Qed.

Lemma source_map_sum_witness :
  ∃ st, GetAnalyticsStats 0 (Samples.store Samples.threeViews) "web" = Ok st
        ∧ rateSum (SourcesRate st) = 3.
Proof.
  eexists. split; [vm_compute; reflexivity|].
  exact (proj1 (source_map_sum 0
    (mkDatabase (λ _, Ok (Some (mkEvents Samples.threeViews))) (λ _, None))
    "web" (Some (mkEvents Samples.threeViews)) _ eq_refl
    ltac:(vm_compute; reflexivity))).
Defined.

(** *** Events and the sessions they fall into *)

Lemma pagesOfVisits_app v w : pagesOfVisits (v ++ w) = pagesOfVisits v + pagesOfVisits w.
Proof.
  unfold pagesOfVisits. induction v as [|x v IH]; simpl; [done|]. rewrite IH. lia.
Qed.

Lemma pageViewTotal_empty : pageViewTotal ∅ = 0.
Proof. unfold pageViewTotal. by rewrite fmap_empty, mapSum_empty. Qed.

Lemma pageViewTotal_insert vm fp v :
  pageViewTotal (<[fp := v]> vm)
  = pageViewTotal vm - pagesOfVisits (default [] (vm !! fp)) + pagesOfVisits v.
Proof.
  unfold pageViewTotal. rewrite fmap_insert, mapSum_insert.
  unfold countOf. rewrite lookup_fmap. by destruct (vm !! fp).
Qed.

Lemma recordVisit_pageViewTotal vm fp page ts vm' :
  recordVisit vm fp page ts = Ok vm' →
  pageViewTotal vm' = pageViewTotal vm + 1.
Proof.
  unfold recordVisit. destruct (vm !! fp) as [v|] eqn:Hv.
  - destruct (last v) as [lv|] eqn:Hlast; [|done].
    apply last_Some in Hlast as [v0 ->].
    destruct (VisitDuration <? _); intros [= <-];
      rewrite ?set_last, pageViewTotal_insert, Hv; simpl;
      rewrite !pagesOfVisits_app; unfold pagesOfVisits; simpl; lia.
  - intros [= <-]. rewrite pageViewTotal_insert, Hv.
    unfold pagesOfVisits. simpl. lia.
Qed.

Lemma processEvents_pageViewTotal c es c' :
  processEvents c es = Ok c' →
  pageViewTotal (visitsMap c')
  = pageViewTotal (visitsMap c) + Z.of_nat (List.length es).
Proof.
  revert c. induction es as [|e es IH]; intros c H.
  - injection H as <-. simpl. lia.
  - apply processEvents_cons_Ok in H as (c1 & H1 & H2).
    rewrite (IH _ H2).
    apply processEvent_Ok in H1 as (host & path & vm & srcs & _ & Hvm & _ & ->).
    simpl. rewrite (recordVisit_pageViewTotal _ _ _ _ _ Hvm).
    simpl List.length. lia.
Qed.

(** X4.  Every returned event is a page of exactly one session, whatever its
    category: the page counts of the reconstructed sessions add up to the
    number of events. *)
Theorem session_pages_add_up events vm :
  reconstructSessions events = Ok vm →
  pageViewTotal vm = Z.of_nat (List.length events)
  ∧ sessionCount vm ≤ pageViewTotal vm.
Proof.
  unfold reconstructSessions.
  destruct (processEvents initCounters (sortEvents events)) as [c| |] eqn:Hc;
    simpl; try done.
  intros [= <-].
  pose proof (processEvents_pageViewTotal _ _ _ Hc) as Hp.
  pose proof (processEvents_visits _ _ _ Hc) as [_ Hn].
  simpl in Hp, Hn.
  rewrite pageViewTotal_empty, sortEvents_length in Hp.
  rewrite sessionCount_empty, sortEvents_length in Hn. lia.
Qed.

Lemma session_pages_add_up_witness :
  ∃ vm, reconstructSessions Samples.threeViews = Ok vm ∧ pageViewTotal vm = 3.
Proof.
  eexists. split; [vm_compute; reflexivity|].
  exact (proj1 (session_pages_add_up Samples.threeViews _
                  ltac:(vm_compute; reflexivity))).
Defined.

(** X5.  The current-visitor count is the number of reconstructed sessions
    whose last page view lies less than five minutes from the clock reading,
    before it or after it; the saturation of [time.Duration] plays no part. *)
Theorem current_visitors_window now d domain events st :
  List d domain = Ok events →
  GetAnalyticsStats now (Some d) domain = Ok st →
  ∃ vm, reconstructSessions (GetEvents events) = Ok vm
        ∧ CurrentVisitors st = currentCount now vm.
Proof.
  intros Hl H. apply GetAnalyticsStats_Ok in H as (events' & Hl' & H).
  rewrite Hl in Hl'. injection Hl' as <-.
  apply aggregate_Ok in H as (c & Hc & ->).
  exists (visitsMap c). split; [by apply reconstructSessions_Ok|].
  simpl. apply countVisits_current.
Qed.

Lemma current_visitors_window_witness :
  ∃ st vm,
    GetAnalyticsStats 2500000000000 (Samples.store Samples.threeViews) "web" = Ok st
    ∧ reconstructSessions Samples.threeViews = Ok vm
    ∧ CurrentVisitors st = currentCount 2500000000000 vm.
Proof.
  eexists.
  destruct (current_visitors_window 2500000000000
    (mkDatabase (λ _, Ok (Some (mkEvents Samples.threeViews))) (λ _, None))
    "web" (Some (mkEvents Samples.threeViews)) _ eq_refl
    ltac:(vm_compute; reflexivity)) as (vm & Hvm & H).
  exists vm. split; [vm_compute; reflexivity|]. split; [exact Hvm|exact H].
Defined.

(** *** The sessions of a single visitor *)

Lemma recordVisit_again vm fp page ts v lv :
  vm !! fp = Some (v ++ [lv]) →
  ∃ v' lv',
    recordVisit vm fp page ts = Ok (<[fp := v' ++ [lv']]> vm)
    ∧ LastPageViewTimestamp lv' = ts
    ∧ List.length (v' ++ [lv'])
      = (List.length (v ++ [lv])
         + (if (VisitDuration <? ts - LastPageViewTimestamp lv)%Z then 1 else 0))%nat.
Proof.
  intros Hv. destruct (VisitDuration <? ts - LastPageViewTimestamp lv) eqn:Hgap.
  - apply Z.ltb_lt in Hgap.
    exists (v ++ [lv]), (newVisit page ts).
    rewrite (recordVisit_split _ _ _ _ v lv) by done.
    rewrite <- app_assoc. simpl. split; [done|]. split; [done|].
    rewrite !length_app. simpl. lia.
  - apply Z.ltb_ge in Hgap.
    exists v, (extendVisit lv page ts).
    rewrite (recordVisit_extend _ _ _ _ v lv) by done.
    split; [done|]. split; [done|]. rewrite !length_app. simpl. lia.
Qed.

Lemma largeGaps_step t1 t2 rest :
  largeGaps (t1 :: t2 :: rest)
  = ((if (VisitDuration <? t2 - t1)%Z then 1 else 0) + largeGaps (t2 :: rest))%nat.
Proof. done. Qed.

Lemma processEvents_single_visitor c es c' fp v lv :
  Forall (λ e, HashedVisit e = fp) es →
  processEvents c es = Ok c' →
  visitsMap c !! fp = Some (v ++ [lv]) →
  ∃ v' lv',
    visitsMap c' = <[fp := v' ++ [lv']]> (visitsMap c)
    ∧ List.length (v' ++ [lv'])
      = (List.length (v ++ [lv])
         + largeGaps (LastPageViewTimestamp lv :: (eventTime <$> es)))%nat.
Proof.
  intros Hall. revert c v lv.
  induction Hall as [|e es He _ IH]; intros c v lv H Hv.
  - injection H as <-. exists v, lv. rewrite insert_id by done. simpl.
    split; [done|lia].
  - apply processEvents_cons_Ok in H as (c1 & H1 & H2).
    apply processEvent_Ok in H1 as (host & path & vm & srcs & _ & Hvm & _ & ->).
    rewrite He in Hvm.
    destruct (recordVisit_again (visitsMap c) fp (removeHtmlSuffix path)
                (AsTime (Timestamp_ e)) v lv Hv) as (v1 & lv1 & Hr & Hlast & Hlen).
    rewrite Hr in Hvm. injection Hvm as <-.
    edestruct (IH _ v1 lv1 H2) as (v' & lv' & Hmap & Hlen');
      [simpl; apply lookup_insert_eq|].
    exists v', lv'. simpl in Hmap. rewrite insert_insert_eq in Hmap.
    split; [done|]. rewrite Hlen', Hlen, Hlast.
    change (eventTime <$> e :: es) with (eventTime e :: (eventTime <$> es)).
    rewrite largeGaps_step.
    change (eventTime e) with (AsTime (Timestamp_ e)). lia.
Qed.

Lemma sessionCount_singleton fp (v : list Visit) :
  sessionCount {[ fp := v ]} = Z.of_nat (List.length v).
Proof.
  rewrite <- insert_empty, sessionCount_insert, sessionCount_empty, lookup_empty.
  simpl. lia.
Qed.

Lemma eventTime_sortEvents es tss :
  tss ≡ₚ eventTime <$> es → Sorted Z.le tss →
  eventTime <$> sortEvents es = tss.
Proof.
  intros Hperm Hsorted. apply (Sorted_unique Z.le).
  - eapply Sorted_fmap; [|apply sortEvents_Sorted]. done.
  - done.
  - by rewrite Hperm, (sortEvents_Permutation es).
Qed.

(** X6.  When all returned events carry one fingerprint, the snapshot has one
    unique visitor, and its visits are one more than the number of steps
    longer than thirty minutes in the ascending sequence of the timestamps.
    So events that follow each other within the timeout make a single visit,
    and a single longer gap makes two. *)
Theorem single_visitor_visits now d domain events fp tss st :
  List d domain = Ok events →
  GetEvents events ≠ [] →
  Forall (λ e, HashedVisit e = fp) (GetEvents events) →
  tss ≡ₚ eventTime <$> GetEvents events →
  Sorted Z.le tss →
  GetAnalyticsStats now (Some d) domain = Ok st →
  UniqueVisitors st = 1
  ∧ TotalVisits st = 1 + Z.of_nat (largeGaps tss).
Proof.
  intros Hl Hne Hall Hperm Hsorted H.
  apply GetAnalyticsStats_Ok in H as (events' & Hl' & H).
  rewrite Hl in Hl'. injection Hl' as <-.
  apply aggregate_Ok in H as (c & Hc & ->).
  pose proof (eventTime_sortEvents _ _ Hperm Hsorted) as Htss.
  assert (Forall (λ e, HashedVisit e = fp) (sortEvents (GetEvents events)))
    as Hall' by (by rewrite (sortEvents_Permutation _)).
  destruct (sortEvents (GetEvents events)) as [|e es] eqn:Hs.
  { apply (f_equal List.length) in Hs. rewrite sortEvents_length in Hs.
    by destruct (GetEvents events). }
  apply processEvents_cons_Ok in Hc as (c1 & H1 & H2).
  inversion Hall' as [|?? He Hes]; subst.
  apply processEvent_Ok in H1 as (host & path & vm & srcs & _ & Hvm & _ & ->).
  simpl in Hvm. rewrite recordVisit_new in Hvm by apply lookup_empty.
  injection Hvm as <-.
  edestruct (processEvents_single_visitor _ _ _ (HashedVisit e) []
               (newVisit (removeHtmlSuffix path) (AsTime (Timestamp_ e))) Hes H2)
    as (v' & lv' & Hmap & Hlen); [simpl; apply lookup_insert_eq|].
  simpl in Hmap. rewrite insert_insert_eq, insert_empty in Hmap.
  destruct (countVisits_totals now (visitsMap c)) as (Ht & _).
  cbn [UniqueVisitors TotalVisits makeStats].
  rewrite Ht, Hmap, map_size_singleton, sessionCount_singleton, Hlen.
  split; [done|]. simpl List.length.
  change (LastPageViewTimestamp (newVisit _ _)) with (eventTime e).
  change (eventTime <$> e :: es) with (eventTime e :: (eventTime <$> es)). lia.
Qed.

Lemma single_visitor_visits_witness :
  ∃ st, GetAnalyticsStats 0 (Samples.store Samples.threeViews) "web" = Ok st
        ∧ UniqueVisitors st = 1 ∧ TotalVisits st = 2.
Proof.
  eexists. split; [vm_compute; reflexivity|].
  apply (single_visitor_visits 0
    (mkDatabase (λ _, Ok (Some (mkEvents Samples.threeViews))) (λ _, None))
    "web" (Some (mkEvents Samples.threeViews)) "F1"
    [0; 300000000000; 2400000000000] _ eq_refl).
  - discriminate.
  - repeat constructor.
  - apply (bool_decide_unpack _). by vm_compute.
  - repeat constructor; by vm_compute.
  - vm_compute. reflexivity.
Defined.

(** *** The order in which the store returns the events *)

Lemma foldl_comm_Permutation {A B} (f : B → A → B) (l l' : list A) (b : B) :
  (∀ b x y, f (f b x) y = f (f b y) x) →
  l ≡ₚ l' → foldl f b l = foldl f b l'.
Proof.
  intros Hf H. revert b.
  induction H as [|x l l' _ IH|x y l|l l' l'' _ IH1 _ IH2]; intros b; simpl.
  - done.
  - apply IH.
  - by rewrite Hf.
  - by rewrite IH1, IH2.
Qed.

Lemma countSource_sourceKey srcs e host path srcs' :
  extractDomainAndPath (URL e) = Ok (host, path) →
  countSource srcs host (Referrer e) = Ok srcs' →
  srcs' = from_option (λ k, incr k srcs) srcs (sourceKey e).
Proof.
  intros Hurl. unfold countSource, sourceKey. rewrite Hurl.
  destruct (String.eqb (Referrer e) ""); [by intros [= <-]|].
  destruct (extractDomainAndPath (Referrer e)) as [[rh rp]| |]; simpl; try done.
  by destruct (String.eqb host rh); intros [= <-].
Qed.

(** What the loop leaves in the per-event counters, event by event. *)
Lemma processEvents_folds c es c' :
  processEvents c es = Ok c' →
  pages c' = foldl (λ m e, incr (pageKey e) m) (pages c) es
  ∧ sources c'
    = foldl (λ m e, from_option (λ k, incr k m) m (sourceKey e)) (sources c) es
  ∧ devices c' = foldl (λ m e, incr (deviceBucket (Device_ e)) m) (devices c) es
  ∧ oss c' = foldl (λ m e, incr (orUnknown (OS e)) m) (oss c) es
  ∧ browsers c' = foldl (λ m e, incr (orUnknown (Browser e)) m) (browsers c) es
  ∧ pageViewsCount c'
    = foldl (λ n e, if isPageview e then n + 1 else n) (pageViewsCount c) es.
Proof.
  revert c. induction es as [|e es IH]; intros c H.
  - by injection H as <-.
  - apply processEvents_cons_Ok in H as (c1 & H1 & H2).
    apply IH in H2 as (Hp & Hs & Hd & Ho & Hb & Hv).
    apply processEvent_Ok in H1 as (host & path & vm & srcs & Hurl & _ & Hsrc & ->).
    assert (pageKey e = removeHtmlSuffix path) as Hk
      by (unfold pageKey; by rewrite Hurl).
    simpl in *. rewrite Hp, Hs, Hd, Ho, Hb, Hv, Hk.
    by rewrite (countSource_sourceKey _ _ _ _ _ Hurl Hsrc).
Qed.

Lemma aggregate_is_Ok now es :
  is_Ok (aggregate now es) ↔ ¬ ∃ e, e ∈ es ∧ malformed e.
Proof.
  rewrite <- (aggregate_Err now). pose proof (aggregate_no_panic now es) as Hp.
  destruct (aggregate now es) as [st|m|].
  - split; [intros _ [m ?]; done|by eexists].
  - split; [by intros [st ?]|]. intros Hn. destruct Hn. by eexists.
  - by destruct Hp.
Qed.

(** X7.  The store promises no order.  If it had returned the same events in
    another order, the aggregation would have succeeded as well, and the
    page, source, device, OS and browser maps, the page-view count and the
    unique-visitor count would be the same, even for events with equal
    timestamps. *)
Theorem per_event_counts_ignore_order now d d' domain domain' events events' st :
  List d domain = Ok events →
  List d' domain' = Ok events' →
  GetEvents events ≡ₚ GetEvents events' →
  GetAnalyticsStats now (Some d) domain = Ok st →
  ∃ st', GetAnalyticsStats now (Some d') domain' = Ok st'
    ∧ PagesRate st' = PagesRate st
    ∧ SourcesRate st' = SourcesRate st
    ∧ DevicesRate st' = DevicesRate st
    ∧ OSsRate st' = OSsRate st
    ∧ BrowsersRate st' = BrowsersRate st
    ∧ TotalPageViews st' = TotalPageViews st
    ∧ UniqueVisitors st' = UniqueVisitors st.
Proof.
  intros Hl Hl' Hperm H.
  apply GetAnalyticsStats_Ok in H as (ev & Hev & H).
  rewrite Hl in Hev. injection Hev as <-.
  assert (is_Ok (aggregate now (GetEvents events'))) as [st' H'].
  { apply aggregate_is_Ok. intros (e & He & Hbad).
    assert (is_Ok (aggregate now (GetEvents events))) as Hok by (by eexists).
    apply aggregate_is_Ok in Hok. apply Hok. exists e. by rewrite Hperm. }
  exists st'. split; [simpl; by rewrite Hl'|].
  apply aggregate_Ok in H as (c & Hc & ->).
  apply aggregate_Ok in H' as (c' & Hc' & ->).
  assert (sortEvents (GetEvents events') ≡ₚ sortEvents (GetEvents events))
    as Hsorted by (by rewrite !sortEvents_Permutation).
  pose proof (processEvents_dom _ _ _ Hc) as Hdom.
  pose proof (processEvents_dom _ _ _ Hc') as Hdom'.
  apply processEvents_folds in Hc as (Hp & Hs & Hd & Ho & Hb & Hv).
  apply processEvents_folds in Hc' as (Hp' & Hs' & Hd' & Ho' & Hb' & Hv').
  simpl. rewrite Hp, Hs, Hd, Ho, Hb, Hv, Hp', Hs', Hd', Ho', Hb', Hv'.
  split_and!.
  - f_equal. apply foldl_comm_Permutation; [|done]. intros. apply incr_comm.
  - f_equal. apply foldl_comm_Permutation; [|done]. intros m x y.
    destruct (sourceKey x), (sourceKey y); simpl; try done. apply incr_comm.
  - f_equal. apply foldl_comm_Permutation; [|done]. intros. apply incr_comm.
  - f_equal. apply foldl_comm_Permutation; [|done]. intros. apply incr_comm.
  - f_equal. apply foldl_comm_Permutation; [|done]. intros. apply incr_comm.
  - apply foldl_comm_Permutation; [|done]. intros n x y.
    destruct (isPageview x), (isPageview y); lia.
  - rewrite <- !(size_dom (D:=gset string)), Hdom, Hdom'.
    unfold fingerprints. by rewrite Hsorted.
Qed.

Lemma per_event_counts_ignore_order_witness :
  ∃ st st',
    GetAnalyticsStats 0 (Samples.store Samples.threeViews) "web" = Ok st
    ∧ GetAnalyticsStats 0 (Samples.store (reverse Samples.threeViews)) "web" = Ok st'
    ∧ PagesRate st' = PagesRate st.
Proof.
  eexists.
  destruct (per_event_counts_ignore_order 0
    (mkDatabase (λ _, Ok (Some (mkEvents Samples.threeViews))) (λ _, None))
    (mkDatabase (λ _, Ok (Some (mkEvents (reverse Samples.threeViews)))) (λ _, None))
    "web" "web" (Some (mkEvents Samples.threeViews))
    (Some (mkEvents (reverse Samples.threeViews))) _ eq_refl eq_refl
    ltac:(symmetry; apply reverse_Permutation)
    ltac:(vm_compute; reflexivity)) as (st' & H' & Hp & _).
  exists st'. split; [vm_compute; reflexivity|]. split; [exact H'|exact Hp].
Defined.

(** *** What the normalizer returns *)

Lemma spanNonSlash_spec s d t :
  spanNonSlash s = (d, t) →
  noSlash d = true ∧ s = d +:+ t ∧ (t = "" ∨ startsWithSlash t = true).
Proof.
  revert d t. induction s as [|c r IH]; intros d t; simpl.
  - intros [= <- <-]. auto.
  - destruct (isSlash c) eqn:Hc.
    + intros [= <- <-]. simpl. rewrite Hc. auto.
    + destruct (spanNonSlash r) as [d' t']. intros [= <- <-].
      destruct (IH d' t' eq_refl) as (Hd & -> & Ht). simpl. rewrite Hc. auto.
Qed.

Lemma dotStar_spec t :
  noNewline (dotStar t) = true
  ∧ (startsWithSlash t = true → startsWithSlash (dotStar t) = true).
Proof.
  split.
  - induction t as [|c r IH]; simpl; [done|].
    destruct (isNewline c) eqn:Hc; simpl; [done|]. by rewrite Hc, IH.
  - destruct t as [|c r]; simpl; [done|]. intros Hc.
    destruct (isNewline c) eqn:Hn; [|done].
    unfold isSlash, isNewline in *.
    apply Ascii.eqb_eq in Hc, Hn. congruence.
Qed.

Lemma matchHostPath_spec s d p :
  matchHostPath s = Some (d, p) →
  d ≠ "" ∧ noSlash d = true ∧ noNewline p = true
  ∧ (p = "" ∨ startsWithSlash p = true).
Proof.
  unfold matchHostPath. destruct (spanNonSlash s) as [d' t] eqn:Hs.
  apply spanNonSlash_spec in Hs as (Hd & _ & Ht).
  destruct d' as [|c d']; [done|]. intros [= <- <-].
  destruct (dotStar_spec t) as [Hn Hsl].
  split; [done|]. split; [done|]. split; [done|].
  destruct Ht as [->|Ht]; [by left|right; auto].
Qed.

Lemma FindStringSubmatch_spec s d p :
  FindStringSubmatch s = Some (d, p) →
  d ≠ "" ∧ noSlash d = true ∧ noNewline p = true
  ∧ (p = "" ∨ startsWithSlash p = true).
Proof.
  induction s as [|c r IH]; cbn [FindStringSubmatch].
  - destruct (matchHere "") as [q|] eqn:Hm; [|done].
    intros [= ->]. unfold matchHere in Hm. simpl in Hm. done.
  - destruct (matchHere (String c r)) as [q|] eqn:Hm; [|done].
    intros [= ->]. unfold matchHere in Hm.
    destruct (stripScheme (String c r)) as [body|].
    + destruct (matchHostPath body) as [q|] eqn:Hb.
      * injection Hm as ->. by apply matchHostPath_spec in Hb.
      * by apply matchHostPath_spec in Hm.
    + by apply matchHostPath_spec in Hm.
Qed.

Lemma extractDomainAndPath_Ok_spec link host path :
  extractDomainAndPath link = Ok (host, path) →
  host ≠ "" ∧ noSlash host = true
  ∧ startsWithSlash path = true ∧ noNewline path = true.
Proof.
  unfold extractDomainAndPath.
  destruct (FindStringSubmatch link) as [[d p]|] eqn:Hf; [|done].
  apply FindStringSubmatch_spec in Hf as (Hd & Hns & Hnl & Hp).
  intros [= <- <-]. split; [done|]. split; [done|].
  destruct (String.eqb_spec p "") as [->|Hne]; [done|].
  destruct Hp as [->|Hp]; done.
Qed.

(** X8.  Whatever the link, a host that [extractDomainAndPath] returns is
    not empty and holds no slash, and a path it returns starts with a slash
    and holds no line feed; in particular a path is never empty. *)
Theorem extracted_host_and_path link host path :
  extractDomainAndPath link = Ok (host, path) →
  host ≠ "" ∧ noSlash host = true
  ∧ startsWithSlash path = true ∧ noNewline path = true.
Proof. apply extractDomainAndPath_Ok_spec. Qed.

Lemma extracted_host_and_path_witness :
  startsWithSlash "/a/b.html" = true ∧ noSlash "example.com:8080" = true.
Proof.
  destruct (extracted_host_and_path "//example.com:8080/a/b.html"
              "example.com:8080" "/a/b.html" eq_refl) as (_ & H1 & H2 & _).
  split; [exact H2|exact H1].
Defined.

(** *** The categorical maps, key by key *)

Lemma foldl_incr_count {A} (f : A → option string) (l : list A) m k :
  countOf (foldl (λ m x, from_option (λ j, incr j m) m (f x)) m l) k
  = countOf m k
    + Z.of_nat (List.length (List.filter (λ x, bool_decide (f x = Some k)) l)).
Proof.
  revert m. induction l as [|x l IH]; intros m; simpl; [lia|].
  rewrite IH. destruct (f x) as [j|]; simpl.
  - rewrite countOf_incr. case_bool_decide as Hj; case_decide as Hk;
      simpl List.length; try lia; congruence.
  - lia.
Qed.

Lemma foldl_incr_dom {A} (f : A → option string) (l : list A) (m : gmap string Z) :
  dom (foldl (λ m x, from_option (λ j, incr j m) m (f x)) m l)
  = list_to_set (omap f l) ∪ dom m.
Proof.
  revert m. induction l as [|x l IH]; intros m; simpl; [set_solver|].
  rewrite IH. destruct (f x) as [j|]; simpl; [|done].
  unfold incr. rewrite dom_insert_L. set_solver.
Qed.

Lemma foldl_incr_total {A} (f : A → string) (l : list A) (m : gmap string Z) :
  foldl (λ m x, incr (f x) m) m l
  = foldl (λ m x, from_option (λ j, incr j m) m (Some (f x))) m l.
Proof. done. Qed.

Lemma filter_length_ext {A} (p q : A → bool) (l : list A) :
  (∀ x, x ∈ l → p x = q x) →
  List.length (List.filter p l) = List.length (List.filter q l).
Proof.
  induction l as [|x l IH]; intros H; simpl; [done|].
  rewrite (H x) by (by left).
  specialize (IH (λ y Hy, H y (list_elem_of_further _ _ _ Hy))).
  destruct (q x); simpl; by rewrite IH.
Qed.

(** X9.  Each categorical map that is filled event by event holds, under
    every key, the number of returned events that fall under that key: the
    events of that page, of that source, of that device bucket, of that OS
    and of that browser. *)
Theorem per_event_maps_count now d domain events st k :
  List d domain = Ok events →
  GetAnalyticsStats now (Some d) domain = Ok st →
  let es := GetEvents events in
  rateCount (PagesRate st) k
    = countEvents (λ e, bool_decide (pageKey e = k)) es
  ∧ rateCount (SourcesRate st) k
    = countEvents (λ e, bool_decide (sourceKey e = Some k)) es
  ∧ rateCount (DevicesRate st) k
    = countEvents (λ e, bool_decide (deviceBucket (Device_ e) = k)) es
  ∧ rateCount (OSsRate st) k
    = countEvents (λ e, bool_decide (orUnknown (OS e) = k)) es
  ∧ rateCount (BrowsersRate st) k
    = countEvents (λ e, bool_decide (orUnknown (Browser e) = k)) es.
Proof.
  intros Hl H es. subst es.
  apply GetAnalyticsStats_Ok in H as (ev & Hev & H).
  rewrite Hl in Hev. injection Hev as <-.
  apply aggregate_Ok in H as (c & Hc & ->).
  apply processEvents_folds in Hc as (Hp & Hs & Hd & Ho & Hb & _).
  unfold rateCount, countEvents. simpl.
  rewrite Hp, Hs, Hd, Ho, Hb, !foldl_incr_total, !foldl_incr_count.
  change (countOf (pages initCounters) k) with 0.
  change (countOf (sources initCounters) k) with 0.
  change (countOf (devices initCounters) k) with 0.
  change (countOf (oss initCounters) k) with 0.
  change (countOf (browsers initCounters) k) with 0.
  rewrite !(filter_length_Permutation _ _ _ (sortEvents_Permutation _)).
  split_and!; rewrite Z.add_0_l; f_equal; apply filter_length_ext; intros e _;
    apply bool_decide_ext; naive_solver.
Qed.

Lemma per_event_maps_count_witness :
  ∃ st, GetAnalyticsStats 0 (Samples.store Samples.threeViews) "web" = Ok st
        ∧ rateCount (SourcesRate st) "Direct/None" = 2.
Proof.
  eexists. split; [vm_compute; reflexivity|].
  exact (proj1 (proj2 (per_event_maps_count 0
    (mkDatabase (λ _, Ok (Some (mkEvents Samples.threeViews))) (λ _, None))
    "web" (Some (mkEvents Samples.threeViews)) _ "Direct/None" eq_refl
    ltac:(vm_compute; reflexivity)))).
Defined.

(** *** The names of the buckets *)

Lemma removeHtmlSuffix_slash p :
  startsWithSlash p = true → startsWithSlash (removeHtmlSuffix p) = true.
Proof.
  destruct p as [|c r]; [done|]. simpl startsWithSlash. unfold isSlash at 1.
  intros ->%Ascii.eqb_eq. reflexivity.
Qed.

Lemma slashKeys_empty : slashKeys ∅.
Proof. intros k. by rewrite dom_empty_L. Qed.

Lemma slashKeys_incr k m :
  startsWithSlash k = true → slashKeys m → slashKeys (incr k m).
Proof.
  intros Hk Hm j. unfold incr. rewrite dom_insert_L.
  intros [->%elem_of_singleton|Hj]%elem_of_union; [done|by apply Hm].
Qed.

Lemma processEvent_slash c e c' :
  processEvent c e = Ok c' →
  (slashKeys (pages c) → slashKeys (pages c'))
  ∧ (slashVisits (visitsMap c) → slashVisits (visitsMap c')).
Proof.
  intros H.
  apply processEvent_Ok in H as (host & path & vm & srcs & Hurl & Hvm & _ & ->).
  apply extractDomainAndPath_Ok_spec in Hurl as (_ & _ & Hp & _).
  apply removeHtmlSuffix_slash in Hp. simpl. split.
  - by apply slashKeys_incr.
  - intros Hv fp v x Hfp Hx.
    destruct (recordVisit_elems _ _ _ _ _ _ _ _ Hvm Hfp Hx)
      as [(v0 & Hv0 & Hx0)|[->|(v0 & lv & Hv0 & Hlv & ->)]]; simpl.
    + by apply (Hv _ _ _ Hv0).
    + done.
    + split; [|done]. by apply (Hv _ _ _ Hv0 Hlv).
Qed.

Lemma processEvents_slash c es c' :
  processEvents c es = Ok c' →
  (slashKeys (pages c) → slashKeys (pages c'))
  ∧ (slashVisits (visitsMap c) → slashVisits (visitsMap c')).
Proof.
  revert c. induction es as [|e es IH]; intros c H.
  - by injection H as <-.
  - apply processEvents_cons_Ok in H as (c1 & H1 & H2).
    apply processEvent_slash in H1. apply IH in H2. naive_solver.
Qed.

Lemma foldl_countVisit_slash now v t :
  (∀ x, x ∈ v → startsWithSlash (EntryPage x) = true
                ∧ startsWithSlash (ExitPage x) = true) →
  slashKeys (entryPages t) ∧ slashKeys (exitPages t) →
  slashKeys (entryPages (foldl (countVisit now) t v))
  ∧ slashKeys (exitPages (foldl (countVisit now) t v)).
Proof.
  revert t. induction v as [|x v IH]; intros t Hv Ht; [done|].
  simpl. apply IH.
  - intros y Hy. apply Hv. by right.
  - destruct (Hv x) as [He Hx]; [by left|]. destruct Ht.
    simpl. split; by apply slashKeys_incr.
Qed.

Lemma countVisits_slash now vm :
  slashVisits vm →
  slashKeys (entryPages (countVisits now vm))
  ∧ slashKeys (exitPages (countVisits now vm)).
Proof.
  unfold countVisits.
  apply (map_fold_weak_ind (λ t m,
    slashVisits m → slashKeys (entryPages t) ∧ slashKeys (exitPages t))).
  - intros _. simpl. split; apply slashKeys_empty.
  - intros fp v m t Hfp IH Hv. apply foldl_countVisit_slash.
    + intros x Hx. apply (Hv fp v x); [apply lookup_insert_eq|done].
    + apply IH. intros fp' v' x Hfp' Hx. apply (Hv fp' v' x); [|done].
      rewrite lookup_insert_ne; [done|]. intros ->. congruence.
Qed.

Lemma deviceBucket_names d :
  deviceBucket d ∈ ["Desktop"; "Mobile"; "Tablet"; "Bot"; "Unknown"].
Proof.
  unfold deviceBucket.
  destruct (GetDesktop d), (GetMobile d), (GetTablet d), (GetBot d); set_solver.
Qed.

Lemma orUnknown_nonempty s : orUnknown s ≠ "".
Proof. unfold orUnknown. by destruct (String.eqb_spec s ""). Qed.

(** X10.  In every snapshot the keys of the page map, of the entry-page map
    and of the exit-page map start with a slash, the keys of the device map
    are among the five bucket names, and no key of the OS map or of the
    browser map is empty. *)
Theorem bucket_names now d domain st :
  GetAnalyticsStats now (Some d) domain = Ok st →
  (∀ k, k ∈ rateKeys (PagesRate st) ∪ rateKeys (EntryPagesRate st)
          ∪ rateKeys (ExitPagesRate st) → startsWithSlash k = true)
  ∧ (∀ k, k ∈ rateKeys (DevicesRate st) →
          k ∈ ["Desktop"; "Mobile"; "Tablet"; "Bot"; "Unknown"])
  ∧ (∀ k, k ∈ rateKeys (OSsRate st) ∪ rateKeys (BrowsersRate st) → k ≠ "").
Proof.
  intros H. apply GetAnalyticsStats_Ok in H as (ev & _ & H).
  apply aggregate_Ok in H as (c & Hc & ->).
  pose proof (processEvents_slash _ _ _ Hc) as [Hp Hv].
  specialize (Hp slashKeys_empty).
  assert (slashVisits (visitsMap c)) as Hv'.
  { apply Hv. intros fp v x Hfp. simpl in Hfp. by rewrite lookup_empty in Hfp. }
  destruct (countVisits_slash now _ Hv') as [Hen Hex].
  apply processEvents_folds in Hc as (_ & _ & Hd & Ho & Hb & _).
  simpl in Hd, Ho, Hb. unfold rateKeys. simpl. split_and!.
  - intros k [[Hk|Hk]%elem_of_union|Hk]%elem_of_union; auto.
  - intros k. rewrite Hd, foldl_incr_total, foldl_incr_dom.
    rewrite dom_empty_L, elem_of_union, elem_of_list_to_set.
    intros [(e & _ & [= <-])%list_elem_of_omap|[]%elem_of_empty].
    apply deviceBucket_names.
  - intros k. rewrite Ho, Hb, !foldl_incr_total, !foldl_incr_dom.
    rewrite !dom_empty_L, !elem_of_union, !elem_of_list_to_set.
    intros [[(e & _ & [= <-])%list_elem_of_omap|[]%elem_of_empty]
           |[(e & _ & [= <-])%list_elem_of_omap|[]%elem_of_empty]];
      apply orUnknown_nonempty.
Qed.

Lemma bucket_names_witness :
  ∃ st, GetAnalyticsStats 0 (Samples.store Samples.threeViews) "web" = Ok st
        ∧ ∀ k, k ∈ rateKeys (DevicesRate st) →
               k ∈ ["Desktop"; "Mobile"; "Tablet"; "Bot"; "Unknown"].
Proof.
  eexists. split; [vm_compute; reflexivity|].
  exact (proj1 (proj2 (bucket_names 0
    (mkDatabase (λ _, Ok (Some (mkEvents Samples.threeViews))) (λ _, None))
    "web" _ ltac:(vm_compute; reflexivity)))).
Defined.

(** *** What a scrape sends *)








(** *** The in-memory store *)

Import inmem.

Lemma append_nil (t : string) : "" +:+ t = t.
Proof. reflexivity. Qed.

Lemma append_cons a (s t : string) : String a s +:+ t = String a (s +:+ t).
Proof. reflexivity. Qed.

Lemma hasPrefix_app p s : hasPrefix p (p +:+ s) = true.
Proof.
  induction p as [|a p IH]; simpl; [done|].
  by rewrite Ascii.eqb_refl, IH.
Qed.

Lemma append_NUL_inj s1 s2 :
  s1 +:+ String NUL "" = s2 +:+ String NUL "" → s1 = s2.
Proof.
  revert s2. induction s1 as [|a s1 IH]; intros [|b s2]; simpl; try done.
  - intros [= _ H]. by destruct s2.
  - intros [= _ H]. by destruct s1.
  - intros [= -> H]. f_equal. by apply IH.
Qed.

Lemma fromObject_Some field v :
  fromObject field = Some v ↔ field ≠ "" ∧ v = field +:+ String NUL "".
Proof.
  unfold fromObject. destruct (String.eqb_spec field "") as [->|Hne].
  - split; [done|]. by intros [? _].
  - split; [by intros [= <-]|]. by intros [_ ->].
Qed.

Lemma fromObject_inj f g v : fromObject f = Some v → fromObject g = Some v → f = g.
Proof.
  intros [_ ->]%fromObject_Some [_ H]%fromObject_Some. by apply append_NUL_inj.
Qed.

(** A prefix seek for a domain without NUL reaches exactly the keys of that
    domain, when the domains in the index have no NUL either. *)
Lemma hasPrefix_domain a b k :
  noNul a = true → noNul b = true →
  hasPrefix (fromArgs a) ((b +:+ String NUL "") +:+ k) = true ↔ a = b.
Proof.
  unfold fromArgs. revert b.
  induction a as [|x a IH]; intros [|y b];
    repeat (rewrite append_cons || rewrite append_nil); cbn [hasPrefix noNul]; intros Ha Hb.
  - by rewrite Ascii.eqb_refl.
  - apply andb_true_iff in Hb as [Hy _].
    rewrite Ascii.eqb_sym. destruct (Ascii.eqb y NUL); [done|].
    split; done.
  - apply andb_true_iff in Ha as [Hx _].
    destruct (Ascii.eqb x NUL); [done|]. split; done.
  - apply andb_true_iff in Ha as [_ Ha]. apply andb_true_iff in Hb as [_ Hb].
    rewrite andb_true_iff, (IH b Ha Hb). split.
    + intros [->%Ascii.eqb_eq ->]. done.
    + intros [= -> ->]. by rewrite Ascii.eqb_refl.
Qed.

Lemma elem_of_stored d x : x ∈ stored d ↔ ∃ k, records d !! k = Some x.
Proof.
  unfold stored. rewrite list_elem_of_fmap. split.
  - intros ([k e] & -> & H). exists k. by apply elem_of_map_to_list in H.
  - intros [k H]. exists (k, x). split; [done|]. by apply elem_of_map_to_list.
Qed.

Lemma elem_of_listed d domain x :
  x ∈ listed d domain
  ↔ ∃ k, records d !! k = Some x ∧ reached domain (k, x) = true.
Proof.
  unfold listed, List. simpl. rewrite list_elem_of_fmap. split.
  - intros ([k e] & -> & H). exists k.
    apply list_elem_of_In, filter_In in H as [H Hr].
    apply list_elem_of_In, elem_of_map_to_list in H. done.
  - intros (k & H & Hr). exists (k, x). split; [done|].
    apply list_elem_of_In, filter_In. split; [|done].
    by apply list_elem_of_In, elem_of_map_to_list.
Qed.

Lemma listed_stored d domain x : x ∈ listed d domain → x ∈ stored d.
Proof.
  rewrite elem_of_listed, elem_of_stored. intros (k & H & _). by exists k.
Qed.

Lemma wellKeyed_empty : wellKeyed (mkInMem ∅).
Proof. intros k e H. simpl in H. by rewrite lookup_empty in H. Qed.

Lemma Insert_Ok d msg d' :
  Insert d msg = Ok d' ↔
  ID msg ≠ "" ∧ Domain msg ≠ ""
  ∧ d' = mkInMem (<[ID msg +:+ String NUL "" := msg]> (records d)).
Proof.
  unfold Insert.
  destruct (fromObject (ID msg)) as [k|] eqn:Hk.
  - apply fromObject_Some in Hk as [Hid ->].
    destruct (fromObject (Domain msg)) as [v|] eqn:Hv.
    + apply fromObject_Some in Hv as [Hdom _].
      split; [by intros [= <-]|]. by intros (_ & _ & ->).
    + split; [done|]. intros (_ & Hdom & _).
      assert (fromObject (Domain msg) = Some (Domain msg +:+ String NUL ""))
        by by apply fromObject_Some.
      congruence.
  - split; [done|]. intros (Hid & _ & _).
    assert (fromObject (ID msg) = Some (ID msg +:+ String NUL ""))
      by by apply fromObject_Some.
    congruence.
Qed.

Lemma Insert_wellKeyed d msg d' :
  wellKeyed d → Insert d msg = Ok d' → wellKeyed d'.
Proof.
  intros Hw (Hid & Hdom & ->)%Insert_Ok k e. simpl.
  destruct (decide (k = ID msg +:+ String NUL "")) as [->|Hne].
  - rewrite lookup_insert_eq. intros [= <-]. split; [|done].
    by apply fromObject_Some.
  - rewrite lookup_insert_ne by done. apply Hw.
Qed.

Lemma insertAll_cons_Ok d e es d' :
  insertAll d (e :: es) = Ok d' ↔
  ∃ d1, Insert d e = Ok d1 ∧ insertAll d1 es = Ok d'.
Proof.
  simpl. destruct (Insert d e) as [d1| |]; simpl.
  - split; [by exists d1|]. by intros (? & [= <-] & ?).
  - split; [done|]. by intros (? & [=] & _).
  - split; [done|]. by intros (? & [=] & _).
Qed.

Lemma insertAll_wellKeyed d es d' :
  wellKeyed d → insertAll d es = Ok d' → wellKeyed d'.
Proof.
  revert d. induction es as [|e es IH]; intros d Hw H.
  - by injection H as <-.
  - apply insertAll_cons_Ok in H as (d1 & H1 & H2).
    eapply IH; [|done]. by eapply Insert_wellKeyed.
Qed.

Lemma wellKeyed_reached d k x domain :
  wellKeyed d → records d !! k = Some x →
  reached domain (k, x)
  = hasPrefix (fromArgs domain)
      ((Domain x +:+ String NUL "") +:+ (ID x +:+ String NUL "")).
Proof.
  intros Hw H. destruct (Hw _ _ H) as [[_ ->]%fromObject_Some Hdom].
  unfold reached, domainIndexKey. simpl.
  assert (fromObject (Domain x) = Some (Domain x +:+ String NUL "")) as ->
    by by apply fromObject_Some.
  done.
Qed.

Lemma listed_domain d domain x :
  wellKeyed d → noNul domain = true →
  (∀ e, e ∈ stored d → noNul (Domain e) = true) →
  x ∈ listed d domain ↔ x ∈ stored d ∧ Domain x = domain.
Proof.
  intros Hw Hn Hs. rewrite elem_of_listed, elem_of_stored. split.
  - intros (k & H & Hr). split; [by exists k|].
    rewrite (wellKeyed_reached _ _ _ _ Hw H) in Hr.
    symmetry. apply hasPrefix_domain in Hr; [done..|].
    apply Hs, elem_of_stored. by exists k.
  - intros [[k H] <-]. exists k. split; [done|].
    rewrite (wellKeyed_reached _ _ _ _ Hw H).
    apply hasPrefix_domain; [..|done]; apply Hs, elem_of_stored; by exists k.
Qed.

Lemma NoDup_listed d domain : wellKeyed d → NoDup (ID <$> listed d domain).
Proof.
  intros Hw. unfold listed, List. simpl. rewrite <- list_fmap_compose.
  apply NoDup_fmap_2_strong.
  - intros [k1 e1] [k2 e2] H1 H2 Heq. simpl in Heq.
    apply list_elem_of_In, filter_In in H1 as [H1 _].
    apply list_elem_of_In, filter_In in H2 as [H2 _].
    apply list_elem_of_In, elem_of_map_to_list in H1, H2.
    destruct (Hw _ _ H1) as [[_ ->]%fromObject_Some _].
    destruct (Hw _ _ H2) as [[_ ->]%fromObject_Some _].
    rewrite Heq in H1. rewrite H1 in H2. by injection H2 as ->.
  - apply (proj2 (NoDup_ListNoDup _)), List.NoDup_filter,
      (proj1 (NoDup_ListNoDup _)), NoDup_map_to_list.
Qed.

Lemma Insert_stored d msg d' x :
  wellKeyed d → Insert d msg = Ok d' →
  x ∈ stored d' ↔ x = msg ∨ (x ∈ stored d ∧ ID x ≠ ID msg).
Proof.
  intros Hw (Hid & Hdom & ->)%Insert_Ok. rewrite !elem_of_stored. simpl. split.
  - intros [k H].
    destruct (decide (k = ID msg +:+ String NUL "")) as [->|Hne].
    + rewrite lookup_insert_eq in H. injection H as <-. by left.
    + rewrite lookup_insert_ne in H by done. right. split; [by exists k|].
      intros Heq. destruct (Hw _ _ H) as [[_ ->]%fromObject_Some _].
      by rewrite Heq in Hne.
  - intros [->|[[k H] Hne]].
    + exists (ID msg +:+ String NUL ""). by rewrite lookup_insert_eq.
    + exists k. rewrite lookup_insert_ne; [done|].
      intros <-. destruct (Hw _ _ H) as [[_ Hk]%fromObject_Some _].
      by apply append_NUL_inj in Hk.
Qed.

Lemma insertAll_stored_sub d0 es d x :
  wellKeyed d0 → insertAll d0 es = Ok d →
  x ∈ stored d → x ∈ stored d0 ∨ x ∈ es.
Proof.
  revert d0. induction es as [|e es IH]; intros d0 Hw H Hx.
  - injection H as <-. by left.
  - apply insertAll_cons_Ok in H as (d1 & H1 & H2).
    destruct (IH d1 (Insert_wellKeyed _ _ _ Hw H1) H2 Hx) as [Hx1|Hx1].
    + apply (Insert_stored _ _ _ _ Hw H1) in Hx1 as [->|[? _]].
      * right. by left.
      * by left.
    + right. by right.
Qed.

Lemma insertAll_stored d0 es d :
  wellKeyed d0 → insertAll d0 es = Ok d →
  NoDup (ID <$> es) →
  (∀ e x, e ∈ es → x ∈ stored d0 → ID x ≠ ID e) →
  ∀ x, x ∈ stored d ↔ x ∈ stored d0 ∨ x ∈ es.
Proof.
  revert d0. induction es as [|e es IH]; intros d0 Hw H Hnd Hfresh x.
  - injection H as <-. split; [by left|]. intros [?|H]; [done|]. by inversion H.
  - apply insertAll_cons_Ok in H as (d1 & H1 & H2).
    rewrite fmap_cons in Hnd. apply NoDup_cons in Hnd as [Hnotin Hnd].
    rewrite (IH d1 (Insert_wellKeyed _ _ _ Hw H1) H2 Hnd).
    + rewrite (Insert_stored _ _ _ _ Hw H1), elem_of_cons. split.
      * intros [[->|[? _]]|?]; auto.
      * intros [Hx|[->|?]]; auto. left. right. split; [done|].
        apply (Hfresh e x); [by left|done].
    + intros e' y He' Hy.
      apply (Insert_stored _ _ _ _ Hw H1) in Hy as [->|[Hy _]].
      * intros Heq. apply Hnotin. rewrite Heq.
        apply list_elem_of_fmap. by exists e'.
      * apply Hfresh; [by right|done].
Qed.

Lemma stored_empty x : x ∈ stored (mkInMem ∅) ↔ False.
Proof. unfold stored. simpl. rewrite map_to_list_empty. by rewrite elem_of_nil. Qed.

Lemma insertAll_no_panic d es : insertAll d es ≠ Panic.
Proof.
  revert d. induction es as [|e es IH]; intros d; simpl; [done|].
  unfold Insert. destruct (fromObject (ID e)); [|done].
  destruct (fromObject (Domain e)); [|done]. simpl. apply IH.
Qed.



(** X14.  Inserting a sequence of events never panics, and it succeeds
    exactly when every event has an ID and a domain: the first event
    without one of them ends it with the error of the index. *)
Theorem insert_all_succeeds d es :
  insertAll d es ≠ Panic
  ∧ (is_Ok (insertAll d es)
     ↔ Forall (λ e, ID e ≠ "" ∧ Domain e ≠ "") es).
Proof.
  split; [apply insertAll_no_panic|].
  revert d. induction es as [|e es IH]; intros d.
  - split; [constructor|]. intros _. by exists d.
  - rewrite Forall_cons, <- (IH (mkInMem (<[ID e +:+ String NUL "" := e]> (records d)))).
    split.
    + intros [d' (d1 & (Hid & Hdom & ->)%Insert_Ok & H2)%insertAll_cons_Ok].
      split; [done|]. by exists d'.
    + intros [[Hid Hdom] [d' H]]. exists d'. apply insertAll_cons_Ok.
      eexists. split; [|done]. by apply Insert_Ok.
Qed.

(** X15.  What [List] returns from a store made by insertions: only events
    that were inserted, each with an ID and a domain, and no two of them
    with the same ID. *)
Theorem listed_ids_unique es d domain :
  insertAll (mkInMem ∅) es = Ok d →
  NoDup (ID <$> listed d domain)
  ∧ Forall (λ e, e ∈ es ∧ ID e ≠ "" ∧ Domain e ≠ "") (listed d domain).
Proof.
  intros Hes.
  pose proof (insertAll_wellKeyed _ _ _ wellKeyed_empty Hes) as Hw.
  split; [by apply NoDup_listed|].
  apply Forall_forall. intros x Hx. pose proof (listed_stored _ _ _ Hx) as Hs.
  split.
  - destruct (insertAll_stored_sub _ _ _ _ wellKeyed_empty Hes Hs) as [H|H];
      [by apply stored_empty in H|done].
  - apply elem_of_stored in Hs as [k Hk].
    destruct (Hw _ _ Hk) as [[Hid _]%fromObject_Some Hdom]. done.
Qed.

Lemma listed_ids_unique_witness :
  ∃ d, insertAll (mkInMem ∅)
         (Samples.twoSites ++ [Samples.viewOf "a" "web" "F7" 240]) = Ok d
    ∧ NoDup (ID <$> listed d "web")
    ∧ Forall (λ e, e ∈ Samples.twoSites ++ [Samples.viewOf "a" "web" "F7" 240]
                   ∧ ID e ≠ "" ∧ Domain e ≠ "") (listed d "web").
Proof.
  eexists. split; [vm_compute; reflexivity|].
  exact (listed_ids_unique
           (Samples.twoSites ++ [Samples.viewOf "a" "web" "F7" 240]) _ "web"
           ltac:(vm_compute; reflexivity)).
Defined.

Lemma stored_noNul es d :
  insertAll (mkInMem ∅) es = Ok d →
  Forall (λ e, noNul (Domain e) = true) es →
  ∀ e, e ∈ stored d → noNul (Domain e) = true.
Proof.
  intros Hes Hall e He.
  destruct (insertAll_stored_sub _ _ _ _ wellKeyed_empty Hes He) as [H|H];
    [by apply stored_empty in H|].
  by apply (proj1 (Forall_forall _ _) Hall).
Qed.

Lemma listed_filter_Permutation es d domain :
  insertAll (mkInMem ∅) es = Ok d →
  noNul domain = true →
  Forall (λ e, noNul (Domain e) = true) es →
  NoDup (ID <$> es) →
  listed d domain ≡ₚ List.filter (λ e, String.eqb (Domain e) domain) es.
Proof.
  intros Hes Hn Hall Hnd.
  pose proof (insertAll_wellKeyed _ _ _ wellKeyed_empty Hes) as Hw.
  pose proof (stored_noNul _ _ Hes Hall) as Hs.
  apply NoDup_Permutation.
  - eapply NoDup_fmap_1, NoDup_listed, Hw.
  - apply (proj2 (NoDup_ListNoDup _)), List.NoDup_filter,
      (proj1 (NoDup_ListNoDup _)). by eapply NoDup_fmap_1.
  - intros x. rewrite (listed_domain _ _ _ Hw Hn Hs).
    rewrite (insertAll_stored _ _ _ wellKeyed_empty Hes Hnd).
    + rewrite stored_empty. split.
      * intros [[[]|Hx] Hd]. apply list_elem_of_In, filter_In.
        split; [by apply list_elem_of_In|]. by apply String.eqb_eq.
      * intros [Hx Hd%String.eqb_eq]%list_elem_of_In%filter_In.
        split; [right; by apply list_elem_of_In|done].
    + intros e y _ Hy. by apply stored_empty in Hy.
Qed.

(** X16.  [List] keeps domains apart.  When neither the domain asked for
    nor the domain of any inserted event holds a NUL byte, every event
    listed has exactly the domain asked for; and when, in addition, the
    inserted events have distinct IDs, the events listed are, up to their
    order, the inserted events of that domain. *)
Theorem list_by_domain es d domain :
  insertAll (mkInMem ∅) es = Ok d →
  noNul domain = true →
  Forall (λ e, noNul (Domain e) = true) es →
  (∀ x, x ∈ listed d domain → Domain x = domain)
  ∧ (NoDup (ID <$> es) →
     listed d domain ≡ₚ List.filter (λ e, String.eqb (Domain e) domain) es).
Proof.
  intros Hes Hn Hall.
  pose proof (insertAll_wellKeyed _ _ _ wellKeyed_empty Hes) as Hw.
  pose proof (stored_noNul _ _ Hes Hall) as Hs.
  split.
  - intros x Hx. by apply (listed_domain _ _ _ Hw Hn Hs) in Hx as [_ ?].
  - intros Hnd. by apply listed_filter_Permutation.
Qed.

Lemma list_by_domain_witness :
  ∃ d, insertAll (mkInMem ∅) Samples.twoSites = Ok d
    ∧ (∀ x, x ∈ listed d "web" → Domain x = "web")
    ∧ (NoDup (ID <$> Samples.twoSites) →
       listed d "web"
       ≡ₚ List.filter (λ e, String.eqb (Domain e) "web") Samples.twoSites).
Proof.
  eexists. split; [vm_compute; reflexivity|].
  exact (list_by_domain Samples.twoSites _ "web"
           ltac:(vm_compute; reflexivity) ltac:(vm_compute; reflexivity)
           ltac:(repeat constructor)).
Defined.

Lemma fingerprints_Permutation es es' :
  es ≡ₚ es' → fingerprints es = fingerprints es'.
Proof.
  intros H. apply set_eq. intros x. unfold fingerprints.
  rewrite !elem_of_list_to_set. by rewrite H.
Qed.

Lemma GetAnalyticsStats_asDatabase now d domain :
  GetAnalyticsStats now (Some (asDatabase d)) domain
  = aggregate now (listed d domain).
Proof. reflexivity. Qed.

(** X17.  A scrape of the in-memory store.  Let events with distinct IDs
    be inserted into a new store, no domain holding a NUL byte.  Then a
    scrape for a domain succeeds exactly when none of the inserted events of
    that domain is malformed, and its unique visitors, the sum of its page
    map and its page views are those of the inserted events of that domain:
    the events of other domains have no part in it. *)
Theorem scrape_of_store now es d domain :
  insertAll (mkInMem ∅) es = Ok d →
  NoDup (ID <$> es) →
  noNul domain = true →
  Forall (λ e, noNul (Domain e) = true) es →
  let mine := List.filter (λ e, String.eqb (Domain e) domain) es in
  (is_Ok (GetAnalyticsStats now (Some (asDatabase d)) domain)
   ↔ ¬ ∃ e, e ∈ mine ∧ malformed e)
  ∧ ∀ st, GetAnalyticsStats now (Some (asDatabase d)) domain = Ok st →
      UniqueVisitors st = Z.of_nat (size (fingerprints mine))
      ∧ rateSum (PagesRate st) = Z.of_nat (List.length mine)
      ∧ TotalPageViews st + otherEvents mine = Z.of_nat (List.length mine).
Proof.
  intros Hes Hnd Hn Hall mine.
  pose proof (listed_filter_Permutation _ _ _ Hes Hn Hall Hnd) as Hperm.
  fold mine in Hperm. rewrite GetAnalyticsStats_asDatabase. split.
  - rewrite aggregate_is_Ok. split.
    + intros Hno (e & He & Hm). apply Hno. exists e. by rewrite Hperm.
    + intros Hno (e & He & Hm). apply Hno. exists e. by rewrite <- Hperm.
  - intros st H.
    pose proof (aggregate_sums _ _ _ H) as (Hp & _ & _ & _ & Hv).
    rewrite (Permutation_length Hperm) in Hp, Hv.
    unfold otherEvents in Hv.
    rewrite (filter_length_Permutation _ _ _ Hperm) in Hv.
    split; [|done].
    apply aggregate_Ok in H as (c & Hc & ->). simpl.
    apply processEvents_dom in Hc. simpl in Hc.
    rewrite dom_empty_L, fingerprints_sortEvents in Hc.
    rewrite (fingerprints_Permutation _ _ Hperm) in Hc.
    rewrite <- (size_dom (D:=gset string)), Hc. f_equal. f_equal. set_solver.
Qed.

Lemma scrape_of_store_witness :
  ∃ d, insertAll (mkInMem ∅) Samples.twoSites = Ok d
    ∧ (is_Ok (GetAnalyticsStats 0 (Some (asDatabase d)) "web")
       ↔ ¬ ∃ e, e ∈ List.filter (λ e, String.eqb (Domain e) "web")
                      Samples.twoSites ∧ malformed e)
    ∧ ∀ st, GetAnalyticsStats 0 (Some (asDatabase d)) "web" = Ok st →
        UniqueVisitors st = 2
        ∧ rateSum (PagesRate st) = 2
        ∧ TotalPageViews st + 0 = 2.
Proof.
  eexists. split; [vm_compute; reflexivity|].
  exact (scrape_of_store 0 Samples.twoSites _ "web"
           ltac:(vm_compute; reflexivity)
           ltac:(apply (bool_decide_unpack _); vm_compute; reflexivity)
           ltac:(vm_compute; reflexivity)
           ltac:(repeat constructor)).
Defined.

(** *** The ingestion service *)

Import server.

Lemma append_assoc (a b c : string) : (a +:+ b) +:+ c = a +:+ (b +:+ c).
Proof.
  induction a as [|x a IH]; [done|].
  rewrite !append_cons. by rewrite IH.
Qed.

Lemma Sub_mono t t' u : t ≤ t' → Sub t u ≤ Sub t' u.
Proof.
  intros H. unfold Sub, minDuration, maxDuration.
  repeat match goal with |- context [?a <? ?b] => destruct (Z.ltb_spec a b) end;
    lia.
Qed.

Lemma Since_zeroTime t :
  zeroTime + DailySaltLifetime + 1 ≤ t → DailySaltLifetime < Since t zeroTime.
Proof.
  unfold Since, Sub, DailySaltLifetime, Hour, Minute, zeroTime,
    minDuration, maxDuration.
  intros H.
  repeat match goal with |- context [?a <? ?b] => destruct (Z.ltb_spec a b) end;
    lia.
Qed.

Lemma Insert_stored_sub d msg d' x :
  Insert d msg = Ok d' → x ∈ stored d' → x = msg ∨ x ∈ stored d.
Proof.
  intros (_ & _ & ->)%Insert_Ok. rewrite !elem_of_stored. simpl.
  intros [k H].
  destruct (decide (k = ID msg +:+ String NUL "")) as [->|Hne].
  - rewrite lookup_insert_eq in H. injection H as <-. by left.
  - rewrite lookup_insert_ne in H by done. right. by exists k.
Qed.

Lemma rotate_spec s c s1 res :
  rotate s c = (s1, res) →
  h s1 = h s ∧ db s1 = db s
  ∧ ((expired s c = false ∧ s1 = s ∧ res = Ok tt)
     ∨ (expired s c = true ∧ DailySalt s1 = Some (saltBuffer c)
        ∧ ((saltErr c = None ∧ res = Ok tt ∧ DailySaltTimestamp s1 = stamp c)
           ∨ (∃ m, saltErr c = Some m
                ∧ res = Err ("error while creating the daily salt: " +:+ m)
                ∧ DailySaltTimestamp s1 = DailySaltTimestamp s)))).
Proof.
  unfold rotate. destruct (expired s c).
  - destruct (saltErr c) as [m|]; intros [= <- <-]; simpl;
      (split; [done|split; [done|right]]); (split; [done|split; [done|]]).
    + right. by exists m.
    + by left.
  - intros [= <- <-]. split; [done|split; [done|by left]].
Qed.

Section Server.
Variable Sum256 : string → string.
Variable Parse : string → useragent.UserAgent.
Variable format : Event → string.

(** The event the handler builds. *)
Local Notation eventOf hs id req ip agent ts :=
  (mkEvent id (Type_ req) (URL req) (Domain req) (Referrer req)
     (useragent.Name (Parse agent)) (useragent.OS (Parse agent))
     (Some (device (Parse agent)))
     (hex.EncodeToString (Sum256 hs)) (Meta req) (Props req) (Some ts)).

Lemma CreateEvent_cases s c r s' res :
  CreateEvent Sum256 Parse format s c r = (s', res) →
  (r = None ∧ s' = s
   ∧ res = Err "rpc error: code = InvalidArgument desc = request is nil")
  ∨ (∃ req, r = Some req ∧ Domain req = "" ∧ s' = s
      ∧ res = Err "rpc error: code = InvalidArgument desc = domain is missing")
  ∨ (∃ req m, r = Some req ∧ Domain req ≠ "" ∧ rotate s c = (s', Err m)
      ∧ res = Err m)
  ∨ (∃ req s1, r = Some req ∧ Domain req ≠ "" ∧ rotate s c = (s1, Ok tt)
      ∧ res = Panic ∧ db s' = db s
      ∧ (newID c = None ∨ first (md c) "x-forwarded-for" = Panic
         ∨ first (md c) "grpcgateway-user-agent" = Panic))
  ∨ (∃ req s1 id ip agent,
      r = Some req ∧ Domain req ≠ "" ∧ rotate s c = (s1, Ok tt)
      ∧ newID c = Some id
      ∧ first (md c) "x-forwarded-for" = Ok ip
      ∧ first (md c) "grpcgateway-user-agent" = Ok agent
      ∧ let hs := (((h s +:+ default "" (DailySalt s1)) +:+ Domain req)
                   +:+ ip) +:+ agent in
        let e := eventOf hs id req ip agent (pbNow c) in
        match Insert (db s) e with
        | Ok d =>
            res = Ok tt
            ∧ s' = mkServer "" d (DailySalt s1) (DailySaltTimestamp s1)
        | _ =>
            id = "" ∧ (∃ m, res = Err m)
            ∧ s' = mkServer "" (db s) (DailySalt s1) (DailySaltTimestamp s1)
        end).
Proof.
  unfold CreateEvent. destruct r as [req|]; [|intros [= <- <-]; by left].
  destruct (String.eqb_spec (Domain req) "") as [Hd|Hd].
  { intros [= <- <-]. right. left. by exists req. }
  destruct (rotate s c) as [s1 [[]|m|]] eqn:Hrot.
  - pose proof (rotate_spec _ _ _ _ Hrot) as (Hh & Hdb & _).
    destruct (newID c) as [id|] eqn:Hid.
    2:{ intros [= <- <-]. do 3 right. left. exists req, s1. by split_and!; auto. }
    destruct (first (md c) "x-forwarded-for") as [ip| |] eqn:Hip.
    2:{ unfold first in Hip. by repeat case_match. }
    2:{ intros [= <- <-]. do 3 right. left. exists req, s1.
        by split_and!; auto. }
    destruct (first (md c) "grpcgateway-user-agent") as [agent| |] eqn:Hua.
    2:{ unfold first in Hua. by repeat case_match. }
    2:{ intros [= <- <-]. do 3 right. left. exists req, s1.
        by split_and!; auto. }
    unfold write, reset. simpl. rewrite Hh, Hdb.
    intros H. do 4 right. exists req, s1, id, ip, agent.
    split_and!; [done..|]. simpl.
    destruct (Insert (db s) _) as [d|m|] eqn:Hins.
    + by injection H as <- <-.
    + injection H as <- <-. split_and!; [|by eexists|done].
      unfold Insert in Hins. simpl in Hins.
      destruct (fromObject id) as [k|] eqn:Hk.
      * destruct (fromObject (Domain req)) as [v|] eqn:Hv; [done|].
        unfold fromObject in Hv. by destruct (String.eqb_spec (Domain req) "").
      * unfold fromObject in Hk. by destruct (String.eqb_spec id "").
    + unfold Insert in Hins. by repeat case_match.
  - intros [= <- <-]. do 2 right. left. by exists req, m.
  - apply rotate_spec in Hrot as (_ & _ & [(_ & _ & [=])|(_ & _ & [(_ & [=] & _)|(m & _ & [=] & _)])]).
Qed.

Lemma saltReady_mono (good good' : string → Prop) lo lo' s :
  (∀ x, good x → good' x) → lo ≤ lo' →
  saltReady good lo s → saltReady good' lo' s.
Proof.
  intros Hg Hlo [(salt & Hs & Hgood)|Hold].
  - left. exists salt. auto.
  - right. intros t Ht. apply Hold. lia.
Qed.

Lemma saltReady_fields good lo s s' :
  DailySalt s' = DailySalt s → DailySaltTimestamp s' = DailySaltTimestamp s →
  saltReady good lo s → saltReady good lo s'.
Proof. unfold saltReady. by intros -> ->. Qed.

Lemma rotate_ready good lo s c s1 res :
  saltReady good lo s → lo ≤ clock c → rotate s c = (s1, res) →
  saltReady (λ x, good x ∨ (saltErr c = None ∧ x = saltBuffer c)) (clock c) s1
  ∧ (res = Ok tt →
     ∃ salt, DailySalt s1 = Some salt
       ∧ (good salt ∨ (saltErr c = None ∧ salt = saltBuffer c))).
Proof.
  intros Hready Hlo Hrot.
  apply rotate_spec in Hrot
    as (_ & _ & [(Hexp & -> & ->)|(Hexp & Hsalt & [(He & -> & Hts)|(m & He & -> & Hts)])]).
  - unfold expired in Hexp. destruct (DailySalt s) as [salt|] eqn:Hs; [|done].
    apply Z.ltb_ge in Hexp.
    destruct Hready as [(salt' & Hs' & Hgood)|Hold].
    + rewrite Hs in Hs'. injection Hs' as <-. split.
      * left. exists salt. auto.
      * intros _. exists salt. auto.
    + specialize (Hold _ Hlo). lia.
  - split.
    + left. exists (saltBuffer c). auto.
    + intros _. exists (saltBuffer c). auto.
  - split; [|done]. right. rewrite Hts. intros t Ht.
    unfold expired in Hexp. destruct (DailySalt s) as [salt|] eqn:Hs.
    + apply Z.ltb_lt in Hexp. unfold Since in *.
      pose proof (Sub_mono _ _ (DailySaltTimestamp s) Ht). lia.
    + destruct Hready as [(salt' & Hs' & _)|Hold]; [congruence|].
      apply Hold. lia.
Qed.

Lemma CreateEvent_step good lo s c r s1 res :
  h s = "" → saltReady good lo s → lo ≤ clock c →
  CreateEvent Sum256 Parse format s c r = (s1, res) → res ≠ Panic →
  h s1 = ""
  ∧ saltReady (λ x, good x ∨ (saltErr c = None ∧ x = saltBuffer c)) (clock c) s1
  ∧ ∀ e, e ∈ stored (db s1) →
      e ∈ stored (db s)
      ∨ ∃ req salt ip agent,
          r = Some req
          ∧ (good salt ∨ (saltErr c = None ∧ salt = saltBuffer c))
          ∧ first (md c) "x-forwarded-for" = Ok ip
          ∧ first (md c) "grpcgateway-user-agent" = Ok agent
          ∧ newID c = Some (ID e) ∧ Domain e = Domain req
          ∧ HashedVisit e = visitHash Sum256 salt (Domain req) ip agent.
Proof.
  intros Hh Hready Hlo Hc Hres.
  apply CreateEvent_cases in Hc
    as [(-> & -> & ->)|[(req & -> & Hd & -> & ->)|[(req & m & -> & Hd & Hrot & ->)
       |[(req & s' & -> & Hd & Hrot & -> & _)
        |(req & s' & id & ip & agent & -> & Hd & Hrot & Hid & Hip & Hua & H)]]]].
  - split_and!; [done| |by left].
    eapply saltReady_mono; [|done..]. auto.
  - split_and!; [done| |by left].
    eapply saltReady_mono; [|done..]. auto.
  - pose proof (rotate_spec _ _ _ _ Hrot) as (Hh1 & Hdb1 & _).
    pose proof (rotate_ready _ _ _ _ _ _ Hready Hlo Hrot) as [Hr1 _].
    split_and!; [congruence|done|]. rewrite Hdb1. by left.
  - done.
  - pose proof (rotate_ready _ _ _ _ _ _ Hready Hlo Hrot) as [Hr1 Hsalt].
    destruct (Hsalt eq_refl) as (salt & Hs1 & Hgood).
    simpl in H. rewrite Hs1, Hh in H. simpl in H.
    destruct (Insert (db s) _) as [d|m|] eqn:Hins.
    + destruct H as [-> ->]. split_and!; [done| |].
      * by eapply saltReady_fields; [..|exact Hr1].
      * intros e He. simpl in He.
        apply (Insert_stored_sub _ _ _ _ Hins) in He as [->|He]; [|by left].
        right. exists req, salt, ip, agent. split_and!; try done. simpl.
        unfold visitHash. by rewrite append_nil, !append_assoc.
    + destruct H as (_ & _ & ->). split_and!; [done| |by left].
      by eapply saltReady_fields; [..|exact Hr1].
    + destruct H as (_ & _ & ->). split_and!; [done| |by left].
      by eapply saltReady_fields; [..|exact Hr1].
Qed.

Lemma serve_cons_Some s c r rest s' :
  serve Sum256 Parse format s ((c, r) :: rest) = Some s' →
  ∃ s1 res, CreateEvent Sum256 Parse format s c r = (s1, res) ∧ res ≠ Panic
    ∧ serve Sum256 Parse format s1 rest = Some s'.
Proof.
  simpl. destruct (CreateEvent _ _ _ s c r) as [s1 res].
  destruct res as [u|m|]; [| |done]; intros H; by eexists _, _.
Qed.

Lemma serve_inv calls : ∀ good lo s s',
  h s = "" → saltReady good lo s → clocksFrom lo calls →
  serve Sum256 Parse format s calls = Some s' →
  h s' = ""
  ∧ ∀ e, e ∈ stored (db s') →
      e ∈ stored (db s)
      ∨ ∃ c req salt ip agent,
          (c, Some req) ∈ calls
          ∧ (good salt
             ∨ ∃ c0, c0 ∈ calls.*1 ∧ saltErr c0 = None ∧ salt = saltBuffer c0)
          ∧ first (md c) "x-forwarded-for" = Ok ip
          ∧ first (md c) "grpcgateway-user-agent" = Ok agent
          ∧ newID c = Some (ID e) ∧ Domain e = Domain req
          ∧ HashedVisit e = visitHash Sum256 salt (Domain req) ip agent.
Proof.
  induction calls as [|[c r] rest IH]; intros good lo s s' Hh Hready Hclk Hs.
  - injection Hs as <-. split; [done|]. by left.
  - destruct Hclk as [Hlo Hclk].
    apply serve_cons_Some in Hs as (s1 & res & Hc & Hres & Hs).
    destruct (CreateEvent_step _ _ _ _ _ _ _ Hh Hready Hlo Hc Hres)
      as (Hh1 & Hr1 & Hst1).
    destruct (IH _ _ _ _ Hh1 Hr1 Hclk Hs) as [Hh' Hst']. split; [done|].
    intros e He. destruct (Hst' e He) as [He1|Hnew].
    + destruct (Hst1 e He1) as [?|(req & salt & ip & agent & -> & Hg & ?)];
        [by left|].
      right. exists c, req, salt, ip, agent. split; [by left|].
      split; [|done]. destruct Hg as [?|[? ->]]; [by left|].
      right. exists c. split; [by left|done].
    + destruct Hnew as (c' & req & salt & ip & agent & Hin & Hg & ?).
      right. exists c', req, salt, ip, agent. split; [by right|].
      split; [|done].
      destruct Hg as [[?|[? ->]]|(c0 & Hc0 & ?)].
      * by left.
      * right. exists c. split; [by left|done].
      * right. exists c0. split; [by right|done].
Qed.

(** X18.  What the service stores.  Let a new server take calls one after
    the other, none of them panicking, with clock readings that do not go
    back and are later than the first day of year 1.  Then the hash is
    empty again after the last call, and every event in the store that was
    not there at the start carries the fingerprint of the domain, the
    address and the user agent of one of the calls, under a salt that one of
    the calls read completely from the random source: a buffer left by a
    failed read is never hashed. *)
Theorem stored_fingerprints d s calls s' :
  New true (Some d) = Ok s →
  clocksFrom (zeroTime + DailySaltLifetime + 1) calls →
  serve Sum256 Parse format s calls = Some s' →
  h s' = ""
  ∧ ∀ e, e ∈ stored (db s') →
      e ∈ stored d
      ∨ ∃ c req c0 ip agent,
          (c, Some req) ∈ calls
          ∧ c0 ∈ calls.*1 ∧ saltErr c0 = None
          ∧ first (md c) "x-forwarded-for" = Ok ip
          ∧ first (md c) "grpcgateway-user-agent" = Ok agent
          ∧ newID c = Some (ID e) ∧ Domain e = Domain req
          ∧ HashedVisit e
            = visitHash Sum256 (saltBuffer c0) (Domain req) ip agent.
Proof.
  intros [= <-] Hclk Hs.
  assert (saltReady (λ _, False) (zeroTime + DailySaltLifetime + 1)
            (mkServer "" d None zeroTime)) as Hready.
  { right. intros t Ht. by apply Since_zeroTime. }
  destruct (serve_inv calls (λ _, False) _ (mkServer "" d None zeroTime) s'
              eq_refl Hready Hclk Hs) as [Hh Hst].
  split; [done|]. intros e He. destruct (Hst e He) as [?|Hnew]; [by left|].
  destruct Hnew as (c & req & salt & ip & agent & Hin & Hg & Hrest).
  destruct Hg as [[]|(c0 & Hc0 & Herr & ->)].
  right. by exists c, req, c0, ip, agent.
Qed.

Lemma CreateEvent_Ok s c r s' :
  CreateEvent Sum256 Parse format s c r = (s', Ok tt) →
  ∃ req s1 id ip agent salt d,
    r = Some req ∧ Domain req ≠ "" ∧ rotate s c = (s1, Ok tt)
    ∧ DailySalt s1 = Some salt ∧ newID c = Some id
    ∧ first (md c) "x-forwarded-for" = Ok ip
    ∧ first (md c) "grpcgateway-user-agent" = Ok agent
    ∧ Insert (db s)
        (eventOf ((((h s +:+ salt) +:+ Domain req) +:+ ip) +:+ agent)
           id req ip agent (pbNow c)) = Ok d
    ∧ s' = mkServer "" d (Some salt) (DailySaltTimestamp s1).
Proof.
  intros Hc. apply CreateEvent_cases in Hc
    as [(_ & _ & [=])|[(req & _ & _ & _ & [=])|[(req & m & _ & _ & _ & [=])
       |[(req & s1 & _ & _ & _ & [=] & _)
        |(req & s1 & id & ip & agent & -> & Hd & Hrot & Hid & Hip & Hua & H)]]]].
  assert (∃ salt, DailySalt s1 = Some salt) as [salt Hsalt].
  { apply rotate_spec in Hrot as (_ & _ & [(Hexp & -> & _)|(_ & Hs & _)]).
    - unfold expired in Hexp. destruct (DailySalt s); [by eexists|done].
    - by eexists. }
  simpl in H. rewrite Hsalt in H. simpl in H.
  destruct (Insert (db s) _) as [d|m|] eqn:Hins.
  - destruct H as [_ ->]. exists req, s1, id, ip, agent, salt, d.
    rewrite Hsalt. by split_and!.
  - by destruct H as (_ & [m' [=]] & _).
  - by destruct H as (_ & [m' [=]] & _).
Qed.

Lemma recordOf_Insert d e d' :
  Insert d e = Ok d' → recordOf d' (ID e) = Some e.
Proof.
  intros (_ & _ & ->)%Insert_Ok. unfold recordOf, fromArgs. simpl.
  by rewrite lookup_insert_eq.
Qed.

Lemma device_bucket ua : deviceBucket (Some (device ua)) = bucketOf ua.
Proof. unfold device, bucketOf. by destruct ua as [? ? [] [] [] []]. Qed.

(** X19.  When a call succeeds.  For a call whose new ID is not empty, the
    handler returns without error exactly when the request is there and has
    a domain, the salt is fresh or is read completely, and both headers are
    there: the store then never refuses the event.  A call that does not
    succeed leaves the store as it was. *)
Theorem create_event_succeeds s c r s' res id :
  CreateEvent Sum256 Parse format s c r = (s', res) →
  newID c = Some id → id ≠ "" →
  (res = Ok tt
   ↔ ∃ req ip agent,
       r = Some req ∧ Domain req ≠ ""
       ∧ (expired s c = true → saltErr c = None)
       ∧ first (md c) "x-forwarded-for" = Ok ip
       ∧ first (md c) "grpcgateway-user-agent" = Ok agent)
  ∧ (res ≠ Ok tt → db s' = db s).
Proof.
  intros Hc Hid Hne. apply CreateEvent_cases in Hc
    as [(-> & -> & ->)|[(req & -> & Hd & -> & ->)|[(req & m & -> & Hd & Hrot & ->)
       |[(req & s1 & -> & Hd & Hrot & -> & Hdb & Hp)
        |(req & s1 & id' & ip & agent & -> & Hd & Hrot & Hid' & Hip & Hua & H)]]]].
  - split; [|done]. split; [done|]. by intros (? & ? & ? & [=] & _).
  - split; [|done]. split; [done|].
    intros (? & ? & ? & [= <-] & ? & _). done.
  - apply rotate_spec in Hrot
      as (_ & Hdb & [(_ & _ & [=])|(Hexp & _ & [(_ & [=] & _)|(m' & He & _ & _)])]).
    split; [|done]. split; [done|].
    intros (? & ? & ? & _ & _ & Hfresh & _). rewrite (Hfresh Hexp) in He. done.
  - split; [|done]. split; [done|].
    intros (? & ? & ? & _ & _ & _ & Hip & Hua).
    destruct Hp as [?|[?|?]]; congruence.
  - rewrite Hid in Hid'. injection Hid' as <-. simpl in H.
    destruct (Insert (db s) _) as [d|m|] eqn:Hins.
    + destruct H as [-> ->]. split; [|done]. split; [|done]. intros _.
      exists req, ip, agent. split_and!; try done. intros Hexp.
      apply rotate_spec in Hrot
        as (_ & _ & [(Hexp' & _)|(_ & _ & [(? & _)|(m' & _ & [=] & _)])]);
        [congruence|done].
    + by destruct H as (? & _).
    + by destruct H as (? & _).
Qed.

(** X20.  The same visit, the same fingerprint.  Of two calls that succeed
    one after the other, the second within the lifetime of the salt, the
    events stored carry the same fingerprint whenever domain, address and
    user agent of the two calls, written one after the other, give the same
    bytes: the hash does not tell where the domain ends and the address
    begins. *)
Theorem same_bytes_same_fingerprint s c1 r1 s1 c2 r2 s2
    id1 id2 ip1 ip2 agent1 agent2 :
  h s = "" →
  CreateEvent Sum256 Parse format s c1 (Some r1) = (s1, Ok tt) →
  CreateEvent Sum256 Parse format s1 c2 (Some r2) = (s2, Ok tt) →
  Since (clock c2) (DailySaltTimestamp s1) ≤ DailySaltLifetime →
  newID c1 = Some id1 → newID c2 = Some id2 →
  first (md c1) "x-forwarded-for" = Ok ip1 →
  first (md c1) "grpcgateway-user-agent" = Ok agent1 →
  first (md c2) "x-forwarded-for" = Ok ip2 →
  first (md c2) "grpcgateway-user-agent" = Ok agent2 →
  Domain r1 +:+ ip1 +:+ agent1 = Domain r2 +:+ ip2 +:+ agent2 →
  ∃ e1 e2, recordOf (db s1) id1 = Some e1 ∧ recordOf (db s2) id2 = Some e2
    ∧ HashedVisit e1 = HashedVisit e2.
Proof.
  intros Hh H1 H2 Hfresh Hid1 Hid2 Hip1 Hua1 Hip2 Hua2 Hbytes.
  apply CreateEvent_Ok in H1
    as (? & t1 & ? & ? & ? & salt & d1 & [= <-] & _ & _ & _ & Hid1' & Hip1'
        & Hua1' & Hins1 & ->).
  apply CreateEvent_Ok in H2
    as (? & t2 & ? & ? & ? & salt2 & d2 & [= <-] & _ & Hrot & Hsalt2 & Hid2'
        & Hip2' & Hua2' & Hins2 & ->).
  rewrite Hid1 in Hid1'. rewrite Hid2 in Hid2'. rewrite Hip1 in Hip1'.
  rewrite Hua1 in Hua1'. rewrite Hip2 in Hip2'. rewrite Hua2 in Hua2'.
  injection Hid1' as <-. injection Hid2' as <-. injection Hip1' as <-.
  injection Hua1' as <-. injection Hip2' as <-. injection Hua2' as <-.
  simpl in *.
  assert (salt2 = salt) as ->.
  { unfold rotate, expired in Hrot. simpl in Hrot.
    destruct (Z.ltb_spec DailySaltLifetime (Since (clock c2) (DailySaltTimestamp t1)));
      [lia|].
    injection Hrot as <-. simpl in Hsalt2. congruence. }
  eexists _, _. split; [apply (recordOf_Insert _ _ _ Hins1)|].
  split; [apply (recordOf_Insert _ _ _ Hins2)|]. simpl.
  rewrite Hh, !append_nil, !append_assoc. by rewrite Hbytes.
Qed.

(** X21.  From the user agent to the device bucket.  The event a successful
    call stores is returned by [List] for the domain of the request, and the
    exporter counts it in the bucket of the first flag the parser has set,
    in the order mobile, tablet, desktop, bot, and as unknown when none is
    set. *)
Theorem created_event_bucket s c r s' id :
  CreateEvent Sum256 Parse format s c r = (s', Ok tt) →
  newID c = Some id →
  ∃ e req agent,
    r = Some req ∧ recordOf (db s') id = Some e
    ∧ e ∈ listed (db s') (Domain req)
    ∧ first (md c) "grpcgateway-user-agent" = Ok agent
    ∧ deviceBucket (Device_ e) = bucketOf (Parse agent).
Proof.
  intros H Hid. apply CreateEvent_Ok in H
    as (req & s1 & id' & ip & agent & salt & d & -> & Hd & _ & _ & Hid'
        & _ & Hua & Hins & ->).
  rewrite Hid in Hid'. injection Hid' as <-.
  eexists _, req, agent. split; [done|].
  split; [apply (recordOf_Insert _ _ _ Hins)|]. simpl.
  split_and!; [|done|apply device_bucket].
  pose proof Hins as (_ & _ & ->)%Insert_Ok.
  apply elem_of_listed. eexists. simpl. split; [apply lookup_insert_eq|].
  unfold reached, domainIndexKey, fromObject. simpl.
  destruct (String.eqb_spec (Domain req) ""); [done|]. simpl.
  unfold fromArgs. apply hasPrefix_app.
Qed.

End Server.

Lemma stored_fingerprints_witness :
  ∃ s', serve Samples.digest Samples.parse Samples.text
          (mkServer "" (mkInMem ∅) None zeroTime) Samples.calls = Some s'
    ∧ h s' = ""
    ∧ ∀ e, e ∈ stored (db s') →
        e ∈ stored (mkInMem ∅)
        ∨ ∃ c req c0 ip agent,
            (c, Some req) ∈ Samples.calls
            ∧ c0 ∈ Samples.calls.*1 ∧ saltErr c0 = None
            ∧ first (md c) "x-forwarded-for" = Ok ip
            ∧ first (md c) "grpcgateway-user-agent" = Ok agent
            ∧ newID c = Some (ID e) ∧ Domain e = Domain req
            ∧ HashedVisit e
              = visitHash Samples.digest (saltBuffer c0) (Domain req) ip agent.
Proof.
  eexists. split; [vm_compute; reflexivity|].
  exact (stored_fingerprints Samples.digest Samples.parse Samples.text
           (mkInMem ∅) (mkServer "" (mkInMem ∅) None zeroTime) Samples.calls _
           eq_refl
           ltac:(vm_compute; intuition discriminate)
           ltac:(vm_compute; reflexivity)).
Defined.

Lemma create_event_succeeds_witness :
  ∃ s',
    CreateEvent Samples.digest Samples.parse Samples.text
      (mkServer "" (mkInMem ∅) None zeroTime)
      (Samples.call "u2" "10.0.0.1" "Mozilla" "salt" None 1700000001000000000)
      (Some (Samples.request "web")) = (s', Ok tt)
    ∧ (Ok tt = Ok tt
       ↔ ∃ req ip agent,
           Some (Samples.request "web") = Some req ∧ Domain req ≠ ""
           ∧ (expired (mkServer "" (mkInMem ∅) None zeroTime)
                (Samples.call "u2" "10.0.0.1" "Mozilla" "salt" None
                   1700000001000000000) = true
              → saltErr (Samples.call "u2" "10.0.0.1" "Mozilla" "salt" None
                           1700000001000000000) = None)
           ∧ first (md (Samples.call "u2" "10.0.0.1" "Mozilla" "salt" None
                          1700000001000000000)) "x-forwarded-for" = Ok ip
           ∧ first (md (Samples.call "u2" "10.0.0.1" "Mozilla" "salt" None
                          1700000001000000000)) "grpcgateway-user-agent"
             = Ok agent)
    ∧ (Ok tt ≠ Ok tt → db s' = mkInMem ∅).
Proof.
  eexists. split; [vm_compute; reflexivity|].
  exact (create_event_succeeds Samples.digest Samples.parse Samples.text
           (mkServer "" (mkInMem ∅) None zeroTime)
           (Samples.call "u2" "10.0.0.1" "Mozilla" "salt" None
              1700000001000000000)
           (Some (Samples.request "web")) _ (Ok tt) "u2"
           ltac:(vm_compute; reflexivity) eq_refl ltac:(discriminate)).
Defined.

Lemma same_bytes_same_fingerprint_witness :
  ∃ s1 s2,
    CreateEvent Samples.digest Samples.parse Samples.text
      (mkServer "" (mkInMem ∅) None zeroTime)
      (Samples.call "u1" "c" "Mozilla" "salt" None 1700000001000000000)
      (Some (Samples.request "ab")) = (s1, Ok tt)
    ∧ CreateEvent Samples.digest Samples.parse Samples.text s1
        (Samples.call "u2" "bc" "Mozilla" "next" None 1700000061000000000)
        (Some (Samples.request "a")) = (s2, Ok tt)
    ∧ ∃ e1 e2, recordOf (db s1) "u1" = Some e1 ∧ recordOf (db s2) "u2" = Some e2
        ∧ HashedVisit e1 = HashedVisit e2.
Proof.
  eexists. eexists. split; [vm_compute; reflexivity|].
  split; [vm_compute; reflexivity|].
  exact (same_bytes_same_fingerprint Samples.digest Samples.parse Samples.text
           (mkServer "" (mkInMem ∅) None zeroTime)
           (Samples.call "u1" "c" "Mozilla" "salt" None 1700000001000000000)
           (Samples.request "ab") _
           (Samples.call "u2" "bc" "Mozilla" "next" None 1700000061000000000)
           (Samples.request "a") _
           "u1" "u2" "c" "bc" "Mozilla" "Mozilla"
           eq_refl ltac:(vm_compute; reflexivity) ltac:(vm_compute; reflexivity)
           ltac:(vm_compute; discriminate)
           eq_refl eq_refl
           ltac:(vm_compute; reflexivity) ltac:(vm_compute; reflexivity)
           ltac:(vm_compute; reflexivity) ltac:(vm_compute; reflexivity)
           eq_refl).
Defined.

Lemma created_event_bucket_witness :
  ∃ s',
    CreateEvent Samples.digest Samples.parse Samples.text
      (mkServer "" (mkInMem ∅) None zeroTime)
      (Samples.call "u2" "10.0.0.1" "Mozilla" "salt" None 1700000001000000000)
      (Some (Samples.request "web")) = (s', Ok tt)
    ∧ ∃ e req agent,
        Some (Samples.request "web") = Some req
        ∧ recordOf (db s') "u2" = Some e
        ∧ e ∈ listed (db s') (Domain req)
        ∧ first (md (Samples.call "u2" "10.0.0.1" "Mozilla" "salt" None
                       1700000001000000000)) "grpcgateway-user-agent"
          = Ok agent
        ∧ deviceBucket (Device_ e) = bucketOf (Samples.parse agent).
Proof.
  eexists. split; [vm_compute; reflexivity|].
  exact (created_event_bucket Samples.digest Samples.parse Samples.text
           (mkServer "" (mkInMem ∅) None zeroTime)
           (Samples.call "u2" "10.0.0.1" "Mozilla" "salt" None
              1700000001000000000)
           (Some (Samples.request "web")) _ "u2"
           ltac:(vm_compute; reflexivity) eq_refl).
Defined.
